(** * The Scoop: request router and in-memory store of [server.js]

    A shallow embedding of the handlers of [server.js] (users, articles,
    comments, votes), of the route resolver [getRequestRoute] and of the
    route table, followed by the properties of the store they maintain.

    Modelling conventions.
    - [database.users], [database.articles] and [database.comments] are
      JS objects used as maps: [gmap]s here.  A deleted article or comment
      is the value [null] stored under its key: the maps hold
      [option] records, [None] being [null].  A read of
      [database.users] under a name that [Object.prototype] defines
      ([constructor], [toString], [__proto__], ...) yields the inherited
      value when the store has no user of that name ([users_at]).  The
      keys of the other two maps are numbers, whose strings are no such
      names.
    - A JS number is classified by [jsnum]: not-a-number, an integer, or
      any other value (a fraction, an infinity).  [Number] rounds the
      value a string denotes to the nearest double, ties to even.  The
      two id counters are unbounded integers: a store holds fewer than
      2^53 records.  The characters of a string are its code units
      below 256.
    - Request bodies are typed as the data model types them: a body is
      [null] or an object whose fields [username], [article], [comment]
      may be absent; titles, urls, comment bodies and usernames are
      strings, [articleId] is a number.
    - Handlers mutate the store in place; here each handler takes the
      store and returns the new one with its response.  The response
      body holds the records as they are when the handler returns, which
      is when the server serialises them.
    - A [TypeError] raised by a property read on [undefined] or [null] is
      the outcome [Throw]: the exception is not caught, and the server
      process ends with it. *)

From stdpp Require Import base option list strings gmap sorting.
From Stdlib Require Import ZArith Lia.
From Stdlib Require Import Ascii.
From Stdlib Require String.

Local Open Scope string_scope.
Local Open Scope Z_scope.

(** ** JavaScript values and built-ins used by the handlers *)

(** What an array read or a map read yields: nothing, [null], or an
    object. *)
Inductive slot (A : Type) : Type :=
| undefined
| null
| obj (a : A).
Arguments undefined {A}.
Arguments null {A}.
Arguments obj {A} a.

(** The value of a [username] taken from a request: [request.body &&
    request.body.username] is [null] for a [null] body, [undefined] for
    an absent field, and the string otherwise. *)
Inductive jsname : Type :=
| NUndefined
| NNull
| NStr (s : string).

#[global] Instance jsname_eq_dec : EqDecision jsname.
Proof. solve_decision. Defined.

(** String conversion, as a template literal or a property key does it. *)
Definition ToString (v : jsname) : string :=
  match v with
  | NUndefined => "undefined"
  | NNull => "null"
  | NStr s => s
  end.

(** Truthiness of a string: every string but the empty one. *)
Definition truthy (s : string) : bool :=
  match s with
  | EmptyString => false
  | String _ _ => true
  end.

Definition name_truthy (v : jsname) : bool :=
  match v with
  | NStr s => truthy s
  | _ => false
  end.

(** A present, non-empty string field. *)
Definition truthy_field (f : option string) : option string :=
  match f with
  | Some s => if truthy s then Some s else None
  | None => None
  end.

(** [a || b] on an optional string field and a stored string. *)
Definition or_else (f : option string) (old : string) : string :=
  match truthy_field f with
  | Some s => s
  | None => old
  end.

Inductive jsnum : Type :=
| JNaN
| JInt (z : Z)
| JOther.

#[global] Instance jsnum_eq_dec : EqDecision jsnum.
Proof. solve_decision. Defined.

Definition num_truthy (n : jsnum) : bool :=
  match n with
  | JNaN => false
  | JInt z => negb (z =? 0)
  | JOther => true
  end.

(** A present number field other than [0]. *)
Definition truthy_number (f : option jsnum) : option jsnum :=
  match f with
  | Some n => if num_truthy n then Some n else None
  | None => None
  end.

(** *** [Number(string)] *)

Definition code (c : ascii) : Z := Z.of_nat (nat_of_ascii c).

Definition is_ws (c : ascii) : bool :=
  let n := code c in
  ((9 <=? n) && (n <=? 13)) || (n =? 32) || (n =? 160).

Definition digit_val (c : ascii) : option Z :=
  let n := code c in
  if (48 <=? n) && (n <=? 57) then Some (n - 48) else None.

Definition hex_val (c : ascii) : option Z :=
  let n := code c in
  if (48 <=? n) && (n <=? 57) then Some (n - 48)
  else if (97 <=? n) && (n <=? 102) then Some (n - 87)
  else if (65 <=? n) && (n <=? 70) then Some (n - 55)
  else None.

Fixpoint trim_left (s : string) : string :=
  match s with
  | String c s' => if is_ws c then trim_left s' else s
  | EmptyString => EmptyString
  end.

Definition trim (s : string) : string :=
  String.rev (trim_left (String.rev (trim_left s))).

(** Reads the longest prefix of decimal digits: the accumulated value,
    how many digits were read, and the rest. *)
Fixpoint take_digits (s : string) (acc : Z) (n : Z) : Z * Z * string :=
  match s with
  | String c s' =>
      match digit_val c with
      | Some d => take_digits s' (10 * acc + d) (n + 1)
      | None => (acc, n, s)
      end
  | EmptyString => (acc, n, s)
  end.

(** A whole string of digits in radix [r], at least one. *)
Fixpoint radix_digits (r : Z) (s : string) (acc : option Z) : option Z :=
  match s with
  | EmptyString => acc
  | String c s' =>
      match hex_val c with
      | Some d =>
          if d <? r then radix_digits r s' (Some (r * default 0 acc + d))
          else None
      | None => None
      end
  end.

(** The exponent part after [e] or [E]: an optional sign and digits up to
    the end of the string. *)
Definition exponent (s : string) : option Z :=
  let '(neg, ds) :=
    match s with
    | String "-" r => (true, r)
    | String "+" r => (false, r)
    | _ => (false, s)
    end in
  match take_digits ds 0 0 with
  | (v, n, EmptyString) =>
      if 0 <? n then Some (if neg then - v else v) else None
  | _ => None
  end.

(** [floor (log2 (n / d))], for [n] and [d] positive. *)
Definition floor_log2 (n d : Z) : Z :=
  let e := Z.log2 n - Z.log2 d in
  if (if 0 <=? e then d * 2 ^ e <=? n else d <=? n * 2 ^ (- e))
  then e else e - 1.

(** The double nearest to the rational [n / d], for [0 <= n] and
    [0 < d], ties to even.  The doubles are the numbers [M * 2^E] with
    [M < 2^53] and [-1074 <= E], below [2^1024]: [E] is the exponent
    of the doubles around [n / d], [M] is [n / (d * 2^E)] rounded to an
    integer, and a result of [2^1024] or more is [Infinity]. *)
Definition nearest_double (n d : Z) : jsnum :=
  if n =? 0 then JInt 0
  else
    let E := Z.max (floor_log2 n d - 52) (- 1074) in
    let N := if 0 <=? E then n else n * 2 ^ (- E) in
    let D := if 0 <=? E then d * 2 ^ E else d in
    let Q := N / D in
    let R := N mod D in
    let M :=
      if D <? 2 * R then Q + 1
      else if (2 * R =? D) && Z.odd Q then Q + 1
      else Q in
    if M =? 0 then JInt 0
    else if 0 <=? E then
      if 1024 <=? Z.log2 M + E then JOther else JInt (M * 2 ^ E)
    else if M mod 2 ^ (- E) =? 0 then JInt (M / 2 ^ (- E))
    else JOther.

(** The number [m * 10^e], for [0 <= m]. *)
Definition scaled (m e : Z) : jsnum :=
  if 0 <=? e then nearest_double (m * 10 ^ e) 1
  else nearest_double m (10 ^ (- e)).

Definition negate (n : jsnum) : jsnum :=
  match n with
  | JInt z => JInt (- z)
  | _ => n
  end.

(** [Infinity], or digits with an optional fraction and exponent. *)
Definition unsigned_decimal (s : string) : jsnum :=
  if String.eqb s "Infinity" then JOther
  else
    let '(i, ni, r1) := take_digits s 0 0 in
    let '(m, nf, r2) :=
      match r1 with
      | String "." r => take_digits r i 0
      | _ => (i, 0, r1)
      end in
    if ni + nf =? 0 then JNaN
    else
      match r2 with
      | EmptyString => scaled m (- nf)
      | String c r3 =>
          if (code c =? 101) || (code c =? 69) then
            match exponent r3 with
            | Some e => scaled m (e - nf)
            | None => JNaN
            end
          else JNaN
      end.

Definition StringToNumber (s : string) : jsnum :=
  match trim s with
  | EmptyString => JInt 0
  | String "0" (String p r) as t =>
      let radix :=
        if (code p =? 120) || (code p =? 88) then Some 16
        else if (code p =? 111) || (code p =? 79) then Some 8
        else if (code p =? 98) || (code p =? 66) then Some 2
        else None in
      match radix with
      | Some b =>
          match radix_digits b r None with
          | Some v => nearest_double v 1
          | None => JNaN
          end
      | None => unsigned_decimal t
      end
  | String "-" r => negate (unsigned_decimal r)
  | String "+" r => unsigned_decimal r
  | t => unsigned_decimal t
  end.

(** [Number(v)] for [v] a string or [undefined]. *)
Definition Number (v : option string) : jsnum :=
  match v with
  | Some s => StringToNumber s
  | None => JNaN
  end.

(** *** Arrays *)

Section arrays.
Context {A : Type} `{EqDecision A}.

(** [arr.includes(x)] *)
Definition includes (arr : list A) (x : A) : bool := bool_decide (x ∈ arr).

(** [arr.indexOf(x)]: the first index holding [x], or [-1]. *)
Fixpoint indexOf (arr : list A) (x : A) : Z :=
  match arr with
  | [] => -1
  | y :: arr' =>
      if decide (y = x) then 0
      else let i := indexOf arr' x in if i <? 0 then -1 else i + 1
  end.

(** [arr.splice(start, 1)]: a negative [start] counts from the end, and
    the element at the resulting index, when there is one, is removed. *)
Definition splice1 (arr : list A) (start : Z) : list A :=
  let len := Z.of_nat (List.length arr) in
  let from := if start <? 0 then Z.max (len + start) 0 else Z.min start len in
  delete (Z.to_nat from) arr.

(** [arr.filter(element => element !== x)] *)
Definition filter_ne (arr : list A) (x : A) : list A :=
  filter (λ element, element ≠ x) arr.

(** [arr.push(x)] *)
Definition push (arr : list A) (x : A) : list A := arr ++ [x].

End arrays.

(** [s.split('/')] *)
Fixpoint split (s : string) : list string :=
  match s with
  | EmptyString => [EmptyString]
  | String c s' =>
      if Ascii.eqb c "/" then EmptyString :: split s'
      else
        match split s' with
        | seg :: rest => String c seg :: rest
        | [] => [String c EmptyString]
        end
  end.

(** [url.split('/').filter(segment => segment)] *)
Definition pathSegments (url : string) : list string :=
  filter (λ segment, truthy segment = true) (split url).

(** The second path segment, [undefined] when there is none. *)
Definition segment1 (url : string) : option string :=
  pathSegments url !! 1%nat.

(** ** Data model *)

Module User.
Record t : Type := mk {
  username : string;
  articleIds : list Z;
  commentIds : list Z
}.
Definition set_articleIds (l : list Z) (u : t) : t :=
  mk (username u) l (commentIds u).
Definition set_commentIds (l : list Z) (u : t) : t :=
  mk (username u) (articleIds u) l.
End User.

Module Article.
(** [comments] is the field that [getArticle] writes: absent until then,
    afterwards an array of references to comment objects.  A comment
    object is created once, by [createComment], with an id of its own, so
    a reference to it is modelled by that id. *)
Record t : Type := mk {
  id : Z;
  title : string;
  url : string;
  username : string;
  commentIds : list Z;
  upvotedBy : list jsname;
  downvotedBy : list jsname;
  comments : option (list (slot Z))
}.
Definition set_title (s : string) (a : t) : t :=
  mk (id a) s (url a) (username a) (commentIds a) (upvotedBy a) (downvotedBy a) (comments a).
Definition set_url (s : string) (a : t) : t :=
  mk (id a) (title a) s (username a) (commentIds a) (upvotedBy a) (downvotedBy a) (comments a).
Definition set_commentIds (l : list Z) (a : t) : t :=
  mk (id a) (title a) (url a) (username a) l (upvotedBy a) (downvotedBy a) (comments a).
Definition set_upvotedBy (l : list jsname) (a : t) : t :=
  mk (id a) (title a) (url a) (username a) (commentIds a) l (downvotedBy a) (comments a).
Definition set_downvotedBy (l : list jsname) (a : t) : t :=
  mk (id a) (title a) (url a) (username a) (commentIds a) (upvotedBy a) l (comments a).
Definition set_comments (l : list (slot Z)) (a : t) : t :=
  mk (id a) (title a) (url a) (username a) (commentIds a) (upvotedBy a) (downvotedBy a) (Some l).
End Article.

Module Comment.
Record t : Type := mk {
  id : Z;
  body : string;
  username : string;
  articleId : Z;
  upvotedBy : list jsname;
  downvotedBy : list jsname
}.
Definition set_body (s : string) (c : t) : t :=
  mk (id c) s (username c) (articleId c) (upvotedBy c) (downvotedBy c).
Definition set_upvotedBy (l : list jsname) (c : t) : t :=
  mk (id c) (body c) (username c) (articleId c) l (downvotedBy c).
Definition set_downvotedBy (l : list jsname) (c : t) : t :=
  mk (id c) (body c) (username c) (articleId c) (upvotedBy c) l.
End Comment.

Record Database : Type := mkDatabase {
  users : gmap string User.t;
  articles : gmap Z (option Article.t);
  nextArticleId : Z;
  comments : gmap Z (option Comment.t);
  nextCommentId : Z
}.

(** The store the module starts with. *)
Definition database : Database :=
  mkDatabase ∅ ∅ 1 ∅ 1.

Definition set_users (m : gmap string User.t) (db : Database) : Database :=
  mkDatabase m (articles db) (nextArticleId db) (comments db) (nextCommentId db).
Definition set_articles (m : gmap Z (option Article.t)) (db : Database) : Database :=
  mkDatabase (users db) m (nextArticleId db) (comments db) (nextCommentId db).
Definition set_nextArticleId (n : Z) (db : Database) : Database :=
  mkDatabase (users db) (articles db) n (comments db) (nextCommentId db).
Definition set_comments (m : gmap Z (option Comment.t)) (db : Database) : Database :=
  mkDatabase (users db) (articles db) (nextArticleId db) m (nextCommentId db).
Definition set_nextCommentId (n : Z) (db : Database) : Database :=
  mkDatabase (users db) (articles db) (nextArticleId db) (comments db) n.

(** [m[k]] for a number [k]: only integer keys are ever written. *)
Definition read {A : Type} (m : gmap Z (option A)) (k : jsnum) : slot A :=
  match k with
  | JInt z =>
      match m !! z with
      | None => undefined
      | Some None => null
      | Some (Some a) => obj a
      end
  | _ => undefined
  end.

(** The object a truthy slot holds. *)
Definition live {A : Type} (s : slot A) : option A :=
  match s with
  | obj a => Some a
  | _ => None
  end.

(** The user that [database.users] holds as its own property under the
    key that [v] converts to. *)
Definition read_user (m : gmap string User.t) (v : jsname) : option User.t :=
  m !! ToString v.

(** The property names of [Object.prototype], which every object literal
    inherits. *)
Definition prototype_names : list string :=
  [ "constructor"; "__defineGetter__"; "__defineSetter__"; "hasOwnProperty";
    "__lookupGetter__"; "__lookupSetter__"; "isPrototypeOf";
    "propertyIsEnumerable"; "toString"; "valueOf"; "__proto__";
    "toLocaleString" ].

Definition inherited (key : string) : bool :=
  bool_decide (key ∈ prototype_names).

(** What [database.users[v]] yields: a user of the store, a value
    inherited from [Object.prototype] (a function, or the prototype
    itself), or [undefined]. *)
Inductive looked_up : Type :=
| own_user (user : User.t)
| from_prototype
| no_user.

(** [database.users[v]] *)
Definition users_at (m : gmap string User.t) (v : jsname) : looked_up :=
  match read_user m v with
  | Some user => own_user user
  | None => if inherited (ToString v) then from_prototype else no_user
  end.

(** Truthiness of [database.users[v]]: users and inherited values are
    objects. *)
Definition known (l : looked_up) : bool :=
  match l with
  | no_user => false
  | _ => true
  end.

(** ** Vote engine *)

(** What [upvote] and [downvote] need of an item: its two vote arrays. *)
Class Votable (A : Type) : Type := {
  upvotedBy : A → list jsname;
  downvotedBy : A → list jsname;
  set_upvotedBy : list jsname → A → A;
  set_downvotedBy : list jsname → A → A;
  up_set_up : ∀ l e, upvotedBy (set_upvotedBy l e) = l;
  down_set_up : ∀ l e, downvotedBy (set_upvotedBy l e) = downvotedBy e;
  up_set_down : ∀ l e, upvotedBy (set_downvotedBy l e) = upvotedBy e;
  down_set_down : ∀ l e, downvotedBy (set_downvotedBy l e) = l
}.

#[global, refine] Instance Article_Votable : Votable Article.t := {|
  upvotedBy := Article.upvotedBy;
  downvotedBy := Article.downvotedBy;
  set_upvotedBy := Article.set_upvotedBy;
  set_downvotedBy := Article.set_downvotedBy
|}.
Proof. all: reflexivity. Defined.

#[global, refine] Instance Comment_Votable : Votable Comment.t := {|
  upvotedBy := Comment.upvotedBy;
  downvotedBy := Comment.downvotedBy;
  set_upvotedBy := Comment.set_upvotedBy;
  set_downvotedBy := Comment.set_downvotedBy
|}.
Proof. all: reflexivity. Defined.

Section vote.
Context {A : Type} `{Votable A}.

Definition upvote (item : A) (username : jsname) : A :=
  let item :=
    if includes (downvotedBy item) username
    then set_downvotedBy
           (splice1 (downvotedBy item) (indexOf (downvotedBy item) username)) item
    else item in
  if includes (upvotedBy item) username then item
  else set_upvotedBy (push (upvotedBy item) username) item.

Definition downvote (item : A) (username : jsname) : A :=
  let item :=
    if includes (upvotedBy item) username
    then set_upvotedBy
           (splice1 (upvotedBy item) (indexOf (upvotedBy item) username)) item
    else item in
  if includes (downvotedBy item) username then item
  else set_downvotedBy (push (downvotedBy item) username) item.

End vote.

(** ** Requests, responses, outcomes *)

Module RequestArticle.
Record t : Type := mk {
  title : option string;
  url : option string;
  username : option string
}.
End RequestArticle.

Module RequestComment.
Record t : Type := mk {
  body : option string;
  username : option string;
  articleId : option jsnum
}.
End RequestComment.

Module Body.
Record t : Type := mk {
  username : jsname;
  article : option RequestArticle.t;
  comment : option RequestComment.t
}.
End Body.

Module Request.
(** [{body: body}], where [body] is [null] ([None]) or an object. *)
Record t : Type := mk { body : option Body.t }.
End Request.

(** [body_inherited key] is [{user: v}] for the value [v] that
    [Object.prototype] holds under [key]. *)
Inductive ResponseBody : Type :=
| body_user (user : User.t)
| body_inherited (key : string)
| body_user_full (user : User.t) (userArticles : list (slot Article.t))
    (userComments : list (slot Comment.t))
| body_articles (articles : list Article.t)
| body_article (article : Article.t)
| body_comment (comment : Comment.t).

Module Response.
Record t : Type := mk { status : Z; body : option ResponseBody }.
End Response.

Inductive outcome (A : Type) : Type :=
| Ok (a : A)
| Throw.
Arguments Ok {A} a.
Arguments Throw {A}.

#[global] Instance outcome_ret : MRet outcome := λ A a, Ok a.
#[global] Instance outcome_bind : MBind outcome := λ A B f c,
  match c with
  | Ok a => f a
  | Throw => Throw
  end.

Definition handler : Type :=
  string → Request.t → Database → outcome (Database * Response.t).

(** [request.body && request.body.username] *)
Definition request_username (request : Request.t) : jsname :=
  match Request.body request with
  | None => NNull
  | Some b => Body.username b
  end.

(** The object stored under a number, with the integer key it is stored
    under: what [m[k]] is when it is truthy. *)
Definition live_at {A : Type} (m : gmap Z (option A)) (k : jsnum) : option (Z * A) :=
  match k with
  | JInt z =>
      match m !! z with
      | Some (Some a) => Some (z, a)
      | _ => None
      end
  | _ => None
  end.

Definition reference (s : slot Comment.t) : slot Z :=
  match s with
  | undefined => undefined
  | null => null
  | obj c => obj (Comment.id c)
  end.

(** ** Handlers *)

(** A value inherited from [Object.prototype] passes the test of
    [database.users[username]] but has no [commentIds]: the [push] on
    it is a [TypeError], raised after the counter moved and the comment
    was stored. *)
Definition createComment : handler := λ url request database,
  let valid :=
    requestComment ← Request.body request ≫= Body.comment;
    body ← truthy_field (RequestComment.body requestComment);
    username ← truthy_field (RequestComment.username requestComment);
    _ ← (if known (users_at (users database) (NStr username))
         then Some () else None);
    articleId ← truthy_number (RequestComment.articleId requestComment);
    '(key, article) ← live_at (articles database) articleId;
    Some (body, username, key, article) in
  match valid with
  | Some (body, username, articleId, article) =>
      let comment :=
        Comment.mk (nextCommentId database) body username articleId [] [] in
      let database := set_nextCommentId (nextCommentId database + 1) database in
      let database :=
        set_comments (<[Comment.id comment := Some comment]> (comments database))
          database in
      match users_at (users database) (NStr username) with
      | own_user user =>
          let database :=
            set_users
              (<[username :=
                   User.set_commentIds
                     (push (User.commentIds user) (Comment.id comment)) user]>
                 (users database)) database in
          let database :=
            set_articles
              (<[articleId :=
                   Some (Article.set_commentIds
                           (push (Article.commentIds article) (Comment.id comment))
                           article)]>
                 (articles database)) database in
          Ok (database, Response.mk 201 (Some (body_comment comment)))
      | _ => Throw
      end
  | None => Ok (database, Response.mk 400 None)
  end.

Definition updateComment : handler := λ url request database,
  let id := Number (segment1 url) in
  let savedComment := live_at (comments database) id in
  let requestComment := Request.body request ≫= Body.comment in
  match num_truthy id, requestComment with
  | true, Some requestComment =>
      match savedComment with
      | None => Ok (database, Response.mk 404 None)
      | Some (key, savedComment) =>
          let savedComment :=
            Comment.set_body
              (or_else (RequestComment.body requestComment) (Comment.body savedComment))
              savedComment in
          Ok (set_comments (<[key := Some savedComment]> (comments database)) database,
              Response.mk 200 (Some (body_comment savedComment)))
      end
  | _, _ => Ok (database, Response.mk 400 None)
  end.

Definition deleteComment : handler := λ url request database,
  let id := Number (segment1 url) in
  match live_at (comments database) id with
  | Some (key, savedComment) =>
      match users database !! Comment.username savedComment,
            read (articles database) (JInt (Comment.articleId savedComment)) with
      | Some savedUser, obj savedArticle =>
          let database :=
            set_users
              (<[Comment.username savedComment :=
                   User.set_commentIds (filter_ne (User.commentIds savedUser) key) savedUser]>
                 (users database)) database in
          let database :=
            set_articles
              (<[Comment.articleId savedComment :=
                   Some (Article.set_commentIds
                           (filter_ne (Article.commentIds savedArticle) key) savedArticle)]>
                 (articles database)) database in
          let database := set_comments (<[key := None]> (comments database)) database in
          Ok (database, Response.mk 204 None)
      | _, _ => Throw
      end
  | None => Ok (database, Response.mk 404 None)
  end.

(** The vote handlers only test [database.users[username]]: an
    inherited value is accepted like a user. *)
Definition upvoteComment : handler := λ url request database,
  let id := Number (segment1 url) in
  let username := request_username request in
  match live_at (comments database) id, known (users_at (users database) username) with
  | Some (key, savedComment), true =>
      let savedComment := upvote savedComment username in
      Ok (set_comments (<[key := Some savedComment]> (comments database)) database,
          Response.mk 200 (Some (body_comment savedComment)))
  | _, _ => Ok (database, Response.mk 400 None)
  end.

Definition downvoteComment : handler := λ url request database,
  let id := Number (segment1 url) in
  let username := request_username request in
  match live_at (comments database) id, known (users_at (users database) username) with
  | Some (key, savedComment), true =>
      let savedComment := downvote savedComment username in
      Ok (set_comments (<[key := Some savedComment]> (comments database)) database,
          Response.mk 200 (Some (body_comment savedComment)))
  | _, _ => Ok (database, Response.mk 400 None)
  end.

(** An inherited value has no [articleIds]: the [map] on it is a
    [TypeError]. *)
Definition getUser : handler := λ url request database,
  let username := segment1 url in
  let user :=
    users_at (users database)
      (match username with Some s => NStr s | None => NUndefined end) in
  match user with
  | own_user user =>
      let userArticles :=
        map (λ articleId, read (articles database) (JInt articleId))
          (User.articleIds user) in
      let userComments :=
        map (λ commentId, read (comments database) (JInt commentId))
          (User.commentIds user) in
      Ok (database, Response.mk 200 (Some (body_user_full user userArticles userComments)))
  | from_prototype => Throw
  | no_user =>
      match username with
      | Some _ => Ok (database, Response.mk 404 None)
      | None => Ok (database, Response.mk 400 None)
      end
  end.

(** An inherited value is answered as the user, and nothing is
    stored. *)
Definition getOrCreateUser : handler := λ url request database,
  let username := request_username request in
  match users_at (users database) username with
  | own_user user => Ok (database, Response.mk 200 (Some (body_user user)))
  | from_prototype =>
      Ok (database, Response.mk 200 (Some (body_inherited (ToString username))))
  | no_user =>
      if name_truthy username then
        let user := User.mk (ToString username) [] [] in
        Ok (set_users (<[ToString username := user]> (users database)) database,
            Response.mk 201 (Some (body_user user)))
      else Ok (database, Response.mk 400 None)
  end.

(** [arr.sort(compare)]: the stable ordering of [arr] by [compare]. *)
Section sort.
Context {A : Type} (compare : A → A → Z).

Fixpoint insert_sorted (x : A) (arr : list A) : list A :=
  match arr with
  | [] => [x]
  | y :: arr' =>
      if compare x y <=? 0 then x :: arr else y :: insert_sorted x arr'
  end.

Definition sort (arr : list A) : list A := foldr insert_sorted [] arr.

End sort.

(** [Object.keys(m)]: integer keys come in ascending order. *)
Definition keys {A : Type} (m : gmap Z A) : list Z :=
  sort (λ k1 k2, k1 - k2) (map fst (map_to_list m)).

Definition getArticles : handler := λ url request database,
  Ok (database,
      Response.mk 200
        (Some (body_articles
           (sort (λ article1 article2, Article.id article2 - Article.id article1)
              (omap live
                 (map (λ articleId, read (articles database) (JInt articleId))
                    (keys (articles database)))))))).

Definition getArticle : handler := λ url request database,
  let id := Number (segment1 url) in
  match live_at (articles database) id with
  | Some (key, article) =>
      let article :=
        Article.set_comments
          (map (λ commentId, reference (read (comments database) (JInt commentId)))
             (Article.commentIds article)) article in
      Ok (set_articles (<[key := Some article]> (articles database)) database,
          Response.mk 200 (Some (body_article article)))
  | None =>
      if num_truthy id then Ok (database, Response.mk 404 None)
      else Ok (database, Response.mk 400 None)
  end.

(** As in [createComment], the [push] on the [articleIds] of an
    inherited value is a [TypeError], raised after the counter moved and
    the article was stored. *)
Definition createArticle : handler := λ url request database,
  let valid :=
    requestArticle ← Request.body request ≫= Body.article;
    title ← truthy_field (RequestArticle.title requestArticle);
    url ← truthy_field (RequestArticle.url requestArticle);
    username ← truthy_field (RequestArticle.username requestArticle);
    _ ← (if known (users_at (users database) (NStr username))
         then Some () else None);
    Some (title, url, username) in
  match valid with
  | Some (title, url, username) =>
      let article :=
        Article.mk (nextArticleId database) title url username [] [] [] None in
      let database := set_nextArticleId (nextArticleId database + 1) database in
      let database :=
        set_articles (<[Article.id article := Some article]> (articles database))
          database in
      match users_at (users database) (NStr username) with
      | own_user user =>
          let database :=
            set_users
              (<[username :=
                   User.set_articleIds
                     (push (User.articleIds user) (Article.id article)) user]>
                 (users database)) database in
          Ok (database, Response.mk 201 (Some (body_article article)))
      | _ => Throw
      end
  | None => Ok (database, Response.mk 400 None)
  end.

Definition updateArticle : handler := λ url request database,
  let id := Number (segment1 url) in
  let savedArticle := live_at (articles database) id in
  let requestArticle := Request.body request ≫= Body.article in
  match num_truthy id, requestArticle with
  | true, Some requestArticle =>
      match savedArticle with
      | None => Ok (database, Response.mk 404 None)
      | Some (key, savedArticle) =>
          let savedArticle :=
            Article.set_title
              (or_else (RequestArticle.title requestArticle) (Article.title savedArticle))
              savedArticle in
          let savedArticle :=
            Article.set_url
              (or_else (RequestArticle.url requestArticle) (Article.url savedArticle))
              savedArticle in
          Ok (set_articles (<[key := Some savedArticle]> (articles database)) database,
              Response.mk 200 (Some (body_article savedArticle)))
      end
  | _, _ => Ok (database, Response.mk 400 None)
  end.

(** The body of the [forEach] of [deleteArticle], for the article [id]. *)
Definition cascade_step (id : Z) (database : Database) (commentId : Z)
  : outcome Database :=
  match read (comments database) (JInt commentId) with
  | obj comment =>
      let database :=
        set_comments (<[commentId := None]> (comments database)) database in
      match users database !! Comment.username comment with
      | Some user =>
          let userCommentIds := User.commentIds user in
          Ok (set_users
                (<[Comment.username comment :=
                     User.set_commentIds
                       (splice1 userCommentIds (indexOf userCommentIds id)) user]>
                   (users database)) database)
      | None => Throw
      end
  | _ => Throw
  end.

Fixpoint cascade (id : Z) (commentIds : list Z) (database : Database)
  : outcome Database :=
  match commentIds with
  | [] => Ok database
  | commentId :: rest =>
      database ← cascade_step id database commentId;
      cascade id rest database
  end.

Definition deleteArticle : handler := λ url request database,
  let id := Number (segment1 url) in
  match live_at (articles database) id with
  | Some (key, savedArticle) =>
      let database := set_articles (<[key := None]> (articles database)) database in
      database ← cascade key (Article.commentIds savedArticle) database;
      match users database !! Article.username savedArticle with
      | Some user =>
          let userArticleIds := User.articleIds user in
          Ok (set_users
                (<[Article.username savedArticle :=
                     User.set_articleIds
                       (splice1 userArticleIds (indexOf userArticleIds key)) user]>
                   (users database)) database,
              Response.mk 204 None)
      | None => Throw
      end
  | None => Ok (database, Response.mk 400 None)
  end.

Definition upvoteArticle : handler := λ url request database,
  let id := Number (segment1 url) in
  let username := request_username request in
  match live_at (articles database) id, known (users_at (users database) username) with
  | Some (key, savedArticle), true =>
      let savedArticle := upvote savedArticle username in
      Ok (set_articles (<[key := Some savedArticle]> (articles database)) database,
          Response.mk 200 (Some (body_article savedArticle)))
  | _, _ => Ok (database, Response.mk 400 None)
  end.

Definition downvoteArticle : handler := λ url request database,
  let id := Number (segment1 url) in
  let username := request_username request in
  match live_at (articles database) id, known (users_at (users database) username) with
  | Some (key, savedArticle), true =>
      let savedArticle := downvote savedArticle username in
      Ok (set_articles (<[key := Some savedArticle]> (articles database)) database,
          Response.mk 200 (Some (body_article savedArticle)))
  | _, _ => Ok (database, Response.mk 400 None)
  end.

(** ** Route resolver and route table *)

(** [`${v}`] for a segment that may be missing. *)
Definition template (v : option string) : string :=
  match v with
  | Some s => s
  | None => "undefined"
  end.

(** [v === lit] *)
Definition is_literal (v : option string) (lit : string) : bool :=
  match v with
  | Some s => String.eqb s lit
  | None => false
  end.

Definition getRequestRoute (url : string) : string :=
  let pathSegments := pathSegments url in
  if (length pathSegments =? 1)%nat then
    "/" +:+ template (pathSegments !! 0%nat)
  else if is_literal (pathSegments !! 2%nat) "upvote"
          || is_literal (pathSegments !! 2%nat) "downvote" then
    "/" +:+ template (pathSegments !! 0%nat) +:+ "/:id/"
      +:+ template (pathSegments !! 2%nat)
  else if is_literal (pathSegments !! 0%nat) "users" then
    "/" +:+ template (pathSegments !! 0%nat) +:+ "/:username"
  else
    "/" +:+ template (pathSegments !! 0%nat) +:+ "/:id".

Inductive Handler : Type :=
| GetOrCreateUser | GetUser
| GetArticles | CreateArticle | GetArticle | UpdateArticle | DeleteArticle
| UpvoteArticle | DownvoteArticle
| CreateComment | UpdateComment | DeleteComment
| UpvoteComment | DownvoteComment.

Definition call (h : Handler) : handler :=
  match h with
  | GetOrCreateUser => getOrCreateUser
  | GetUser => getUser
  | GetArticles => getArticles
  | CreateArticle => createArticle
  | GetArticle => getArticle
  | UpdateArticle => updateArticle
  | DeleteArticle => deleteArticle
  | UpvoteArticle => upvoteArticle
  | DownvoteArticle => downvoteArticle
  | CreateComment => createComment
  | UpdateComment => updateComment
  | DeleteComment => deleteComment
  | UpvoteComment => upvoteComment
  | DownvoteComment => downvoteComment
  end.

Definition routes : list (string * list (string * Handler)) :=
  [ ("/users", [("POST", GetOrCreateUser)]);
    ("/users/:username", [("GET", GetUser)]);
    ("/articles", [("GET", GetArticles); ("POST", CreateArticle)]);
    ("/articles/:id",
       [("GET", GetArticle); ("PUT", UpdateArticle); ("DELETE", DeleteArticle)]);
    ("/articles/:id/upvote", [("PUT", UpvoteArticle)]);
    ("/articles/:id/downvote", [("PUT", DownvoteArticle)]);
    ("/comments", [("POST", CreateComment)]);
    ("/comments/:id", [("PUT", UpdateComment); ("DELETE", DeleteComment)]);
    ("/comments/:id/upvote", [("PUT", UpvoteComment)]);
    ("/comments/:id/downvote", [("PUT", DownvoteComment)]) ].

(** [table[key]] on one of the two levels of [routes]. *)
Fixpoint property {V : Type} (table : list (string * V)) (key : string) : option V :=
  match table with
  | [] => None
  | (k, v) :: table' => if String.eqb k key then Some v else property table' key
  end.

(** [requestHandler], from the parsed body to the response; the headers
    are left out.  [GET] and [DELETE] handlers get no request, and read
    none.  [method] is a request method, an upper-case name: the keys of
    the route table are looked up as they are written there. *)
Definition requestHandler (method url : string) (body : option Body.t)
    (database : Database) : outcome (Database * Response.t) :=
  let route := getRequestRoute url in
  if String.eqb method "OPTIONS" then Ok (database, Response.mk 200 None)
  else
    match property routes route ≫= λ methods, property methods method with
    | None => Ok (database, Response.mk 400 None)
    | Some h =>
        if String.eqb method "GET" || String.eqb method "DELETE"
        then call h url (Request.mk None) database
        else call h url (Request.mk body) database
    end.

(** ** Runs *)

Record Call : Type := mkCall {
  call_handler : Handler;
  call_url : string;
  call_request : Request.t
}.

Definition step (c : Call) (database : Database)
  : outcome (Database * Response.t) :=
  call (call_handler c) (call_url c) (call_request c) database.

(** The calls of a run, one after the other, with the response of each. *)
Fixpoint run (calls : list Call) (database : Database)
  : outcome (Database * list (Handler * Response.t)) :=
  match calls with
  | [] => Ok (database, [])
  | c :: calls' =>
      '(database, response) ← step c database;
      '(database, trace) ← run calls' database;
      Ok (database, (call_handler c, response) :: trace)
  end.

(** The stores the handlers can produce from the initial one. *)
Inductive reachable : Database → Prop :=
| reachable_init : reachable database
| reachable_step db c db' response :
    reachable db → step c db = Ok (db', response) → reachable db'.

(** The ids that the successful [createArticle] calls of a trace gave. *)
Definition created_article_ids (trace : list (Handler * Response.t)) : list Z :=
  omap (λ '(h, response),
          match h, Response.body response with
          | CreateArticle, Some (body_article article) => Some (Article.id article)
          | _, _ => None
          end) trace.

Definition created_comment_ids (trace : list (Handler * Response.t)) : list Z :=
  omap (λ '(h, response),
          match h, Response.body response with
          | CreateComment, Some (body_comment comment) => Some (Comment.id comment)
          | _, _ => None
          end) trace.

(** ** The requests of the examples *)

Definition post_user (username : string) : Call :=
  mkCall GetOrCreateUser "/users"
    (Request.mk (Some (Body.mk (NStr username) None None))).

Definition post_article (title url username : string) : Call :=
  mkCall CreateArticle "/articles"
    (Request.mk (Some (Body.mk NUndefined
       (Some (RequestArticle.mk (Some title) (Some url) (Some username))) None))).

Definition post_comment (body username : string) (articleId : Z) : Call :=
  mkCall CreateComment "/comments"
    (Request.mk (Some (Body.mk NUndefined None
       (Some (RequestComment.mk (Some body) (Some username) (Some (JInt articleId))))))).

Definition put_vote (h : Handler) (url username : string) : Call :=
  mkCall h url (Request.mk (Some (Body.mk (NStr username) None None))).

Definition get (h : Handler) (url : string) : Call :=
  mkCall h url (Request.mk None).

(** The store of a run that did not throw. *)
Definition store_after (calls : list Call) : option Database :=
  match run calls database with
  | Ok (db, _) => Some db
  | Throw => None
  end.

Definition statuses (calls : list Call) : option (list Z) :=
  match run calls database with
  | Ok (_, trace) => Some (map (λ e, Response.status e.2) trace)
  | Throw => None
  end.

(** ** Predicates of the properties *)

(** The array without the first [x]: what [splice] at [indexOf] leaves
    when [x] is there. *)
Fixpoint remove_first {A : Type} `{EqDecision A} (x : A) (arr : list A) : list A :=
  match arr with
  | [] => []
  | y :: arr' => if decide (y = x) then arr' else y :: remove_first x arr'
  end.

(** I3 on one entity: no username twice in a vote array, none in both. *)
Definition vote_ok {A : Type} `{Votable A} (e : A) : Prop :=
  NoDup (upvotedBy e) ∧ NoDup (downvotedBy e)
  ∧ ∀ v, v ∈ upvotedBy e → v ∉ downvotedBy e.

(** Votes of one username on one item: a second [upvote] or [downvote]
    changes nothing, and a vote followed by the opposite vote never
    leaves the username in both arrays. *)
Definition vote_laws {A : Type} `{Votable A} (e : A) (u : jsname) : Prop :=
  upvote (upvote e u) u = upvote e u
  ∧ downvote (downvote e u) u = downvote e u
  ∧ ¬ (u ∈ upvotedBy (downvote (upvote e u) u)
       ∧ u ∈ downvotedBy (downvote (upvote e u) u))
  ∧ ¬ (u ∈ upvotedBy (upvote (downvote e u) u)
       ∧ u ∈ downvotedBy (upvote (downvote e u) u)).

(** I3 on every article and comment of the store. *)
Definition votes_ok (db : Database) : Prop :=
  (∀ k a, articles db !! k = Some (Some a) → vote_ok a)
  ∧ (∀ k c, comments db !! k = Some (Some c) → vote_ok c).

(** I3 on the entity a response carries. *)
Definition response_votes_ok (response : Response.t) : Prop :=
  match Response.body response with
  | Some (body_article a) => vote_ok a
  | Some (body_comment c) => vote_ok c
  | _ => True
  end.

(** Keys and counters: every key written so far is a positive integer
    below the counter, and a record is stored under its own id. *)
Definition ids_ok (db : Database) : Prop :=
  1 ≤ nextArticleId db ∧ 1 ≤ nextCommentId db
  ∧ (∀ k x, articles db !! k = Some x → 1 ≤ k < nextArticleId db)
  ∧ (∀ k a, articles db !! k = Some (Some a) → Article.id a = k)
  ∧ (∀ k x, comments db !! k = Some x → 1 ≤ k < nextCommentId db)
  ∧ (∀ k c, comments db !! k = Some (Some c) → Comment.id c = k).

(** What one step does to the counters and to the ids it hands out. *)
Definition counters_step (db : Database) (h : Handler) (response : Response.t)
    (db' : Database) : Prop :=
  (created_article_ids [(h, response)] = []
     ∧ nextArticleId db' = nextArticleId db
   ∨ created_article_ids [(h, response)] = [nextArticleId db]
     ∧ nextArticleId db' = nextArticleId db + 1)
  ∧ (created_comment_ids [(h, response)] = []
       ∧ nextCommentId db' = nextCommentId db
     ∨ created_comment_ids [(h, response)] = [nextCommentId db]
       ∧ nextCommentId db' = nextCommentId db + 1).

(** ** Stores and items of the examples *)

Definition voted_article : Article.t :=
  Article.mk 1 "T" "http://x" "alice" [] [NStr "alice"] [NStr "bob"] None.

Definition one_user : Database :=
  mkDatabase {["alice" := User.mk "alice" [] []]} ∅ 1 ∅ 1.

(** The store after [alice] wrote one article. *)
Definition one_article : Database :=
  mkDatabase {["alice" := User.mk "alice" [1] []]}
    {[1 := Some (Article.mk 1 "T" "http://x" "alice" [] [] [] None)]} 2 ∅ 1.

Definition create_delete_create : list Call :=
  [post_user "alice"; post_article "A" "http://a" "alice";
   post_article "B" "http://b" "alice"; get DeleteArticle "/articles/2";
   post_article "C" "http://c" "alice"].

Definition create_delete_create_trace : list (Handler * Response.t) :=
  [(GetOrCreateUser, Response.mk 201 (Some (body_user (User.mk "alice" [] []))));
   (CreateArticle, Response.mk 201
      (Some (body_article (Article.mk 1 "A" "http://a" "alice" [] [] [] None))));
   (CreateArticle, Response.mk 201
      (Some (body_article (Article.mk 2 "B" "http://b" "alice" [] [] [] None))));
   (DeleteArticle, Response.mk 204 None);
   (CreateArticle, Response.mk 201
      (Some (body_article (Article.mk 3 "C" "http://c" "alice" [] [] [] None))))].

(** The store after [create_delete_create]. *)
Definition two_live_one_deleted : Database :=
  mkDatabase {["alice" := User.mk "alice" [1; 3] []]}
    (<[3 := Some (Article.mk 3 "C" "http://c" "alice" [] [] [] None)]>
       (<[2 := None]>
          {[1 := Some (Article.mk 1 "A" "http://a" "alice" [] [] [] None)]}))
    4 ∅ 1.

(** Whether a string holds the separator of paths. *)
Fixpoint has_slash (s : string) : bool :=
  match s with
  | EmptyString => false
  | String c s' => Ascii.eqb c "/" || has_slash s'
  end.

(** Two stores that differ at most in the article under [k]. *)
Definition same_but_article (k : Z) (db db' : Database) : Prop :=
  users db' = users db
  ∧ comments db' = comments db
  ∧ nextArticleId db' = nextArticleId db
  ∧ nextCommentId db' = nextCommentId db
  ∧ ∀ k', k' ≠ k → articles db' !! k' = articles db !! k'.

(** Two stores that differ at most in the comment under [k]. *)
Definition same_but_comment (k : Z) (db db' : Database) : Prop :=
  users db' = users db
  ∧ articles db' = articles db
  ∧ nextArticleId db' = nextArticleId db
  ∧ nextCommentId db' = nextCommentId db
  ∧ ∀ k', k' ≠ k → comments db' !! k' = comments db !! k'.

(** Two articles that differ at most in their vote arrays. *)
Definition article_same_but_votes (a a' : Article.t) : Prop :=
  Article.id a' = Article.id a
  ∧ Article.title a' = Article.title a
  ∧ Article.url a' = Article.url a
  ∧ Article.username a' = Article.username a
  ∧ Article.commentIds a' = Article.commentIds a
  ∧ Article.comments a' = Article.comments a.

Definition comment_same_but_votes (c c' : Comment.t) : Prop :=
  Comment.id c' = Comment.id c
  ∧ Comment.body c' = Comment.body c
  ∧ Comment.username c' = Comment.username c
  ∧ Comment.articleId c' = Comment.articleId c.

(** Two articles that differ at most in [title] and [url]. *)
Definition article_same_but_text (a a' : Article.t) : Prop :=
  Article.id a' = Article.id a
  ∧ Article.username a' = Article.username a
  ∧ Article.commentIds a' = Article.commentIds a
  ∧ Article.upvotedBy a' = Article.upvotedBy a
  ∧ Article.downvotedBy a' = Article.downvotedBy a
  ∧ Article.comments a' = Article.comments a.

(** Two articles that differ at most in the [comments] field. *)
Definition article_same_but_comments (a a' : Article.t) : Prop :=
  Article.id a' = Article.id a
  ∧ Article.title a' = Article.title a
  ∧ Article.url a' = Article.url a
  ∧ Article.username a' = Article.username a
  ∧ Article.commentIds a' = Article.commentIds a
  ∧ Article.upvotedBy a' = Article.upvotedBy a
  ∧ Article.downvotedBy a' = Article.downvotedBy a.

(** One user, two articles, a comment on each: comment 1 on article 2,
    comment 2 on article 1. *)
Definition crossed_comments : list Call :=
  [post_user "alice"; post_article "A" "http://a" "alice";
   post_article "B" "http://b" "alice"; post_comment "first" "alice" 2;
   post_comment "second" "alice" 1].

(** The store after [crossed_comments]. *)
Definition crossed_store : Database :=
  mkDatabase {["alice" := User.mk "alice" [1; 2] [1; 2]]}
    (<[2 := Some (Article.mk 2 "B" "http://b" "alice" [1] [] [] None)]>
       {[1 := Some (Article.mk 1 "A" "http://a" "alice" [2] [] [] None)]})
    3
    (<[2 := Some (Comment.mk 2 "second" "alice" 1 [] [])]>
       {[1 := Some (Comment.mk 1 "first" "alice" 2 [] [])]})
    3.

Definition patch_title (title : string) : Request.t :=
  Request.mk (Some (Body.mk NUndefined
    (Some (RequestArticle.mk (Some title) (Some "") None)) None)).

(** References between records: the author of a live article or comment
    exists; the [commentIds] of a live article are distinct and are the
    ids of live comments on that article; a live comment is on a live
    article that lists it. *)
Definition refs_ok (db : Database) : Prop :=
  (∀ k a, articles db !! k = Some (Some a) →
     is_Some (users db !! Article.username a) ∧ NoDup (Article.commentIds a))
  ∧ (∀ k a commentId,
       articles db !! k = Some (Some a) → commentId ∈ Article.commentIds a →
       ∃ c, comments db !! commentId = Some (Some c) ∧ Comment.articleId c = k)
  ∧ (∀ k c, comments db !! k = Some (Some c) →
       is_Some (users db !! Comment.username c)
       ∧ ∃ a, articles db !! Comment.articleId c = Some (Some a)
              ∧ k ∈ Article.commentIds a).

(** Two readings of an article key that agree on what [refs_ok] looks
    at: both absent, both [null], or both live with the same author and
    the same [commentIds]. *)
Definition article_refs_agree (x y : option (option Article.t)) : Prop :=
  match x, y with
  | Some (Some a), Some (Some a') =>
      Article.username a' = Article.username a
      ∧ Article.commentIds a' = Article.commentIds a
  | Some None, Some None => True
  | None, None => True
  | _, _ => False
  end.

Definition comment_refs_agree (x y : option (option Comment.t)) : Prop :=
  match x, y with
  | Some (Some c), Some (Some c') =>
      Comment.username c' = Comment.username c
      ∧ Comment.articleId c' = Comment.articleId c
  | Some None, Some None => True
  | None, None => True
  | _, _ => False
  end.

(** ** Predicates of the further properties *)

(** Users and the articles they wrote: a user is stored under its
    username; its [articleIds] are distinct ids of live articles by that
    user; every live article is listed by its author. *)
Definition users_ok (db : Database) : Prop :=
  (∀ u usr, users db !! u = Some usr →
     User.username usr = u ∧ NoDup (User.articleIds usr))
  ∧ (∀ u usr k, users db !! u = Some usr → k ∈ User.articleIds usr →
       ∃ a, articles db !! k = Some (Some a) ∧ Article.username a = u)
  ∧ (∀ k a, articles db !! k = Some (Some a) →
       ∃ usr, users db !! Article.username a = Some usr
              ∧ k ∈ User.articleIds usr).

(** The username whose id lists a handler goes on to read or write after
    it found [database.users] truthy under it: the path segment for
    [getUser], the author for the two creations. *)
Definition dereferenced_name (h : Handler) (url : string) (request : Request.t)
  : option string :=
  match h with
  | GetUser => segment1 url
  | CreateArticle =>
      requestArticle ← Request.body request ≫= Body.article;
      RequestArticle.username requestArticle
  | CreateComment =>
      requestComment ← Request.body request ≫= Body.comment;
      RequestComment.username requestComment
  | _ => None
  end.

(** A call that gives no property name of [Object.prototype] for that
    username. *)
Definition plain (h : Handler) (url : string) (request : Request.t) : bool :=
  match dereferenced_name h url request with
  | Some s => negb (inherited s)
  | None => true
  end.


(** No user of the store is named by a property of [Object.prototype]. *)
Definition users_plain (db : Database) : Prop :=
  ∀ u, inherited u = true → users db !! u = None.


(** [segments.join('/')] behind a leading separator. *)
Definition path_of (segments : list string) : string :=
  "/" +:+ String.concat "/" segments.

(** Two readings of a username that agree on all but [commentIds]. *)
Definition user_articles_agree (x y : option User.t) : Prop :=
  match x, y with
  | Some usr, Some usr' =>
      User.username usr' = User.username usr
      ∧ User.articleIds usr' = User.articleIds usr
  | None, None => True
  | _, _ => False
  end.

(** The fields of a record that name it and its owner. *)
Definition same_user (usr usr' : User.t) : Prop :=
  User.username usr' = User.username usr.

Definition same_article (a a' : Article.t) : Prop :=
  Article.id a' = Article.id a ∧ Article.username a' = Article.username a.

Definition same_comment (c c' : Comment.t) : Prop :=
  Comment.id c' = Comment.id c
  ∧ Comment.username c' = Comment.username c
  ∧ Comment.articleId c' = Comment.articleId c.

(** What a run may do to the records of a store: a user stays, an
    article or a comment stays or becomes [null], and none changes the
    fields that name it and its owner. *)
Definition identities_kept (db db' : Database) : Prop :=
  (∀ u usr, users db !! u = Some usr →
     ∃ usr', users db' !! u = Some usr' ∧ same_user usr usr')
  ∧ (∀ k a, articles db !! k = Some (Some a) →
       articles db' !! k = Some None
       ∨ ∃ a', articles db' !! k = Some (Some a') ∧ same_article a a')
  ∧ (∀ k c, comments db !! k = Some (Some c) →
       comments db' !! k = Some None
       ∨ ∃ c', comments db' !! k = Some (Some c') ∧ same_comment c c').

(** Two readings of an article key that agree on whether the article is
    live and on its author. *)
Definition article_owner_agree (x y : option (option Article.t)) : Prop :=
  match x, y with
  | Some (Some a), Some (Some a') => Article.username a' = Article.username a
  | Some None, Some None => True
  | None, None => True
  | _, _ => False
  end.

(** Two users that differ at most in [commentIds]. *)
Definition user_same_but_comments (usr usr' : User.t) : Prop :=
  User.username usr' = User.username usr
  ∧ User.articleIds usr' = User.articleIds usr.

(** Two comments that differ at most in [body]. *)
Definition comment_same_but_body (c c' : Comment.t) : Prop :=
  Comment.id c' = Comment.id c
  ∧ Comment.username c' = Comment.username c
  ∧ Comment.articleId c' = Comment.articleId c
  ∧ Comment.upvotedBy c' = Comment.upvotedBy c
  ∧ Comment.downvotedBy c' = Comment.downvotedBy c.

Definition patch_body (body : string) : Request.t :=
  Request.mk (Some (Body.mk NUndefined None
    (Some (RequestComment.mk (Some body) None None)))).

(** The list that [getArticles] answers with. *)
Definition listing (db : Database) : list Article.t :=
  sort (λ article1 article2, Article.id article2 - Article.id article1)
    (omap live
       (map (λ articleId, read (articles db) (JInt articleId))
          (keys (articles db)))).

(** The store and the response of a call that does not throw. *)
Definition store_of (c : Call) (db : Database) : Database :=
  match step c db with
  | Ok (db', _) => db'
  | Throw => db
  end.

Definition response_of (c : Call) (db : Database) : Response.t :=
  match step c db with
  | Ok (_, response) => response
  | Throw => Response.mk 0 None
  end.

Definition some_article_request : Request.t :=
  Request.mk (Some (Body.mk NUndefined
    (Some (RequestArticle.mk (Some "D") (Some "http://d") (Some "alice"))) None)).

Definition some_comment_request : Request.t :=
  Request.mk (Some (Body.mk NUndefined None
    (Some (RequestComment.mk (Some "third") (Some "alice") (Some (JInt 2)))))).

(** ** Examples *)

Example Number_examples :
  map Number [Some "1"; Some "999"; Some "abc"; Some "0"; None; Some "1.50";
              Some "1e3"; Some "0x1f"; Some "-2"; Some "12a"; Some "1.";
              Some ".5e1"; Some "."; Some "-Infinity"; Some "1?x=2"]
  = [JInt 1; JInt 999; JNaN; JInt 0; JNaN; JOther;
     JInt 1000; JInt 31; JInt (-2); JNaN; JInt 1;
     JInt 5; JNaN; JOther; JNaN].
Proof. reflexivity. Qed.

(** [Number] rounds to the nearest double. *)
Example Number_rounds :
  map Number [Some "1e-400"; Some "1.00000000000000000000001";
              Some "0.99999999999999999999"; Some "9007199254740993";
              Some "0x20000000000001"; Some "1e23"; Some "5e-324";
              Some "1.7976931348623159e308"; Some "1e309"]
  = [JInt 0; JInt 1; JInt 1; JInt 9007199254740992; JInt 9007199254740992;
     JInt 99999999999999991611392; JOther; JOther; JOther].
Proof. vm_compute. reflexivity. Qed.

(** Names that [Object.prototype] defines are found in [database.users]:
    [getUser] and the two creations end in a [TypeError],
    [getOrCreateUser] answers with the inherited value and stores
    nothing, and a vote is accepted. *)
Example inherited_names :
  (step (get GetUser "/users/constructor") database,
   step (post_article "T" "http://x" "toString") database,
   step (post_comment "c" "__proto__" 1) one_article,
   step (post_user "constructor") database,
   statuses [post_user "alice"; post_article "T" "http://x" "alice";
             put_vote UpvoteArticle "/articles/1/upvote" "valueOf";
             put_vote UpvoteArticle "/articles/1/upvote" "nobody"])
  = (Throw, Throw, Throw,
     Ok (database, Response.mk 200 (Some (body_inherited "constructor"))),
     Some [201; 201; 200; 400]).
Proof. vm_compute. reflexivity. Qed.

Example pathSegments_examples :
  map pathSegments ["/articles/12/upvote"; "//users//bob/"; "/"; ""; "a"]
  = [["articles"; "12"; "upvote"]; ["users"; "bob"]; []; []; ["a"]].
Proof. reflexivity. Qed.

Example splice1_examples :
  (splice1 [1; 2; 3] (indexOf [1; 2; 3] 2), splice1 [1; 2; 3] (indexOf [1; 2; 3] 7),
   splice1 ([] : list Z) (-1), indexOf [5; 6; 5] 5, indexOf [5; 6] 6)
  = ([1; 3], [1; 2], [], 0, 1).
Proof. reflexivity. Qed.

Example E1_statuses :
  statuses [post_user "alice"; post_user "alice"] = Some [201; 200].
Proof. vm_compute. reflexivity. Qed.

Example E3_statuses_and_votes :
  run [post_user "alice"; post_article "T" "http://x" "alice";
       put_vote UpvoteArticle "/articles/1/upvote" "alice";
       put_vote UpvoteArticle "/articles/1/upvote" "alice"] database
  = Ok (mkDatabase {["alice" := User.mk "alice" [1] []]}
          {[1 := Some (Article.mk 1 "T" "http://x" "alice" [] [NStr "alice"] [] None)]}
          2 ∅ 1,
        [(GetOrCreateUser, Response.mk 201 (Some (body_user (User.mk "alice" [] []))));
         (CreateArticle, Response.mk 201
            (Some (body_article (Article.mk 1 "T" "http://x" "alice" [] [] [] None))));
         (UpvoteArticle, Response.mk 200
            (Some (body_article (Article.mk 1 "T" "http://x" "alice" [] [NStr "alice"] [] None))));
         (UpvoteArticle, Response.mk 200
            (Some (body_article (Article.mk 1 "T" "http://x" "alice" [] [NStr "alice"] [] None))))]).
Proof. vm_compute. reflexivity. Qed.

Example E4_delete_with_one_comment :
  match run [post_user "alice"; post_article "T" "http://x" "alice";
             post_comment "c" "alice" 1; get DeleteArticle "/articles/1";
             get GetArticle "/articles/1"; get GetUser "/users/alice"] database with
  | Ok (_, trace) => map snd (drop 3 trace)
  | Throw => []
  end
  = [Response.mk 204 None; Response.mk 404 None;
     Response.mk 200 (Some (body_user_full (User.mk "alice" [] []) [] []))].
Proof. vm_compute. reflexivity. Qed.

Example E5_dispatch :
  (requestHandler "GET" "/articles/999" None database,
   requestHandler "GET" "/articles/abc" None database,
   requestHandler "PATCH" "/articles/1" None database,
   getRequestRoute "/")
  = (Ok (database, Response.mk 404 None), Ok (database, Response.mk 400 None),
     Ok (database, Response.mk 400 None), "/undefined/:id").
Proof. vm_compute. reflexivity. Qed.

Example getArticles_newest_first :
  getArticles "/articles" (Request.mk None) two_live_one_deleted
  = Ok (two_live_one_deleted,
        Response.mk 200 (Some (body_articles
          [Article.mk 3 "C" "http://c" "alice" [] [] [] None;
           Article.mk 1 "A" "http://a" "alice" [] [] [] None]))).
Proof. vm_compute. reflexivity. Qed.

Example create_delete_create_run :
  run create_delete_create database
  = Ok (two_live_one_deleted, create_delete_create_trace).
Proof. vm_compute. reflexivity. Qed.

Example create_delete_create_ids :
  created_article_ids create_delete_create_trace = [1; 2; 3].
Proof. reflexivity. Qed.

Example crossed_comments_run :
  store_after crossed_comments = Some crossed_store.
Proof. vm_compute. reflexivity. Qed.

(** A request without [username] reads [database.users[undefined]], the
    user named "undefined" when there is one. *)
Example vote_without_username :
  match run [post_user "undefined"; post_article "T" "http://x" "undefined";
             mkCall UpvoteArticle "/articles/1/upvote"
               (Request.mk (Some (Body.mk NUndefined None None)));
             mkCall UpvoteArticle "/articles/1/upvote" (Request.mk None)] database with
  | Ok (_, trace) => map snd (drop 2 trace)
  | Throw => []
  end
  = [Response.mk 200 (Some (body_article
       (Article.mk 1 "T" "http://x" "undefined" [] [NUndefined] [] None)));
     Response.mk 400 None].
Proof. vm_compute. reflexivity. Qed.
(** ** Arrays: facts *)

Section array_facts.
Context {A : Type} `{EqDecision A}.
Implicit Types (arr : list A) (x y : A).

Lemma includes_true arr x : includes arr x = true ↔ x ∈ arr.
Proof. unfold includes. apply bool_decide_eq_true. Qed.

Lemma includes_false arr x : includes arr x = false ↔ x ∉ arr.
Proof. unfold includes. apply bool_decide_eq_false. Qed.

Lemma indexOf_range arr x : -1 ≤ indexOf arr x < Z.of_nat (length arr).
Proof.
  induction arr as [|y arr IH]; simpl; [lia|].
  destruct (decide (y = x)); [lia|].
  destruct (Z.ltb_spec (indexOf arr x) 0); lia.
Qed.

Lemma indexOf_absent arr x : x ∉ arr → indexOf arr x = -1.
Proof.
  induction arr as [|y arr IH]; simpl; [done|].
  intros Hx. apply not_elem_of_cons in Hx as [Hne Hx].
  destruct (decide (y = x)); [congruence|].
  rewrite (IH Hx). reflexivity.
Qed.

Lemma indexOf_present arr x : x ∈ arr → 0 ≤ indexOf arr x.
Proof.
  induction arr as [|y arr IH]; simpl; [by intros ?%elem_of_nil|].
  intros Hx. destruct (decide (y = x)); [lia|].
  apply elem_of_cons in Hx as [->|Hx]; [done|].
  specialize (IH Hx). destruct (Z.ltb_spec (indexOf arr x) 0); lia.
Qed.

Lemma splice1_nat arr (i : nat) :
  (i < length arr)%nat → splice1 arr (Z.of_nat i) = delete i arr.
Proof.
  intros Hi. unfold splice1.
  destruct (Z.ltb_spec (Z.of_nat i) 0); [lia|].
  f_equal. lia.
Qed.

Lemma splice1_indexOf arr x :
  x ∈ arr → splice1 arr (indexOf arr x) = remove_first x arr.
Proof.
  induction arr as [|y arr IH]; [by intros ?%elem_of_nil|].
  intros Hx. simpl. destruct (decide (y = x)) as [->|Hne]; [done|].
  apply elem_of_cons in Hx as [->|Hx]; [done|].
  pose proof (indexOf_present _ _ Hx) as H0.
  pose proof (indexOf_range arr x) as Hr.
  destruct (Z.ltb_spec (indexOf arr x) 0); [lia|].
  rewrite <- IH by done.
  replace (indexOf arr x) with (Z.of_nat (Z.to_nat (indexOf arr x))) at 2 by lia.
  replace (indexOf arr x + 1) with (Z.of_nat (S (Z.to_nat (indexOf arr x)))) by lia.
  rewrite !splice1_nat by (simpl; lia). done.
Qed.

(** When [x] is absent, [indexOf] is [-1] and [splice] drops the last
    element. *)
Lemma splice1_absent arr x :
  x ∉ arr → splice1 arr (indexOf arr x) = take (length arr - 1) arr.
Proof.
  intros Hx. rewrite (indexOf_absent _ _ Hx). unfold splice1. simpl.
  destruct arr as [|y arr] using rev_ind; [done|].
  rewrite length_app. simpl.
  replace (Z.to_nat (Z.max (Z.of_nat (length arr + 1) + -1) 0)) with (length arr) by lia.
  replace (length arr + 1 - 1)%nat with (length arr) by lia.
  rewrite take_app_length.
  clear. induction arr as [|z arr IH]; simpl; [done|]. by rewrite IH.
Qed.

Lemma remove_first_sublist x arr : remove_first x arr `sublist_of` arr.
Proof.
  induction arr as [|y arr IH]; simpl; [done|].
  destruct (decide (y = x)); [by apply sublist_cons | by apply sublist_skip].
Qed.

Lemma elem_of_remove_first x y arr :
  NoDup arr → y ∈ remove_first x arr ↔ y ∈ arr ∧ y ≠ x.
Proof.
  induction 1 as [|z arr Hz Hnd IH]; simpl.
  - split; [by intros ?%elem_of_nil | by intros [?%elem_of_nil _]].
  - destruct (decide (z = x)) as [->|Hne].
    + rewrite elem_of_cons. split.
      * intros Hy. split; [by right|]. by intros ->.
      * intros [[->|Hy] Hyx]; done.
    + rewrite !elem_of_cons, IH. split.
      * intros [->|[Hy Hyx]]; split; auto.
      * intros [[->|Hy] Hyx]; auto.
Qed.

Lemma NoDup_remove_first x arr : NoDup arr → NoDup (remove_first x arr).
Proof. intros. eapply sublist_NoDup; [done | apply remove_first_sublist]. Qed.

Lemma NoDup_push arr x : NoDup arr → x ∉ arr → NoDup (push arr x).
Proof.
  intros Hnd Hx. unfold push. apply NoDup_app. split_and!; [done| |apply NoDup_singleton].
  intros y Hy ->%list_elem_of_singleton. done.
Qed.

Lemma elem_of_push arr x y : y ∈ push arr x ↔ y ∈ arr ∨ y = x.
Proof. unfold push. rewrite elem_of_app, list_elem_of_singleton. done. Qed.

End array_facts.

(** ** Vote engine: facts *)

Section vote_facts.
Context {A : Type} `{Votable A}.
Implicit Types (e : A) (u v : jsname).

Lemma upvotedBy_upvote e u :
  upvotedBy (upvote e u)
  = if includes (upvotedBy e) u then upvotedBy e else push (upvotedBy e) u.
Proof.
  unfold upvote.
  destruct (includes (downvotedBy e) u) eqn:Hd; rewrite ?up_set_down;
    destruct (includes (upvotedBy e) u) eqn:Hu;
    rewrite ?up_set_up, ?up_set_down; done.
Qed.

Lemma downvotedBy_upvote e u :
  downvotedBy (upvote e u)
  = if includes (downvotedBy e) u then remove_first u (downvotedBy e)
    else downvotedBy e.
Proof.
  unfold upvote.
  destruct (includes (downvotedBy e) u) eqn:Hd; rewrite ?up_set_down;
    destruct (includes (upvotedBy e) u) eqn:Hu;
    rewrite ?down_set_up, ?down_set_down; try done;
    apply splice1_indexOf, includes_true, Hd.
Qed.

Lemma downvotedBy_downvote e u :
  downvotedBy (downvote e u)
  = if includes (downvotedBy e) u then downvotedBy e else push (downvotedBy e) u.
Proof.
  unfold downvote.
  destruct (includes (upvotedBy e) u) eqn:Hu; rewrite ?down_set_up;
    destruct (includes (downvotedBy e) u) eqn:Hd;
    rewrite ?down_set_down, ?down_set_up; done.
Qed.

Lemma upvotedBy_downvote e u :
  upvotedBy (downvote e u)
  = if includes (upvotedBy e) u then remove_first u (upvotedBy e)
    else upvotedBy e.
Proof.
  unfold downvote.
  destruct (includes (upvotedBy e) u) eqn:Hu; rewrite ?down_set_up;
    destruct (includes (downvotedBy e) u) eqn:Hd;
    rewrite ?up_set_down, ?up_set_up; try done;
    apply splice1_indexOf, includes_true, Hu.
Qed.

(** A vote that is already cast changes nothing. *)
Lemma upvote_cast e u : u ∉ downvotedBy e → u ∈ upvotedBy e → upvote e u = e.
Proof.
  intros Hd%includes_false Hu%includes_true. unfold upvote.
  rewrite Hd, Hu. done.
Qed.

Lemma downvote_cast e u : u ∉ upvotedBy e → u ∈ downvotedBy e → downvote e u = e.
Proof.
  intros Hu%includes_false Hd%includes_true. unfold downvote.
  rewrite Hu, Hd. done.
Qed.

Lemma upvote_in_up e u : u ∈ upvotedBy (upvote e u).
Proof.
  rewrite upvotedBy_upvote. destruct (includes (upvotedBy e) u) eqn:Hu.
  - by apply includes_true.
  - apply elem_of_push. by right.
Qed.

Lemma downvote_in_down e u : u ∈ downvotedBy (downvote e u).
Proof.
  rewrite downvotedBy_downvote. destruct (includes (downvotedBy e) u) eqn:Hd.
  - by apply includes_true.
  - apply elem_of_push. by right.
Qed.

Lemma upvote_not_in_down e u :
  NoDup (downvotedBy e) → u ∉ downvotedBy (upvote e u).
Proof.
  intros Hnd. rewrite downvotedBy_upvote.
  destruct (includes (downvotedBy e) u) eqn:Hd.
  - rewrite elem_of_remove_first by done. by intros [_ ?].
  - by apply includes_false.
Qed.

Lemma downvote_not_in_up e u :
  NoDup (upvotedBy e) → u ∉ upvotedBy (downvote e u).
Proof.
  intros Hnd. rewrite upvotedBy_downvote.
  destruct (includes (upvotedBy e) u) eqn:Hu.
  - rewrite elem_of_remove_first by done. by intros [_ ?].
  - by apply includes_false.
Qed.

Lemma NoDup_upvotedBy_upvote e u :
  NoDup (upvotedBy e) → NoDup (upvotedBy (upvote e u)).
Proof.
  intros Hnd. rewrite upvotedBy_upvote.
  destruct (includes (upvotedBy e) u) eqn:Hu; [done|].
  apply NoDup_push; [done | by apply includes_false].
Qed.

Lemma NoDup_downvotedBy_downvote e u :
  NoDup (downvotedBy e) → NoDup (downvotedBy (downvote e u)).
Proof.
  intros Hnd. rewrite downvotedBy_downvote.
  destruct (includes (downvotedBy e) u) eqn:Hd; [done|].
  apply NoDup_push; [done | by apply includes_false].
Qed.

Lemma upvote_ok e u : vote_ok e → vote_ok (upvote e u).
Proof.
  intros (Hu & Hd & Hdisj). split_and!.
  - by apply NoDup_upvotedBy_upvote.
  - rewrite downvotedBy_upvote. destruct (includes (downvotedBy e) u); [|done].
    by apply NoDup_remove_first.
  - intros v Hv. destruct (decide (v = u)) as [->|Hne].
    { by apply upvote_not_in_down. }
    rewrite upvotedBy_upvote in Hv. rewrite downvotedBy_upvote.
    assert (v ∈ upvotedBy e) as Hv'.
    { destruct (includes (upvotedBy e) u); [done|].
      apply elem_of_push in Hv as [?|?]; done. }
    destruct (includes (downvotedBy e) u); [|by apply Hdisj].
    rewrite elem_of_remove_first by done. intros [? _]. by eapply Hdisj.
Qed.

Lemma downvote_ok e u : vote_ok e → vote_ok (downvote e u).
Proof.
  intros (Hu & Hd & Hdisj). split_and!.
  - rewrite upvotedBy_downvote. destruct (includes (upvotedBy e) u); [|done].
    by apply NoDup_remove_first.
  - by apply NoDup_downvotedBy_downvote.
  - intros v Hv. destruct (decide (v = u)) as [->|Hne].
    { by apply downvote_not_in_up in Hv. }
    rewrite upvotedBy_downvote in Hv. rewrite downvotedBy_downvote.
    assert (v ∈ upvotedBy e) as Hv'.
    { destruct (includes (upvotedBy e) u); [|done].
      apply elem_of_remove_first in Hv as [? _]; done. }
    destruct (includes (downvotedBy e) u); [by apply Hdisj|].
    rewrite elem_of_push. intros [?|?]; [by eapply Hdisj | done].
Qed.

End vote_facts.

(** A vote leaves every other field of an article or a comment as it
    is. *)
Lemma upvote_article (a : Article.t) u :
  upvote a u
  = Article.mk (Article.id a) (Article.title a) (Article.url a)
      (Article.username a) (Article.commentIds a)
      (upvotedBy (upvote a u)) (downvotedBy (upvote a u)) (Article.comments a).
Proof.
  unfold upvote. simpl.
  destruct (includes (Article.downvotedBy a) u); simpl;
    destruct (includes (Article.upvotedBy a) u); by destruct a.
Qed.

Lemma downvote_article (a : Article.t) u :
  downvote a u
  = Article.mk (Article.id a) (Article.title a) (Article.url a)
      (Article.username a) (Article.commentIds a)
      (upvotedBy (downvote a u)) (downvotedBy (downvote a u)) (Article.comments a).
Proof.
  unfold downvote. simpl.
  destruct (includes (Article.upvotedBy a) u); simpl;
    destruct (includes (Article.downvotedBy a) u); by destruct a.
Qed.

Lemma upvote_comment (c : Comment.t) u :
  upvote c u
  = Comment.mk (Comment.id c) (Comment.body c) (Comment.username c)
      (Comment.articleId c) (upvotedBy (upvote c u)) (downvotedBy (upvote c u)).
Proof.
  unfold upvote. simpl.
  destruct (includes (Comment.downvotedBy c) u); simpl;
    destruct (includes (Comment.upvotedBy c) u); by destruct c.
Qed.

Lemma downvote_comment (c : Comment.t) u :
  downvote c u
  = Comment.mk (Comment.id c) (Comment.body c) (Comment.username c)
      (Comment.articleId c) (upvotedBy (downvote c u)) (downvotedBy (downvote c u)).
Proof.
  unfold downvote. simpl.
  destruct (includes (Comment.upvotedBy c) u); simpl;
    destruct (includes (Comment.downvotedBy c) u); by destruct c.
Qed.

Lemma article_id_upvote (a : Article.t) u : Article.id (upvote a u) = Article.id a.
Proof. by rewrite upvote_article. Qed.

Lemma article_id_downvote (a : Article.t) u : Article.id (downvote a u) = Article.id a.
Proof. by rewrite downvote_article. Qed.

Lemma comment_id_upvote (c : Comment.t) u : Comment.id (upvote c u) = Comment.id c.
Proof. by rewrite upvote_comment. Qed.

Lemma comment_id_downvote (c : Comment.t) u : Comment.id (downvote c u) = Comment.id c.
Proof. by rewrite downvote_comment. Qed.

Lemma article_votes_only (a : Article.t) u :
  article_same_but_votes a (upvote a u) ∧ article_same_but_votes a (downvote a u).
Proof.
  rewrite upvote_article, downvote_article. unfold article_same_but_votes. done.
Qed.

Lemma comment_votes_only (c : Comment.t) u :
  comment_same_but_votes c (upvote c u) ∧ comment_same_but_votes c (downvote c u).
Proof.
  rewrite upvote_comment, downvote_comment. unfold comment_same_but_votes. done.
Qed.

(** ** Store: what a step does to the maps and counters *)

Lemma cascade_step_frame id db commentId db' :
  cascade_step id db commentId = Ok db' →
  articles db' = articles db
  ∧ nextArticleId db' = nextArticleId db
  ∧ nextCommentId db' = nextCommentId db
  ∧ comments db' = <[commentId := None]> (comments db)
  ∧ ∃ c, comments db !! commentId = Some (Some c).
Proof.
  unfold cascade_step, read. intros Hstep.
  destruct (comments db !! commentId) as [[c|]|] eqn:Hc; simplify_eq/=.
  destruct (users db !! Comment.username c); simplify_eq/=.
  eauto 10.
Qed.

Lemma cascade_frame id commentIds db db' :
  cascade id commentIds db = Ok db' →
  articles db' = articles db
  ∧ nextArticleId db' = nextArticleId db
  ∧ nextCommentId db' = nextCommentId db
  ∧ ∀ k, comments db' !! k = comments db !! k
         ∨ (k ∈ commentIds ∧ is_Some (comments db !! k)
            ∧ comments db' !! k = Some None).
Proof.
  revert db. induction commentIds as [|commentId rest IH]; intros db Hrun.
  - simpl in Hrun. simplify_eq. auto.
  - simpl in Hrun.
    destruct (cascade_step id db commentId) as [db1|] eqn:Hstep; simplify_eq/=.
    apply cascade_step_frame in Hstep as (Ha & Hna & Hnc & Hc & c & Hlive).
    apply IH in Hrun as (Ha' & Hna' & Hnc' & Hc').
    split_and!; [congruence..|].
    intros k. destruct (Hc' k) as [Heq|(Hin & Hsome & Hnull)].
    + rewrite Heq, Hc. destruct (decide (commentId = k)) as [->|Hne].
      * right. rewrite lookup_insert_eq. split_and!; [left|eauto|done].
      * left. by rewrite lookup_insert_ne.
    + right. split_and!; [by right| |done].
      rewrite Hc in Hsome. destruct (decide (commentId = k)) as [->|Hne]; [eauto|].
      by rewrite lookup_insert_ne in Hsome.
Qed.

Lemma live_at_Some {A : Type} (m : gmap Z (option A)) n k a :
  live_at m n = Some (k, a) ↔ n = JInt k ∧ m !! k = Some (Some a).
Proof.
  unfold live_at. split.
  - destruct n as [|z|]; try done.
    destruct (m !! z) as [[a'|]|] eqn:Hz; try done. by intros [= -> ->].
  - intros [-> ->]. done.
Qed.

Lemma live_at_None_int {A : Type} (m : gmap Z (option A)) k :
  live_at m (JInt k) = None ↔ m !! k = None ∨ m !! k = Some None.
Proof.
  unfold live_at. destruct (m !! k) as [[a|]|]; split; intros; try done; auto.
  destruct H; done.
Qed.

Lemma read_obj {A : Type} (m : gmap Z (option A)) k a :
  read m (JInt k) = obj a ↔ m !! k = Some (Some a).
Proof.
  unfold read. destruct (m !! k) as [[a'|]|]; split; intros; by simplify_eq.
Qed.

(** The three results of [database.users[v]]. *)
Lemma users_at_own m v user :
  users_at m v = own_user user ↔ m !! ToString v = Some user.
Proof.
  unfold users_at, read_user.
  destruct (m !! ToString v); [|case_match]; split; congruence.
Qed.

Lemma users_at_from_prototype m v :
  users_at m v = from_prototype
  ↔ m !! ToString v = None ∧ inherited (ToString v) = true.
Proof.
  unfold users_at, read_user.
  destruct (m !! ToString v); [|case_match]; split; try done; by intros [? ?].
Qed.

Lemma users_at_no_user m v :
  users_at m v = no_user
  ↔ m !! ToString v = None ∧ inherited (ToString v) = false.
Proof.
  unfold users_at, read_user.
  destruct (m !! ToString v); [|case_match]; split; try done; by intros [? ?].
Qed.

(** Unfolds the handler of a step and splits on the tests it makes. *)
Ltac handler_cases H :=
  unfold step, call in H; simpl in H;
  unfold createComment, updateComment, deleteComment, upvoteComment,
    downvoteComment, getUser, getOrCreateUser, getArticles, getArticle,
    createArticle, updateArticle, deleteArticle, upvoteArticle,
    downvoteArticle, known in H;
  simpl in H;
  repeat (first
    [ progress simplify_option_eq
    | match type of H with
      | context [cascade ?a ?b ?c] =>
          let E := fresh "E" in
          destruct (cascade a b c) eqn:E;
          unfold mbind, outcome_bind in H; simpl in H
      | context [match ?x with _ => _ end] =>
          let E := fresh "E" in destruct x eqn:E; simpl in H
      | context [if ?x then _ else _] =>
          let E := fresh "E" in destruct x eqn:E; simpl in H
      end ]);
  repeat match goal with
         | p : (_ * _)%type |- _ => destruct p
         end;
  simplify_eq/=;
  repeat match goal with
         | E : live_at _ _ = Some _ |- _ =>
             let En := fresh "En" in
             let Ek := fresh "Ek" in
             apply live_at_Some in E as [En Ek]
         | E : read _ (JInt _) = obj _ |- _ => apply read_obj in E
         | E : users_at _ _ = own_user _ |- _ =>
             apply users_at_own in E; simpl in E
         | E : users_at _ _ = from_prototype |- _ =>
             let Ei := fresh "Ei" in
             apply users_at_from_prototype in E as [E Ei]; simpl in E
         | E : users_at _ _ = no_user |- _ =>
             let Ei := fresh "Ei" in
             apply users_at_no_user in E as [E Ei]; simpl in E
         | E : match _ !! _ with _ => _ end = obj _ |- _ =>
             apply (proj1 (read_obj _ _ _)) in E
         end.

(** Splits a lookup in an updated map on the key that was written. *)
Ltac lookup_cases H :=
  simpl in H;
  repeat (rewrite lookup_insert in H; case_decide; simplify_eq/=).

Ltac use_cascade_frame :=
  try match goal with
      | E : cascade _ _ _ = Ok _ |- _ =>
          let Ea := fresh "Ea" in
          let Ena := fresh "Ena" in
          let Enc := fresh "Enc" in
          let Ec := fresh "Ec" in
          apply cascade_frame in E as (Ea & Ena & Enc & Ec); simpl in Ea, Ena, Enc, Ec
      end.

Lemma vote_ok_fresh {A : Type} `{Votable A} (e : A) :
  upvotedBy e = [] → downvotedBy e = [] → vote_ok e.
Proof.
  intros Hu Hd. unfold vote_ok. rewrite Hu, Hd.
  split_and!; [constructor..|]. by intros v ?%elem_of_nil.
Qed.

Lemma vote_ok_same {A : Type} `{Votable A} (e e' : A) :
  upvotedBy e' = upvotedBy e → downvotedBy e' = downvotedBy e →
  vote_ok e → vote_ok e'.
Proof. unfold vote_ok. by intros -> ->. Qed.

Lemma step_votes_ok db c db' response :
  votes_ok db → step c db = Ok (db', response) →
  votes_ok db' ∧ response_votes_ok response.
Proof.
  intros [Ha Hc] Hstep. destruct c as [h url request].
  destruct h; handler_cases Hstep; use_cascade_frame.
  all: split;
    [ split; intros k e Hk;
      simpl in Hk; try (rewrite Ea in Hk);
      try (destruct (Ec k) as [Heq|(_ & _ & Heq)]; rewrite Heq in Hk);
      lookup_cases Hk
    | unfold response_votes_ok; simpl ].
  all: try done; eauto using upvote_ok, downvote_ok.
  all: try (apply vote_ok_fresh; reflexivity).
  all: try (unfold vote_ok; simpl; first [eapply Ha | eapply Hc]; eassumption).
Qed.

Lemma step_ids db c db' response :
  ids_ok db → step c db = Ok (db', response) →
  ids_ok db'
  ∧ counters_step db (call_handler c) response db'
  ∧ (∀ k, articles db !! k = Some None → articles db' !! k = Some None)
  ∧ (∀ k, comments db !! k = Some None → comments db' !! k = Some None).
Proof.
  intros (Hna & Hnc & Hak & Hai & Hck & Hci) Hstep. destruct c as [h url request].
  destruct h; handler_cases Hstep; use_cascade_frame.
  all: unfold ids_ok, counters_step; simpl; rewrite ?Ena, ?Enc.
  all: split_and!; try (left; split; reflexivity); try (right; split; reflexivity);
       try lia.
  all: try (intros k Hk; simpl; rewrite ?Ea;
            try (destruct (Ec k) as [Heq|(_ & Hsome & Heq)]; rewrite Heq);
            repeat (rewrite lookup_insert; case_decide; simplify_eq/=);
            try done; try congruence;
            first [ apply Hak in Hk | apply Hck in Hk ]; lia).
  all: try (intros k e Hk; simpl in Hk; try (rewrite Ea in Hk);
            try (destruct (Ec k) as [Heq|(_ & Hsome & Heq)]; rewrite Heq in Hk);
            lookup_cases Hk; try done; eauto;
            try (first [ apply Hak in Hk | apply Hck in Hk ]; lia);
            try (destruct Hsome as [? Hsome]; apply Hck in Hsome; lia);
            rewrite ?article_id_upvote, ?article_id_downvote,
              ?comment_id_upvote, ?comment_id_downvote; simpl; eauto).
  all: lia.
Qed.

(** ** Runs and reachable stores *)

Lemma database_ids_ok : ids_ok database.
Proof. unfold ids_ok, database. simpl. split_and!; try lia; intros k x; by rewrite lookup_empty. Qed.

Lemma database_votes_ok : votes_ok database.
Proof. split; intros k x; simpl; by rewrite lookup_empty. Qed.

Lemma reachable_ids_ok db : reachable db → ids_ok db.
Proof.
  induction 1 as [|db c db' response _ IH Hstep]; [apply database_ids_ok|].
  by destruct (step_ids _ _ _ _ IH Hstep).
Qed.

Lemma reachable_votes_ok db : reachable db → votes_ok db.
Proof.
  induction 1 as [|db c db' response _ IH Hstep]; [apply database_votes_ok|].
  by destruct (step_votes_ok _ _ _ _ IH Hstep).
Qed.

Lemma run_cons c calls db :
  run (c :: calls) db
  = match step c db with
    | Ok (db1, response) =>
        match run calls db1 with
        | Ok (db2, trace) => Ok (db2, (call_handler c, response) :: trace)
        | Throw => Throw
        end
    | Throw => Throw
    end.
Proof.
  simpl. unfold mbind, outcome_bind.
  destruct (step c db) as [[db1 response]|]; [|done].
  by destruct (run calls db1) as [[db2 trace]|].
Qed.

Lemma run_reachable calls db db' trace :
  reachable db → run calls db = Ok (db', trace) → reachable db'.
Proof.
  revert db trace. induction calls as [|c calls IH]; intros db trace Hdb Hrun.
  - simpl in Hrun. by simplify_eq.
  - rewrite run_cons in Hrun.
    destruct (step c db) as [[db1 response]|] eqn:Hstep; [|done].
    destruct (run calls db1) as [[db2 trace']|] eqn:Hrest; simplify_eq.
    eapply IH; [|done]. by eapply reachable_step.
Qed.

Lemma created_article_ids_cons e trace :
  created_article_ids (e :: trace)
  = (created_article_ids [e] ++ created_article_ids trace)%list.
Proof. unfold created_article_ids. simpl. by case_match. Qed.

Lemma created_comment_ids_cons e trace :
  created_comment_ids (e :: trace)
  = (created_comment_ids [e] ++ created_comment_ids trace)%list.
Proof. unfold created_comment_ids. simpl. by case_match. Qed.

Lemma run_ids calls db db' trace :
  ids_ok db → run calls db = Ok (db', trace) →
  ids_ok db'
  ∧ nextArticleId db ≤ nextArticleId db'
  ∧ nextCommentId db ≤ nextCommentId db'
  ∧ StronglySorted Z.lt (created_article_ids trace)
  ∧ Forall (λ i, nextArticleId db ≤ i) (created_article_ids trace)
  ∧ StronglySorted Z.lt (created_comment_ids trace)
  ∧ Forall (λ i, nextCommentId db ≤ i) (created_comment_ids trace)
  ∧ (∀ k, articles db !! k = Some None → articles db' !! k = Some None)
  ∧ (∀ k, comments db !! k = Some None → comments db' !! k = Some None).
Proof.
  revert db trace. induction calls as [|c calls IH]; intros db trace Hok Hrun.
  - simpl in Hrun. simplify_eq. simpl.
    split_and!; try done; try lia; constructor.
  - rewrite run_cons in Hrun.
    destruct (step c db) as [[db1 response]|] eqn:Hstep; [|done].
    destruct (run calls db1) as [[db2 trace']|] eqn:Hrest; simplify_eq.
    destruct (step_ids _ _ _ _ Hok Hstep) as (Hok1 & [Hca Hcc] & Hta & Htc).
    destruct (IH _ _ Hok1 Hrest)
      as (Hok2 & Hna & Hnc & Hsa & Hfa & Hsc & Hfc & Hta' & Htc').
    rewrite (created_article_ids_cons _ trace'), (created_comment_ids_cons _ trace').
    assert (∀ (l : list Z) (n : Z), Forall (λ i, n + 1 ≤ i) l → Forall (Z.lt n) l) as Hlt.
    { intros l n Hl. eapply Forall_impl; [done|]. intros; simpl in *; lia. }
    assert (∀ (l : list Z) (n m : Z), n ≤ m → Forall (λ i, m ≤ i) l → Forall (λ i, n ≤ i) l) as Hle.
    { intros l n m ? Hl. eapply Forall_impl; [done|]. intros; simpl in *; lia. }
    split_and!; auto.
    + destruct Hca as [[_ ?]|[_ ?]]; lia.
    + destruct Hcc as [[_ ?]|[_ ?]]; lia.
    + destruct Hca as [[-> ?]|[-> Hn]]; simpl; [done|].
      constructor; [done|]. apply Hlt. by rewrite <- Hn.
    + destruct Hca as [[-> Hn]|[-> Hn]]; simpl.
      * by rewrite <- Hn.
      * constructor; [lia|]. eapply Hle; [|done]. lia.
    + destruct Hcc as [[-> ?]|[-> Hn]]; simpl; [done|].
      constructor; [done|]. apply Hlt. by rewrite <- Hn.
    + destruct Hcc as [[-> Hn]|[-> Hn]]; simpl.
      * by rewrite <- Hn.
      * constructor; [lia|]. eapply Hle; [|done]. lia.
Qed.

(** ** Handlers do not throw on reachable stores *)

Lemma cascade_spec id commentIds db :
  NoDup commentIds →
  (∀ commentId, commentId ∈ commentIds →
     ∃ c, comments db !! commentId = Some (Some c)
          ∧ is_Some (users db !! Comment.username c)) →
  ∃ db', cascade id commentIds db = Ok db'
    ∧ articles db' = articles db
    ∧ nextArticleId db' = nextArticleId db
    ∧ nextCommentId db' = nextCommentId db
    ∧ (∀ k, comments db' !! k
            = if decide (k ∈ commentIds) then Some None else comments db !! k)
    ∧ (∀ u, is_Some (users db' !! u) ↔ is_Some (users db !! u)).
Proof.
  revert db. induction commentIds as [|commentId rest IH]; intros db Hnd Hlive.
  - exists db. simpl. split_and!; done.
  - apply NoDup_cons in Hnd as [Hfresh Hnd].
    destruct (Hlive commentId) as (c & Hc & [user Huser]); [by left|].
    simpl. unfold cascade_step at 1. unfold read. rewrite Hc. simpl. rewrite Huser.
    unfold mbind, outcome_bind.
    set (db1 := set_users _ _).
    destruct (IH db1 Hnd) as (db' & Hrun & Ha & Hna & Hnc & Hcs & Hus).
    { intros commentId' Hin. destruct (Hlive commentId') as (c' & Hc' & Hu'); [by right|].
      exists c'. subst db1. simpl. split.
      - rewrite lookup_insert_ne; [done|]. by intros ->.
      - rewrite lookup_insert. case_decide; [by eexists | done]. }
    exists db'. split; [exact Hrun|]. subst db1. simpl in *. split_and!; try done.
    + intros k. rewrite Hcs. destruct (decide (k ∈ rest)) as [Hin|Hout].
      * by rewrite decide_True by by right.
      * rewrite lookup_insert. destruct (decide (commentId = k)) as [->|Hne].
        -- by rewrite decide_True by by left.
        -- rewrite decide_False; [done|]. by intros [->|?]%elem_of_cons.
    + intros u. rewrite Hus. rewrite lookup_insert. case_decide; [|done].
      subst u. split; [by eexists | by eexists].
Qed.

Lemma deleteComment_total url request db :
  refs_ok db → ∃ db' response, deleteComment url request db = Ok (db', response).
Proof.
  intros (_ & _ & Hc). unfold deleteComment.
  destruct (live_at (comments db) (Number (segment1 url))) as [[k c]|] eqn:Hlive;
    [|by eexists _, _].
  apply live_at_Some in Hlive as [_ Hk].
  destruct (Hc _ _ Hk) as ([user Huser] & a & Ha & _).
  rewrite Huser. unfold read. rewrite Ha. by eexists _, _.
Qed.

Lemma deleteArticle_total url request db :
  refs_ok db → ∃ db' response, deleteArticle url request db = Ok (db', response).
Proof.
  intros (Ha & Hac & Hc). unfold deleteArticle.
  destruct (live_at (articles db) (Number (segment1 url))) as [[k a]|] eqn:Hlive;
    [|by eexists _, _].
  apply live_at_Some in Hlive as [_ Hk].
  destruct (Ha _ _ Hk) as [[user Huser] Hnd].
  destruct (cascade_spec k (Article.commentIds a)
              (set_articles (<[k:=None]> (articles db)) db) Hnd)
    as (db1 & Hrun & _ & _ & _ & _ & Hus).
  { intros commentId Hin. destruct (Hac _ _ _ Hk Hin) as (c & Hlive & _).
    exists c. split; [done|]. by destruct (Hc _ _ Hlive). }
  rewrite Hrun. unfold mbind, outcome_bind.
  destruct (proj2 (Hus (Article.username a))) as [user1 Huser1]; [by eexists|].
  rewrite Huser1. by eexists _, _.
Qed.

Lemma known_plain m s :
  inherited s = false →
  known (users_at m (NStr s)) = true → ∃ user, users_at m (NStr s) = own_user user.
Proof.
  unfold users_at, known. simpl. intros ->. destruct (read_user m (NStr s)); eauto.
  done.
Qed.

Lemma step_total c db :
  refs_ok db → plain (call_handler c) (call_url c) (call_request c) = true →
  ∃ db' response, step c db = Ok (db', response).
Proof.
  intros Hrefs Hplain. destruct c as [h url request]. unfold step. simpl.
  unfold plain, dereferenced_name in Hplain. simpl in Hplain.
  destruct h; simpl;
    try (by apply deleteComment_total); try (by apply deleteArticle_total).
  all: unfold getOrCreateUser, getUser, getArticles, createArticle, getArticle,
         updateArticle, upvoteArticle, downvoteArticle, createComment,
         updateComment, upvoteComment, downvoteComment.
  all: try (repeat case_match; by eexists _, _).
  - unfold users_at. destruct (segment1 url) as [s|]; simpl in *.
    + apply negb_true_iff in Hplain. rewrite Hplain.
      destruct (read_user _ _); by eexists _, _.
    + destruct (read_user _ _); by eexists _, _.
  - destruct request as [[b|]]; simpl in *; [|by eexists _, _].
    destruct (Body.article b) as [requestArticle|]; simpl in *; [|by eexists _, _].
    destruct (truthy_field (RequestArticle.title requestArticle)); simpl;
      [|by eexists _, _].
    destruct (truthy_field (RequestArticle.url requestArticle)); simpl;
      [|by eexists _, _].
    destruct (RequestArticle.username requestArticle) as [name|]; simpl in *;
      [|by eexists _, _].
    destruct (truthy name); simpl; [|by eexists _, _].
    destruct (known (users_at (users db) (NStr name))) eqn:E; simpl; [|by eexists _, _].
    apply known_plain in E as [user ->]; [|by apply negb_true_iff].
    by eexists _, _.
  - destruct request as [[b|]]; simpl in *; [|by eexists _, _].
    destruct (Body.comment b) as [requestComment|]; simpl in *; [|by eexists _, _].
    destruct (truthy_field (RequestComment.body requestComment)); simpl;
      [|by eexists _, _].
    destruct (RequestComment.username requestComment) as [name|]; simpl in *;
      [|by eexists _, _].
    destruct (truthy name); simpl; [|by eexists _, _].
    destruct (known (users_at (users db) (NStr name))) eqn:E; simpl; [|by eexists _, _].
    destruct (truthy_number (RequestComment.articleId requestComment)); simpl;
      [|by eexists _, _].
    destruct (live_at (articles db) _) as [[key article]|]; simpl; [|by eexists _, _].
    apply known_plain in E as [user ->]; [|by apply negb_true_iff].
    by eexists _, _.
Qed.

Lemma article_refs_agree_refl x : article_refs_agree x x.
Proof. by destruct x as [[a|]|]. Qed.

Lemma comment_refs_agree_refl x : comment_refs_agree x x.
Proof. by destruct x as [[c|]|]. Qed.

Lemma refs_ok_agree db db' :
  (∀ u, is_Some (users db !! u) → is_Some (users db' !! u)) →
  (∀ k, article_refs_agree (articles db !! k) (articles db' !! k)) →
  (∀ k, comment_refs_agree (comments db !! k) (comments db' !! k)) →
  refs_ok db → refs_ok db'.
Proof.
  intros Hu Harts Hcoms (Ha & Hac & Hc).
  assert (∀ k a', articles db' !! k = Some (Some a') →
            ∃ a, articles db !! k = Some (Some a)
                 ∧ Article.username a' = Article.username a
                 ∧ Article.commentIds a' = Article.commentIds a) as Hback.
  { intros k a' Hk. specialize (Harts k). rewrite Hk in Harts.
    destruct (articles db !! k) as [[a|]|]; try done. by exists a. }
  assert (∀ k c', comments db' !! k = Some (Some c') →
            ∃ c, comments db !! k = Some (Some c)
                 ∧ Comment.username c' = Comment.username c
                 ∧ Comment.articleId c' = Comment.articleId c) as Hcback.
  { intros k c' Hk. specialize (Hcoms k). rewrite Hk in Hcoms.
    destruct (comments db !! k) as [[c|]|]; try done. by exists c. }
  split_and!.
  - intros k a' (a & Hk & Hun & Hids)%Hback. rewrite Hun, Hids.
    destruct (Ha _ _ Hk). split; [by apply Hu | done].
  - intros k a' commentId (a & Hk & _ & Hids)%Hback Hin. rewrite Hids in Hin.
    destruct (Hac _ _ _ Hk Hin) as (c & Hlive & Hart).
    specialize (Hcoms commentId). rewrite Hlive in Hcoms.
    destruct (comments db' !! commentId) as [[c'|]|]; try done.
    exists c'. split; [done|]. destruct Hcoms. congruence.
  - intros k c' (c & Hk & Hun & Haid)%Hcback. rewrite Hun, Haid.
    destruct (Hc _ _ Hk) as (Husr & a & Hlive & Hin).
    split; [by apply Hu|].
    specialize (Harts (Comment.articleId c)). rewrite Hlive in Harts.
    destruct (articles db' !! Comment.articleId c) as [[a'|]|]; try done.
    exists a'. split; [done|]. destruct Harts as [_ ->]. done.
Qed.

Lemma is_Some_insert {V : Type} (m : gmap string V) i j x :
  is_Some (m !! j) → is_Some (<[i := x]> m !! j).
Proof. intros. apply lookup_insert_is_Some'. by right. Qed.

Lemma createArticle_refs_ok url request db db' response :
  ids_ok db → refs_ok db →
  createArticle url request db = Ok (db', response) → refs_ok db'.
Proof.
  intros (_ & _ & Hak & _) (Ha & Hac & Hc) Hstep.
  unfold createArticle in Hstep.
  case_match eqn:Hvalid; [|by simplify_eq].
  repeat case_match; simplify_option_eq.
  match goal with E : users_at _ _ = own_user _ |- _ =>
    apply users_at_own in E; simpl in E end.
  split_and!; simpl.
  - intros k a Hk. rewrite lookup_insert in Hk. case_decide; simplify_eq/=.
    + split; [|constructor]. rewrite lookup_insert_eq. by eexists.
    + destruct (Ha _ _ Hk). split; [by apply is_Some_insert | done].
  - intros k a commentId Hk Hin. rewrite lookup_insert in Hk.
    case_decide; simplify_eq/=; [by apply elem_of_nil in Hin|]. eauto.
  - intros k c Hk. destruct (Hc _ _ Hk) as (Hu & a & Hlive & Hin).
    split; [by apply is_Some_insert|]. exists a. split; [|done].
    rewrite lookup_insert_ne; [done|]. apply Hak in Hlive. lia.
Qed.

Lemma createComment_refs_ok url request db db' response :
  ids_ok db → refs_ok db →
  createComment url request db = Ok (db', response) → refs_ok db'.
Proof.
  intros (_ & _ & _ & _ & Hck & _) (Ha & Hac & Hc) Hstep.
  unfold createComment in Hstep.
  case_match eqn:Hvalid; [|by simplify_eq].
  repeat case_match; simplify_option_eq.
  repeat match goal with p : (_ * _)%type |- _ => destruct p end. simplify_eq/=.
  match goal with E : live_at _ _ = Some _ |- _ =>
    apply live_at_Some in E as [_ Hart] end.
  match goal with E : users_at _ _ = own_user _ |- _ =>
    apply users_at_own in E; simpl in E; rename E into Huser end.
  assert (∀ commentId a k, articles db !! k = Some (Some a) →
            commentId ∈ Article.commentIds a → commentId ≠ nextCommentId db)
    as Hfresh.
  { intros commentId a k Hk Hin ->.
    destruct (Hac _ _ _ Hk Hin) as (c & Hlive & _). apply Hck in Hlive. lia. }
  split_and!; simpl.
  - intros k a Hk. rewrite lookup_insert in Hk. case_decide; simplify_eq/=.
    + destruct (Ha _ _ Hart) as [Hu Hnd]. split; [by apply is_Some_insert|].
      apply NoDup_push; [done|]. intros Hin. by eapply Hfresh.
    + destruct (Ha _ _ Hk). split; [by apply is_Some_insert | done].
  - intros k a commentId Hk Hin. rewrite lookup_insert in Hk.
    case_decide; simplify_eq/=.
    + apply elem_of_push in Hin as [Hin| ->].
      * rewrite lookup_insert_ne by (intros <-; by eapply Hfresh). eauto.
      * rewrite lookup_insert_eq. by eexists.
    + rewrite lookup_insert_ne by (intros <-; by eapply Hfresh). eauto.
  - intros k c Hk. rewrite lookup_insert in Hk. case_decide; simplify_eq/=.
    + split; [rewrite lookup_insert_eq; by eexists|].
      rewrite lookup_insert_eq. eexists. split; [done|]. simpl.
      apply elem_of_push. by right.
    + destruct (Hc _ _ Hk) as (Hu & a & Hlive & Hin).
      split; [by apply is_Some_insert|].
      rewrite lookup_insert. case_decide; simplify_eq/=.
      * eexists. split; [done|]. simpl. apply elem_of_push. by left.
      * by exists a.
Qed.

Lemma deleteComment_refs_ok url request db db' response :
  refs_ok db →
  deleteComment url request db = Ok (db', response) → refs_ok db'.
Proof.
  intros (Ha & Hac & Hc) Hstep.
  unfold deleteComment in Hstep.
  destruct (live_at (comments db) (Number (segment1 url))) as [[z t]|] eqn:Hlive;
    [|by simplify_eq].
  apply live_at_Some in Hlive as [_ Hz].
  destruct (users db !! Comment.username t) as [user|] eqn:Huser; [|done].
  destruct (read (articles db) (JInt (Comment.articleId t))) as [| |a] eqn:Hart;
    try done.
  apply read_obj in Hart. simplify_eq/=.
  split_and!; simpl.
  - intros k a' Hk. rewrite lookup_insert in Hk. case_decide; simplify_eq/=.
    + destruct (Ha _ _ Hart) as [Hu Hnd]. split; [by apply is_Some_insert|].
      by apply NoDup_filter.
    + destruct (Ha _ _ Hk). split; [by apply is_Some_insert | done].
  - intros k a' commentId Hk Hin. rewrite lookup_insert in Hk.
    case_decide; simplify_eq/=.
    + apply list_elem_of_filter in Hin as [Hne Hin].
      rewrite lookup_insert_ne by done. eauto.
    + destruct (Hac _ _ _ Hk Hin) as (c & Hlive & Haid).
      rewrite lookup_insert_ne; [eauto|]. intros <-. simplify_eq.
  - intros k c Hk. rewrite lookup_insert in Hk. case_decide; simplify_eq/=.
    destruct (Hc _ _ Hk) as (Hu & a' & Hlive & Hin).
    split; [by apply is_Some_insert|].
    rewrite lookup_insert. case_decide; simplify_eq/=.
    + assert (a' = a) as -> by congruence.
      eexists. split; [done|]. simpl. unfold filter_ne.
      apply list_elem_of_filter. split; [congruence | done].
    + by exists a'.
Qed.

Lemma deleteArticle_refs_ok url request db db' response :
  refs_ok db →
  deleteArticle url request db = Ok (db', response) → refs_ok db'.
Proof.
  intros (Ha & Hac & Hc) Hstep.
  unfold deleteArticle in Hstep.
  destruct (live_at (articles db) (Number (segment1 url))) as [[z t]|] eqn:Hlive;
    [|by simplify_eq].
  apply live_at_Some in Hlive as [_ Hz].
  destruct (Ha _ _ Hz) as [_ Hnd].
  destruct (cascade_spec z (Article.commentIds t)
              (set_articles (<[z:=None]> (articles db)) db) Hnd)
    as (db1 & Hrun & Harts & _ & _ & Hcoms & Hus).
  { intros commentId Hin. destruct (Hac _ _ _ Hz Hin) as (c & Hlive & _).
    exists c. split; [done|]. by destruct (Hc _ _ Hlive). }
  rewrite Hrun in Hstep. unfold mbind, outcome_bind in Hstep. simpl in *.
  destruct (users db1 !! Article.username t) as [user|] eqn:Huser; [|done].
  simplify_eq/=.
  assert (∀ u, is_Some (users db !! u) →
            is_Some (<[Article.username t := User.set_articleIds
                         (splice1 (User.articleIds user)
                            (indexOf (User.articleIds user) z)) user]>
                       (users db1) !! u)) as Hmono.
  { intros u Hu. apply is_Some_insert. by apply Hus. }
  split_and!; simpl.
  - intros k a Hk. rewrite Harts in Hk. rewrite lookup_insert in Hk.
    case_decide; simplify_eq/=.
    destruct (Ha _ _ Hk). split; [by apply Hmono | done].
  - intros k a commentId Hk Hin. rewrite Harts in Hk. rewrite lookup_insert in Hk.
    case_decide; simplify_eq/=.
    destruct (Hac _ _ _ Hk Hin) as (c & Hlive & Haid).
    exists c. split; [|done]. rewrite Hcoms.
    rewrite decide_False; [done|]. intros Hin'.
    destruct (Hac _ _ _ Hz Hin') as (c' & Hlive' & Haid'). simplify_eq.
  - intros k c Hk. rewrite Hcoms in Hk. case_decide as Hin; [done|].
    destruct (Hc _ _ Hk) as (Hu & a & Hlive & Hin').
    split; [by apply Hmono|]. exists a. split; [|done].
    rewrite Harts. rewrite lookup_insert_ne; [done|]. intros ->.
    assert (a = t) as -> by congruence. done.
Qed.

Lemma article_refs_agree_vote (a : Article.t) u :
  article_refs_agree (Some (Some a)) (Some (Some (upvote a u)))
  ∧ article_refs_agree (Some (Some a)) (Some (Some (downvote a u))).
Proof.
  destruct (article_votes_only a u) as [(_ & _ & _ & ? & ? & _) (_ & _ & _ & ? & ? & _)].
  done.
Qed.

Lemma comment_refs_agree_vote (c : Comment.t) u :
  comment_refs_agree (Some (Some c)) (Some (Some (upvote c u)))
  ∧ comment_refs_agree (Some (Some c)) (Some (Some (downvote c u))).
Proof.
  destruct (comment_votes_only c u) as [(_ & _ & ? & ?) (_ & _ & ? & ?)].
  done.
Qed.

(** Closes a goal of [refs_ok_agree] after the update of one key. *)
Ltac agree_after_insert :=
  intros; simpl;
  try (rewrite lookup_insert; case_decide; subst);
  first
    [ apply article_refs_agree_refl
    | apply comment_refs_agree_refl
    | eauto; fail
    | match goal with
      | E : _ !! _ = Some (Some _) |- _ =>
          rewrite E;
          first [ apply article_refs_agree_vote | apply comment_refs_agree_vote
                | done ]
      end ].

Lemma step_refs_ok db c db' response :
  ids_ok db → refs_ok db → step c db = Ok (db', response) → refs_ok db'.
Proof.
  intros Hids Hrefs Hstep.
  destruct c as [h url request].
  destruct h; unfold step, call in Hstep; simpl in Hstep;
    try (by eapply createArticle_refs_ok); try (by eapply createComment_refs_ok);
    try (by eapply deleteComment_refs_ok); try (by eapply deleteArticle_refs_ok).
  all: handler_cases Hstep; try done.
  all: eapply refs_ok_agree; [| | |exact Hrefs]; agree_after_insert.
Qed.

Lemma database_refs_ok : refs_ok database.
Proof. split_and!; intros k x; simpl; by rewrite lookup_empty. Qed.

Lemma reachable_refs_ok db : reachable db → refs_ok db.
Proof.
  induction 1 as [|db c db' response Hdb IH Hstep]; [apply database_refs_ok|].
  eapply step_refs_ok; [|done..]. by apply reachable_ids_ok.
Qed.

(** A run of plain calls from a reachable store returns. *)
Lemma run_total calls db :
  reachable db →
  Forall (λ c, plain (call_handler c) (call_url c) (call_request c) = true) calls →
  ∃ db' trace, run calls db = Ok (db', trace).
Proof.
  revert db. induction calls as [|c calls IH]; intros db Hdb Hplain.
  - by eexists _, _.
  - apply Forall_cons in Hplain as [Hc Hplain].
    destruct (step_total c db (reachable_refs_ok _ Hdb) Hc) as (db1 & response & Hstep).
    destruct (IH db1) as (db2 & trace & Hrun); [by eapply reachable_step|done|].
    rewrite run_cons, Hstep, Hrun. by eexists _, _.
Qed.

Lemma two_live_one_deleted_reachable : reachable two_live_one_deleted.
Proof.
  apply (run_reachable create_delete_create database _ create_delete_create_trace);
    [apply reachable_init | vm_compute; reflexivity].
Defined.

(** ** Deletions leave [null] under the key *)

Lemma deleteArticle_tombstones db url request k a :
  refs_ok db →
  Number (segment1 url) = JInt k →
  articles db !! k = Some (Some a) →
  ∃ db', deleteArticle url request db = Ok (db', Response.mk 204 None)
    ∧ articles db' = <[k := None]> (articles db)
    ∧ (∀ i, comments db' !! i
            = (if decide (i ∈ Article.commentIds a) then Some None
               else comments db !! i)).
Proof.
  intros (Ha & Hac & Hc) Hid Hk.
  destruct (Ha _ _ Hk) as [[user Huser] Hnd].
  destruct (cascade_spec k (Article.commentIds a)
              (set_articles (<[k:=None]> (articles db)) db) Hnd)
    as (db1 & Hrun & Harts & _ & _ & Hcoms & Hus).
  { intros commentId Hin. destruct (Hac _ _ _ Hk Hin) as (c & Hlive & _).
    exists c. split; [done|]. by destruct (Hc _ _ Hlive). }
  destruct (proj2 (Hus (Article.username a))) as [user1 Huser1]; [by eexists|].
  unfold deleteArticle. rewrite Hid.
  rewrite (proj2 (live_at_Some _ _ _ _) (conj eq_refl Hk)).
  rewrite Hrun. unfold mbind, outcome_bind. rewrite Huser1.
  eexists. split; [reflexivity|]. simpl. split; [exact Harts | exact Hcoms].
Qed.

Lemma deleteComment_tombstones db url request k c :
  refs_ok db →
  Number (segment1 url) = JInt k →
  comments db !! k = Some (Some c) →
  ∃ db', deleteComment url request db = Ok (db', Response.mk 204 None)
    ∧ comments db' = <[k := None]> (comments db).
Proof.
  intros (_ & _ & Hc) Hid Hk.
  destruct (Hc _ _ Hk) as ([author Hauthor] & article & Harticle & _).
  unfold deleteComment. rewrite Hid.
  rewrite (proj2 (live_at_Some _ _ _ _) (conj eq_refl Hk)).
  rewrite Hauthor. rewrite (proj2 (read_obj _ _ _) Harticle).
  eexists. split; [reflexivity|]. done.
Qed.

(** The ids of a run are above every key of the store it starts from. *)
Lemma run_ids_above db calls db' trace :
  ids_ok db → run calls db = Ok (db', trace) →
  (∀ k i, is_Some (articles db !! k) → i ∈ created_article_ids trace → k < i)
  ∧ (∀ k i, is_Some (comments db !! k) → i ∈ created_comment_ids trace → k < i).
Proof.
  intros Hdb Hrun.
  destruct (run_ids _ _ _ _ Hdb Hrun) as (_ & _ & _ & _ & Hfa & _ & Hfc & _).
  destruct Hdb as (_ & _ & Hak & _ & Hck & _).
  split.
  - intros k i [x Hk] Hi. apply Hak in Hk.
    rewrite Forall_forall in Hfa. apply Hfa in Hi. lia.
  - intros k i [x Hk] Hi. apply Hck in Hk.
    rewrite Forall_forall in Hfc. apply Hfc in Hi. lia.
Qed.

(** ** Votes (C2, C3) *)

Lemma vote_laws_NoDup {A : Type} `{Votable A} (e : A) (u : jsname) :
  NoDup (upvotedBy e) → NoDup (downvotedBy e) → vote_laws e u.
Proof.
  intros Hu Hd. unfold vote_laws. split_and!.
  - apply upvote_cast; [by apply upvote_not_in_down | apply upvote_in_up].
  - apply downvote_cast; [by apply downvote_not_in_up | apply downvote_in_down].
  - intros [Hin _]. revert Hin.
    by apply downvote_not_in_up, NoDup_upvotedBy_upvote.
  - intros [_ Hin]. revert Hin.
    by apply upvote_not_in_down, NoDup_downvotedBy_downvote.
Qed.

(** C2: for every username, [upvote] and [downvote] are idempotent, and
    a vote followed by the opposite vote of the same username never
    leaves it in both arrays, on every article and comment of every store
    the handlers produce, on the article or comment that a response
    carries (a new one in particular), and on any item whose two vote
    arrays hold no username twice. *)
Theorem vote_idempotent_exclusive :
  (∀ db k a u, reachable db → articles db !! k = Some (Some a) → vote_laws a u)
  ∧ (∀ db k c u, reachable db → comments db !! k = Some (Some c) → vote_laws c u)
  ∧ (∀ db call db' status a u,
       reachable db →
       step call db = Ok (db', Response.mk status (Some (body_article a))) →
       vote_laws a u)
  ∧ (∀ db call db' status c u,
       reachable db →
       step call db = Ok (db', Response.mk status (Some (body_comment c))) →
       vote_laws c u)
  ∧ (∀ (A : Type) (V : Votable A) (e : A) (u : jsname),
       NoDup (upvotedBy e) → NoDup (downvotedBy e) → vote_laws e u).
Proof.
  split_and!.
  - intros db k a u Hreach Hk.
    destruct (reachable_votes_ok _ Hreach) as [Ha _].
    destruct (Ha _ _ Hk) as (Hu & Hd & _). by apply vote_laws_NoDup.
  - intros db k c u Hreach Hk.
    destruct (reachable_votes_ok _ Hreach) as [_ Hc].
    destruct (Hc _ _ Hk) as (Hu & Hd & _). by apply vote_laws_NoDup.
  - intros db call db' status a u Hreach Hstep.
    destruct (step_votes_ok _ _ _ _ (reachable_votes_ok _ Hreach) Hstep)
      as [_ (Hu & Hd & _)].
    by apply vote_laws_NoDup.
  - intros db call db' status c u Hreach Hstep.
    destruct (step_votes_ok _ _ _ _ (reachable_votes_ok _ Hreach) Hstep)
      as [_ (Hu & Hd & _)].
    by apply vote_laws_NoDup.
  - intros A V e u. apply vote_laws_NoDup.
Qed.

Lemma vote_idempotent_exclusive_witness :
  reachable two_live_one_deleted
  ∧ vote_laws (Article.mk 1 "A" "http://a" "alice" [] [] [] None) (NStr "bob")
  ∧ NoDup (upvotedBy voted_article) ∧ NoDup (downvotedBy voted_article)
  ∧ upvote (upvote voted_article (NStr "bob")) (NStr "bob")
    = upvote voted_article (NStr "bob")
  ∧ downvote (downvote voted_article (NStr "bob")) (NStr "bob")
    = downvote voted_article (NStr "bob").
Proof.
  split; [exact two_live_one_deleted_reachable|].
  split.
  { exact (proj1 vote_idempotent_exclusive two_live_one_deleted 1
             (Article.mk 1 "A" "http://a" "alice" [] [] [] None) (NStr "bob")
             two_live_one_deleted_reachable eq_refl). }
  assert (NoDup (upvotedBy voted_article)) as Hu.
  { apply (bool_decide_unpack _). vm_compute. exact I. }
  assert (NoDup (downvotedBy voted_article)) as Hd.
  { apply (bool_decide_unpack _). vm_compute. exact I. }
  split; [exact Hu|]. split; [exact Hd|].
  destruct (proj2 (proj2 (proj2 (proj2 vote_idempotent_exclusive)))
              Article.t _ voted_article (NStr "bob") Hu Hd)
    as (H1 & H2 & _).
  split; [exact H1 | exact H2].
Defined.

(** C3: the vote arrays of every article and comment are duplicate-free
    and disjoint in the initial store, stay so across every handler call
    (the entity a response carries, a new article or comment in
    particular, included), hence are so in every reachable store, and
    [upvote] and [downvote] keep them so on any item. *)
Theorem vote_sets_invariant :
  votes_ok database
  ∧ (∀ db c db' response,
       votes_ok db → step c db = Ok (db', response) →
       votes_ok db' ∧ response_votes_ok response)
  ∧ (∀ db, reachable db → votes_ok db)
  ∧ (∀ (A : Type) (V : Votable A) (e : A) (u : jsname),
       vote_ok e → vote_ok (upvote e u) ∧ vote_ok (downvote e u)).
Proof.
  split_and!.
  - apply database_votes_ok.
  - apply step_votes_ok.
  - apply reachable_votes_ok.
  - intros A V e u He. split; [by apply upvote_ok | by apply downvote_ok].
Qed.

Lemma vote_sets_invariant_witness :
  ∃ db' response,
    step (post_article "T" "http://x" "alice") one_user = Ok (db', response)
    ∧ votes_ok db' ∧ response_votes_ok response.
Proof.
  eexists _, _. split; [vm_compute; reflexivity|].
  apply (proj1 (proj2 vote_sets_invariant) one_user
           (post_article "T" "http://x" "alice")).
  - split; intros k x; vm_compute; destruct k; discriminate.
  - vm_compute. reflexivity.
Defined.

(** ** Ids (C4) *)

(** C4: of any store the handlers produce, (1) along every run that
    returns, the ids that the successful [createArticle] calls hand out
    are strictly increasing and above every key the articles map already
    holds, live or deleted, the same for [createComment], and a [null]
    stays under its key; (2) [deleteArticle] of a live article answers
    204 and puts [null] under its id and under the id of each of its
    comments, after which every run leaves these [null] and hands none
    of these ids out again; (3) the same for [deleteComment]; (4) a run
    returns when none of its calls names a property of
    [Object.prototype] as the user to read or to write for (such a call
    ends in a [TypeError]). *)
Theorem ids_strictly_increasing db :
  reachable db →
  (∀ calls db' trace,
     run calls db = Ok (db', trace) →
     StronglySorted Z.lt (created_article_ids trace)
     ∧ StronglySorted Z.lt (created_comment_ids trace)
     ∧ (∀ k i, is_Some (articles db !! k) → i ∈ created_article_ids trace → k < i)
     ∧ (∀ k i, is_Some (comments db !! k) → i ∈ created_comment_ids trace → k < i)
     ∧ (∀ k, articles db !! k = Some None → articles db' !! k = Some None)
     ∧ (∀ k, comments db !! k = Some None → comments db' !! k = Some None))
  ∧ (∀ url request k a,
       Number (segment1 url) = JInt k →
       articles db !! k = Some (Some a) →
       ∃ db1,
         deleteArticle url request db = Ok (db1, Response.mk 204 None)
         ∧ articles db1 !! k = Some None
         ∧ (∀ i, i ∈ Article.commentIds a → comments db1 !! i = Some None)
         ∧ ∀ calls db' trace,
             run calls db1 = Ok (db', trace) →
             articles db' !! k = Some None
             ∧ (k ∉ created_article_ids trace)
             ∧ ∀ i, i ∈ Article.commentIds a →
                    comments db' !! i = Some None
                    ∧ (i ∉ created_comment_ids trace))
  ∧ (∀ url request k c,
       Number (segment1 url) = JInt k →
       comments db !! k = Some (Some c) →
       ∃ db1,
         deleteComment url request db = Ok (db1, Response.mk 204 None)
         ∧ comments db1 !! k = Some None
         ∧ ∀ calls db' trace,
             run calls db1 = Ok (db', trace) →
             comments db' !! k = Some None
             ∧ (k ∉ created_comment_ids trace))
  ∧ (∀ calls,
       Forall (λ c, plain (call_handler c) (call_url c) (call_request c) = true)
         calls →
       ∃ db' trace, run calls db = Ok (db', trace)).
Proof.
  intros Hreach. pose proof (reachable_ids_ok _ Hreach) as Hdb.
  pose proof (reachable_refs_ok _ Hreach) as Hrefs.
  split_and!.
  - intros calls db' trace Hrun.
    destruct (run_ids _ _ _ _ Hdb Hrun)
      as (_ & _ & _ & Hsa & _ & Hsc & _ & Hta & Htc).
    destruct (run_ids_above _ _ _ _ Hdb Hrun) as [Haa Hca].
    split_and!; done.
  - intros url request k a Hid Hk.
    destruct (deleteArticle_tombstones _ url request _ _ Hrefs Hid Hk)
      as (db1 & Hdel & Harts & Hcoms).
    exists db1. split; [exact Hdel|].
    assert (articles db1 !! k = Some None) as Hnull.
    { rewrite Harts. apply lookup_insert_eq. }
    assert (∀ i, i ∈ Article.commentIds a → comments db1 !! i = Some None)
      as Hnulls.
    { intros i Hin. rewrite Hcoms. by rewrite decide_True. }
    split; [exact Hnull|]. split; [exact Hnulls|].
    intros calls db' trace Hrun.
    assert (ids_ok db1) as Hdb1.
    { eapply (step_ids db (mkCall DeleteArticle url request)); [exact Hdb|].
      exact Hdel. }
    destruct (run_ids _ _ _ _ Hdb1 Hrun)
      as (_ & _ & _ & _ & _ & _ & _ & Hta & Htc).
    destruct (run_ids_above _ _ _ _ Hdb1 Hrun) as [Haa Hca].
    split; [by apply Hta|]. split.
    + intros Hin. assert (k < k); [|lia]. apply Haa; [|done]. by rewrite Hnull.
    + intros i Hi. split; [by apply Htc, Hnulls|].
      intros Hin. assert (i < i); [|lia]. apply Hca; [|done].
      by rewrite (Hnulls i Hi).
  - intros url request k c Hid Hk.
    destruct (deleteComment_tombstones _ url request _ _ Hrefs Hid Hk)
      as (db1 & Hdel & Hcoms).
    exists db1. split; [exact Hdel|].
    assert (comments db1 !! k = Some None) as Hnull.
    { rewrite Hcoms. apply lookup_insert_eq. }
    split; [exact Hnull|].
    intros calls db' trace Hrun.
    assert (ids_ok db1) as Hdb1.
    { eapply (step_ids db (mkCall DeleteComment url request)); [exact Hdb|].
      exact Hdel. }
    destruct (run_ids _ _ _ _ Hdb1 Hrun)
      as (_ & _ & _ & _ & _ & _ & _ & _ & Htc).
    destruct (run_ids_above _ _ _ _ Hdb1 Hrun) as [_ Hca].
    split; [by apply Htc|].
    intros Hin. assert (k < k); [|lia]. apply Hca; [|done]. by rewrite Hnull.
  - intros calls Hplain. by apply run_total.
Qed.

Lemma ids_strictly_increasing_witness :
  reachable two_live_one_deleted
  ∧ (∃ db1,
       deleteArticle "/articles/3" (Request.mk None) two_live_one_deleted
       = Ok (db1, Response.mk 204 None)
       ∧ articles db1 !! 3 = Some None
       ∧ ∀ calls db' trace,
           run calls db1 = Ok (db', trace) →
           articles db' !! 3 = Some None ∧ (3 ∉ created_article_ids trace))
  ∧ (∃ db' trace,
       run [post_article "D" "http://d" "alice"; get DeleteArticle "/articles/1";
            post_article "E" "http://e" "alice"] two_live_one_deleted
       = Ok (db', trace)
       ∧ StronglySorted Z.lt (created_article_ids trace)
       ∧ articles db' !! 2 = Some None).
Proof.
  split; [exact two_live_one_deleted_reachable|].
  destruct (ids_strictly_increasing two_live_one_deleted
              two_live_one_deleted_reachable) as (Hruns & Hdelete & _ & Htotal).
  split.
  - destruct (Hdelete "/articles/3" (Request.mk None) 3
                (Article.mk 3 "C" "http://c" "alice" [] [] [] None)
                eq_refl eq_refl) as (db1 & Hdel & Hnull & _ & Hafter).
    exists db1. split; [exact Hdel|]. split; [exact Hnull|].
    intros calls db' trace Hrun.
    destruct (Hafter calls db' trace Hrun) as (Hstays & Hfresh & _).
    split; [exact Hstays | exact Hfresh].
  - destruct (Htotal [post_article "D" "http://d" "alice";
                      get DeleteArticle "/articles/1";
                      post_article "E" "http://e" "alice"])
      as (db' & trace & Hrun).
    { repeat constructor. }
    exists db', trace. split; [exact Hrun|].
    destruct (Hruns _ db' trace Hrun) as (Hsorted & _ & _ & _ & Hstays & _).
    split; [exact Hsorted|]. apply Hstays. reflexivity.
Defined.

(** ** Sorting and listing (C5) *)

Section sort_facts.
Context {A : Type} (compare : A → A → Z).
Implicit Types (x y : A) (arr : list A).

Lemma insert_sorted_perm x arr : insert_sorted compare x arr ≡ₚ x :: arr.
Proof.
  induction arr as [|y arr IH]; simpl; [done|].
  destruct (compare x y <=? 0); [done|].
  rewrite IH. apply Permutation_swap.
Qed.

Lemma sort_perm arr : sort compare arr ≡ₚ arr.
Proof.
  induction arr as [|x arr IH]; simpl; [done|].
  rewrite insert_sorted_perm. by rewrite IH.
Qed.

Hypothesis compare_total : ∀ x y, compare x y ≤ 0 ∨ compare y x ≤ 0.
Hypothesis compare_trans :
  ∀ x y z, compare x y ≤ 0 → compare y z ≤ 0 → compare x z ≤ 0.

Lemma insert_sorted_sorted x arr :
  StronglySorted (λ x y, compare x y ≤ 0) arr →
  StronglySorted (λ x y, compare x y ≤ 0) (insert_sorted compare x arr).
Proof.
  induction 1 as [|y arr Hs IH Hy]; simpl.
  - repeat constructor.
  - destruct (Z.leb_spec (compare x y) 0) as [Hle|Hgt].
    + constructor; [by constructor|].
      constructor; [done|].
      eapply Forall_impl; [exact Hy|]. intros z Hz. simpl in Hz.
      by eapply compare_trans.
    + constructor; [done|].
      rewrite insert_sorted_perm. constructor; [|done].
      destruct (compare_total x y); [lia | done].
Qed.

Lemma sort_sorted arr : StronglySorted (λ x y, compare x y ≤ 0) (sort compare arr).
Proof.
  induction arr as [|x arr IH]; simpl; [constructor|].
  by apply insert_sorted_sorted.
Qed.

End sort_facts.

Lemma elem_of_keys {A : Type} (m : gmap Z A) k : k ∈ keys m ↔ is_Some (m !! k).
Proof.
  unfold keys. rewrite sort_perm, list_elem_of_fmap. split.
  - intros [[k' x] [-> Hx%elem_of_map_to_list]]. by exists x.
  - intros [x Hx]. exists (k, x). split; [done|]. by apply elem_of_map_to_list.
Qed.

Lemma NoDup_keys {A : Type} (m : gmap Z A) : NoDup (keys m).
Proof. unfold keys. rewrite sort_perm. apply NoDup_fst_map_to_list. Qed.

(** The objects of the map, in the order of the keys given. *)
Lemma live_ids_sublist db ks :
  ids_ok db →
  map Article.id (omap live (map (λ k, read (articles db) (JInt k)) ks))
    `sublist_of` ks.
Proof.
  intros (_ & _ & _ & Hid & _). induction ks as [|k ks IH]; simpl; [done|].
  destruct (articles db !! k) as [[a|]|] eqn:Hk; simpl.
  - rewrite (Hid _ _ Hk). by apply sublist_skip.
  - by apply sublist_cons.
  - by apply sublist_cons.
Qed.

Lemma elem_of_live db ks a :
  a ∈ omap live (map (λ k, read (articles db) (JInt k)) ks)
  ↔ ∃ k, k ∈ ks ∧ articles db !! k = Some (Some a).
Proof.
  rewrite list_elem_of_omap. split.
  - intros [s [Hs Hlive]]. apply list_elem_of_fmap in Hs as [k [-> Hk]].
    exists k. split; [done|]. apply read_obj. by destruct (read _ _); simplify_eq/=.
  - intros [k [Hk Ha]]. exists (obj a). split; [|done].
    apply list_elem_of_fmap. exists k. split; [|done]. symmetry. by apply read_obj.
Qed.

Lemma descending_strict (l : list Article.t) :
  NoDup (map Article.id l) →
  StronglySorted (λ a1 a2, Article.id a2 - Article.id a1 ≤ 0) l →
  StronglySorted (λ a1 a2, Article.id a2 < Article.id a1) l.
Proof.
  induction l as [|a l IH]; intros Hnd Hs; [constructor|].
  simpl in Hnd. apply NoDup_cons in Hnd as [Ha Hnd].
  apply StronglySorted_inv in Hs as [Hs Hall].
  constructor; [by apply IH|].
  rewrite Forall_forall in Hall. apply Forall_forall. intros b Hb.
  specialize (Hall b Hb). simpl in Hall.
  assert (Article.id b ≠ Article.id a); [|lia].
  intros Heq. apply Ha. rewrite <- Heq. apply list_elem_of_fmap. by exists b.
Qed.

(** C5: on every reachable store [getArticles] answers 200 with the live
    articles, each once and no [null], by strictly descending id. *)
Theorem getArticles_live_descending db url request :
  reachable db →
  ∃ l, getArticles url request db
       = Ok (db, Response.mk 200 (Some (body_articles l)))
    ∧ (∀ a, a ∈ l ↔ ∃ k, articles db !! k = Some (Some a))
    ∧ (∀ k a, articles db !! k = Some None → a ∈ l → Article.id a ≠ k)
    ∧ StronglySorted (λ a1 a2, Article.id a2 < Article.id a1) l.
Proof.
  intros Hok%reachable_ids_ok. eexists. split; [reflexivity|].
  set (cmp := λ a1 a2 : Article.t, Article.id a2 - Article.id a1).
  set (input := omap live (map (λ k, read (articles db) (JInt k)) (keys (articles db)))).
  assert (∀ a, a ∈ sort cmp input ↔ ∃ k, articles db !! k = Some (Some a)) as Hmem.
  { intros a. rewrite sort_perm. unfold input. rewrite elem_of_live. split.
    - intros [k [_ Hk]]. by exists k.
    - intros [k Hk]. exists k. split; [|done]. apply elem_of_keys. by eexists. }
  split_and!; [done| |].
  - intros k a Hk [k' Ha]%Hmem Hid.
    destruct Hok as (_ & _ & _ & Hids & _). rewrite (Hids _ _ Ha) in Hid.
    congruence.
  - apply descending_strict.
    + rewrite sort_perm. eapply sublist_NoDup; [apply (NoDup_keys (articles db))|].
      by apply live_ids_sublist.
    + apply sort_sorted; unfold cmp; intros; lia.
Qed.

Lemma getArticles_live_descending_witness :
  reachable two_live_one_deleted
  ∧ ∃ l, getArticles "/articles" (Request.mk None) two_live_one_deleted
         = Ok (two_live_one_deleted, Response.mk 200 (Some (body_articles l)))
    ∧ (∀ a, a ∈ l ↔ ∃ k, articles two_live_one_deleted !! k = Some (Some a))
    ∧ (∀ k a, articles two_live_one_deleted !! k = Some None → a ∈ l →
              Article.id a ≠ k)
    ∧ StronglySorted (λ a1 a2, Article.id a2 < Article.id a1) l.
Proof.
  split; [exact two_live_one_deleted_reachable|].
  exact (getArticles_live_descending two_live_one_deleted "/articles"
           (Request.mk None) two_live_one_deleted_reachable).
Defined.

(** ** Route resolution (C6) *)

Lemma split_nonempty s : split s ≠ [].
Proof.
  destruct s as [|c s]; simpl; [done|].
  destruct (Ascii.eqb c "/"); [done|]. by destruct (split s).
Qed.

(** [split] cuts at every separator and nowhere else: the pieces hold no
    separator, and joined by it they give the string back. *)
Lemma split_no_slash s : Forall (λ seg, has_slash seg = false) (split s).
Proof.
  induction s as [|c s IH]; simpl; [by repeat constructor|].
  destruct (Ascii.eqb c "/") eqn:Hc; [by constructor|].
  destruct (split s) as [|seg rest].
  { constructor; [simpl; by rewrite Hc | constructor]. }
  apply Forall_cons in IH as [Hseg Hrest].
  constructor; [|done]. simpl. by rewrite Hc, Hseg.
Qed.

Lemma concat_split s : String.concat "/" (split s) = s.
Proof.
  induction s as [|c s IH]; simpl; [done|].
  pose proof (split_nonempty s) as Hne.
  destruct (Ascii.eqb_spec c "/") as [->|Hc].
  - destruct (split s) as [|seg rest]; [done|].
    simpl in *. by rewrite IH.
  - destruct (split s) as [|seg rest]; [done|].
    destruct rest as [|seg' rest]; simpl in *; by rewrite <- IH.
Qed.

Lemma pathSegments_spec url :
  pathSegments url = filter (λ seg, seg ≠ "") (split url)
  ∧ Forall (λ seg, seg ≠ "" ∧ has_slash seg = false) (pathSegments url).
Proof.
  split.
  - unfold pathSegments. apply list_filter_iff. intros [|c s]; simpl; split; done.
  - unfold pathSegments. apply Forall_forall. intros seg Hseg.
    apply list_elem_of_filter in Hseg as [Ht Hin]. split.
    + by destruct seg.
    + pose proof (split_no_slash url) as Hall.
      rewrite Forall_forall in Hall. by apply Hall.
Qed.

Lemma is_literal_true v lit : is_literal v lit = true ↔ v = Some lit.
Proof.
  destruct v as [s|]; simpl; [|done].
  rewrite String.eqb_eq. split; [by intros -> | by intros [= ->]].
Qed.

(** C6: the path is cut into its non-empty segments, and the route is
    chosen by the four rules, in this order: one segment; a third segment
    [upvote] or [downvote]; a first segment [users]; anything else, where
    a missing first segment is rendered [undefined]. *)
Theorem getRequestRoute_rules url :
  let segments := pathSegments url in
  let vote := segments !! 2%nat = Some "upvote" ∨ segments !! 2%nat = Some "downvote" in
  (segments = filter (λ seg, seg ≠ "") (split url)
   ∧ String.concat "/" (split url) = url
   ∧ Forall (λ seg, seg ≠ "" ∧ has_slash seg = false) segments)
  ∧ (∀ segment, segments = [segment] → getRequestRoute url = "/" +:+ segment)
  ∧ (length segments ≠ 1%nat → vote →
     ∃ segment0 segment2,
       segments !! 0%nat = Some segment0 ∧ segments !! 2%nat = Some segment2
       ∧ getRequestRoute url = "/" +:+ segment0 +:+ "/:id/" +:+ segment2)
  ∧ (length segments ≠ 1%nat → ¬ vote → segments !! 0%nat = Some "users" →
     getRequestRoute url = "/users/:username")
  ∧ (length segments ≠ 1%nat → ¬ vote → segments !! 0%nat ≠ Some "users" →
     (∀ segment0, segments !! 0%nat = Some segment0 →
                  getRequestRoute url = "/" +:+ segment0 +:+ "/:id")
     ∧ (segments = [] → getRequestRoute url = "/undefined/:id")).
Proof.
  intros segments vote.
  assert (is_literal (segments !! 2%nat) "upvote"
          || is_literal (segments !! 2%nat) "downvote" = true ↔ vote) as Hvote.
  { rewrite orb_true_iff, !is_literal_true. done. }
  split_and!.
  - apply pathSegments_spec.
  - apply concat_split.
  - apply pathSegments_spec.
  - intros segment Hs. unfold getRequestRoute. fold segments. rewrite Hs. done.
  - intros Hlen Hv. unfold getRequestRoute. fold segments.
    apply Nat.eqb_neq in Hlen. rewrite Hlen.
    apply Hvote in Hv as Hb. rewrite Hb.
    assert (∃ segment2, segments !! 2%nat = Some segment2) as [segment2 H2].
    { destruct Hv as [->| ->]; eauto. }
    destruct segments as [|segment0 rest]; [done|].
    exists segment0, segment2. rewrite H2. done.
  - intros Hlen Hv Hu. unfold getRequestRoute. fold segments.
    apply Nat.eqb_neq in Hlen. rewrite Hlen.
    assert (is_literal (segments !! 2%nat) "upvote"
            || is_literal (segments !! 2%nat) "downvote" = false) as Hb.
    { apply not_true_iff_false. by rewrite Hvote. }
    rewrite Hb.
    apply is_literal_true in Hu as Hl. rewrite Hl, Hu. done.
  - intros Hlen Hv Hu. unfold getRequestRoute. fold segments.
    apply Nat.eqb_neq in Hlen. rewrite Hlen.
    assert (is_literal (segments !! 2%nat) "upvote"
            || is_literal (segments !! 2%nat) "downvote" = false) as Hb.
    { apply not_true_iff_false. by rewrite Hvote. }
    rewrite Hb.
    destruct (is_literal (segments !! 0%nat) "users") eqn:Hl.
    { by apply is_literal_true in Hl. }
    split.
    + intros segment0 ->. done.
    + intros ->. done.
Qed.

Lemma getRequestRoute_rules_witness :
  pathSegments "/comments/7/downvote" = ["comments"; "7"; "downvote"]
  ∧ getRequestRoute "/comments/7/downvote" = "/comments/:id/downvote"
  ∧ getRequestRoute "/users/alice" = "/users/:username".
Proof.
  split; [reflexivity|]. split.
  - destruct (proj1 (proj2 (proj2 (getRequestRoute_rules "/comments/7/downvote"))))
      as (s0 & s2 & H0 & H2 & Hroute).
    + vm_compute. lia.
    + right. reflexivity.
    + vm_compute in H0, H2. injection H0 as <-. injection H2 as <-. exact Hroute.
  - apply (proj1 (proj2 (proj2 (proj2 (getRequestRoute_rules "/users/alice"))))).
    + vm_compute. lia.
    + vm_compute. intros [H|H]; discriminate H.
    + reflexivity.
Defined.

(** ** Updating an article (C7) *)

Lemma same_but_article_insert db k x :
  same_but_article k db (set_articles (<[k := x]> (articles db)) db).
Proof.
  unfold same_but_article. simpl. split_and!; try done.
  intros k' Hne. by apply lookup_insert_ne.
Qed.

Lemma same_but_comment_insert db k x :
  same_but_comment k db (set_comments (<[k := x]> (comments db)) db).
Proof.
  unfold same_but_comment. simpl. split_and!; try done.
  intros k' Hne. by apply lookup_insert_ne.
Qed.

Lemma or_else_spec f old :
  (∀ s, f = Some s → s ≠ "" → or_else f old = s)
  ∧ (f = None ∨ f = Some "" → or_else f old = old)
  ∧ (old ≠ "" → or_else f old ≠ "").
Proof.
  unfold or_else, truthy_field. destruct f as [[|c s]|]; simpl; split_and!;
    try done; try (intros ? [= <-]; done); try (intros [|]; done).
Qed.

(** C7: on a live article, [updateArticle] with a request that carries
    an article patch answers 200, overwrites [title] and [url] with the
    non-empty values of the patch and keeps the stored value where the
    patch has none or an empty one, so a non-empty field stays non-empty;
    nothing else of the article or of the store changes.  Without a
    patch it answers 400 and changes nothing. *)
Theorem updateArticle_patch db url request k a :
  reachable db →
  Number (segment1 url) = JInt k →
  articles db !! k = Some (Some a) →
  (Request.body request ≫= Body.article = None →
   updateArticle url request db = Ok (db, Response.mk 400 None))
  ∧ (∀ patch, Request.body request ≫= Body.article = Some patch →
     ∃ db' a',
       updateArticle url request db
       = Ok (db', Response.mk 200 (Some (body_article a')))
       ∧ articles db' !! k = Some (Some a')
       ∧ same_but_article k db db'
       ∧ article_same_but_text a a'
       ∧ (∀ s, RequestArticle.title patch = Some s → s ≠ "" → Article.title a' = s)
       ∧ (RequestArticle.title patch = None ∨ RequestArticle.title patch = Some "" →
          Article.title a' = Article.title a)
       ∧ (∀ s, RequestArticle.url patch = Some s → s ≠ "" → Article.url a' = s)
       ∧ (RequestArticle.url patch = None ∨ RequestArticle.url patch = Some "" →
          Article.url a' = Article.url a)
       ∧ (Article.title a ≠ "" → Article.title a' ≠ "")
       ∧ (Article.url a ≠ "" → Article.url a' ≠ "")).
Proof.
  intros Hdb%reachable_ids_ok Hid Hk.
  destruct Hdb as (_ & _ & Hak & _).
  assert (num_truthy (JInt k) = true) as Htruthy.
  { simpl. apply Hak in Hk. destruct (Z.eqb_spec k 0); [lia | done]. }
  split.
  { intros Hnone. unfold updateArticle. rewrite Hnone, Hid, Htruthy. done. }
  intros patch Hpatch.
  unfold updateArticle. rewrite Hpatch, Hid, Htruthy.
  rewrite (proj2 (live_at_Some _ _ _ _) (conj eq_refl Hk)).
  eexists _, _. split; [reflexivity|].
  destruct (or_else_spec (RequestArticle.title patch) (Article.title a))
    as (Ht1 & Ht2 & Ht3).
  destruct (or_else_spec (RequestArticle.url patch) (Article.url a))
    as (Hu1 & Hu2 & Hu3).
  split_and!; simpl; try done.
  - apply lookup_insert_eq.
  - apply same_but_article_insert.
Qed.

Lemma updateArticle_patch_witness :
  reachable two_live_one_deleted
  ∧ ∃ db' a',
      updateArticle "/articles/3" (patch_title "New") two_live_one_deleted
      = Ok (db', Response.mk 200 (Some (body_article a')))
      ∧ Article.title a' = "New" ∧ Article.url a' = "http://c".
Proof.
  split; [exact two_live_one_deleted_reachable|].
  destruct (updateArticle_patch two_live_one_deleted "/articles/3"
              (patch_title "New") 3
              (Article.mk 3 "C" "http://c" "alice" [] [] [] None)
              two_live_one_deleted_reachable eq_refl eq_refl)
    as [_ Hpatch].
  destruct (Hpatch (RequestArticle.mk (Some "New") (Some "") None) eq_refl)
    as (db' & a' & Hrun & _ & _ & _ & Htitle & _ & _ & Hurl & _).
  exists db', a'. split; [exact Hrun|]. split.
  - apply Htitle; [reflexivity | discriminate].
  - apply Hurl. right. reflexivity.
Defined.

(** ** Reading an article (C8, C9) *)

(** C8, as stated, fails: [0] is a numeric id that was never created,
    and [GET /articles/0] answers 400, not 404. *)
Lemma getArticle_zero_400 :
  Number (segment1 "/articles/0") = JInt 0
  ∧ articles database !! 0 = None
  ∧ getArticle "/articles/0" (Request.mk None) database
    = Ok (database, Response.mk 400 None)
  ∧ getArticle "/articles/0" (Request.mk None) database
    ≠ Ok (database, Response.mk 404 None).
Proof. vm_compute. split_and!; try reflexivity. discriminate. Qed.

(** C8, amended: [getArticle] answers 404 with no body when the segment
    is a number other than [0] under which no live article is stored (a
    non-zero integer never created or deleted, a fraction, an infinity),
    and 400 with no body when the number is falsy ([NaN] for a segment
    that is no number, or [0], which a segment such as [1e-400] rounds
    to as well); the store is unchanged in both cases. *)
Theorem getArticle_errors db url request :
  reachable db →
  (∀ k, Number (segment1 url) = JInt k → k ≠ 0 →
        articles db !! k = None ∨ articles db !! k = Some None →
        getArticle url request db = Ok (db, Response.mk 404 None))
  ∧ (Number (segment1 url) = JOther →
     getArticle url request db = Ok (db, Response.mk 404 None))
  ∧ (Number (segment1 url) = JNaN ∨ Number (segment1 url) = JInt 0 →
     getArticle url request db = Ok (db, Response.mk 400 None)).
Proof.
  intros Hdb%reachable_ids_ok. destruct Hdb as (_ & _ & Hak & _).
  unfold getArticle. split_and!.
  - intros k -> Hk Hdead. rewrite (proj2 (live_at_None_int _ _) Hdead). simpl.
    destruct (Z.eqb_spec k 0); done.
  - intros ->. done.
  - intros [-> | ->]; [done|].
    destruct (live_at (articles db) (JInt 0)) as [[k a]|] eqn:Hlive; [|done].
    apply live_at_Some in Hlive as [[= <-] Hk]. apply Hak in Hk. lia.
Qed.

Lemma getArticle_errors_witness :
  reachable two_live_one_deleted
  ∧ getArticle "/articles/999" (Request.mk None) two_live_one_deleted
    = Ok (two_live_one_deleted, Response.mk 404 None)
  ∧ getArticle "/articles/2" (Request.mk None) two_live_one_deleted
    = Ok (two_live_one_deleted, Response.mk 404 None)
  ∧ getArticle "/articles/abc" (Request.mk None) two_live_one_deleted
    = Ok (two_live_one_deleted, Response.mk 400 None)
  ∧ getArticle "/articles/1e-400" (Request.mk None) two_live_one_deleted
    = Ok (two_live_one_deleted, Response.mk 400 None)
  ∧ getArticle "/articles/1.5" (Request.mk None) two_live_one_deleted
    = Ok (two_live_one_deleted, Response.mk 404 None).
Proof.
  split; [exact two_live_one_deleted_reachable|].
  destruct (getArticle_errors two_live_one_deleted "/articles/1e-400"
              (Request.mk None) two_live_one_deleted_reachable) as (_ & _ & Htiny).
  destruct (getArticle_errors two_live_one_deleted "/articles/1.5"
              (Request.mk None) two_live_one_deleted_reachable) as (_ & Hhalf & _).
  destruct (getArticle_errors two_live_one_deleted "/articles/999"
              (Request.mk None) two_live_one_deleted_reachable) as (H999 & _ & _).
  destruct (getArticle_errors two_live_one_deleted "/articles/2"
              (Request.mk None) two_live_one_deleted_reachable) as (H2 & _ & _).
  destruct (getArticle_errors two_live_one_deleted "/articles/abc"
              (Request.mk None) two_live_one_deleted_reachable) as (_ & _ & Habc).
  split_and!.
  - apply (H999 999); [reflexivity | lia | left; reflexivity].
  - apply (H2 2); [reflexivity | lia | right; reflexivity].
  - apply Habc. left. reflexivity.
  - apply Htiny. right. vm_compute. reflexivity.
  - apply Hhalf. vm_compute. reflexivity.
Defined.

(** C9, as stated, fails: after [GET /articles/2] the stored article
    carries a [comments] field, which holds the comment object of its
    comment 1. *)
Lemma getArticle_stores_comments :
  ∃ db' response a,
    getArticle "/articles/2" (Request.mk None) crossed_store = Ok (db', response)
    ∧ articles db' !! 2 = Some (Some a)
    ∧ Article.comments a = Some [obj 1]
    ∧ Article.comments a ≠ None.
Proof. eexists _, _, _. vm_compute. split_and!; try reflexivity. discriminate. Qed.

(** C9, amended: [getArticle] writes the [comments] field on the stored
    article itself.  After the read of a live article the stored record
    and the record of the response are the same: the article as it was,
    with a [comments] field that holds, for each id of [commentIds] in
    order, what [database.comments] holds under it at that moment (a
    reference to the comment object, [null], or [undefined]).  Nothing
    else in the store changes, and a second read leaves the store as the
    first left it.  An article that was just created has no [comments]
    field. *)
Theorem getArticle_writes_comments db url request k a :
  Number (segment1 url) = JInt k →
  articles db !! k = Some (Some a) →
  ∃ db' a',
    getArticle url request db
    = Ok (db', Response.mk 200 (Some (body_article a')))
    ∧ articles db' !! k = Some (Some a')
    ∧ same_but_article k db db'
    ∧ article_same_but_comments a a'
    ∧ (∃ refs, Article.comments a' = Some refs
         ∧ length refs = length (Article.commentIds a)
         ∧ ∀ (i : nat) commentId, Article.commentIds a !! i = Some commentId →
             refs !! i = Some (match comments db !! commentId with
                               | Some (Some c) => obj (Comment.id c)
                               | Some None => null
                               | None => undefined
                               end))
    ∧ getArticle url request db'
      = Ok (db', Response.mk 200 (Some (body_article a')))
    ∧ (∀ url0 request0 db0 db1 a1,
         createArticle url0 request0 db0
         = Ok (db1, Response.mk 201 (Some (body_article a1))) →
         Article.comments a1 = None
         ∧ articles db1 !! Article.id a1 = Some (Some a1)).
Proof.
  intros Hid Hk.
  unfold getArticle. rewrite Hid.
  rewrite (proj2 (live_at_Some _ _ _ _) (conj eq_refl Hk)).
  eexists _, _. split; [reflexivity|]. split_and!.
  - simpl. apply lookup_insert_eq.
  - apply same_but_article_insert.
  - done.
  - eexists. split; [reflexivity|]. split; [by rewrite length_map|].
    intros i commentId Hi. rewrite list_lookup_fmap, Hi. simpl.
    by destruct (comments db !! commentId) as [[c|]|].
  - simpl. unfold live_at. rewrite lookup_insert_eq. simpl.
    rewrite insert_insert_eq. done.
  - intros url0 request0 db0 db1 a1 Hcreate.
    unfold createArticle in Hcreate. case_match; [|done].
    repeat case_match; simplify_eq/=. split; [done|].
    apply lookup_insert_eq.
Qed.

Lemma getArticle_writes_comments_witness :
  ∃ db' a',
    getArticle "/articles/2" (Request.mk None) crossed_store
    = Ok (db', Response.mk 200 (Some (body_article a')))
    ∧ articles db' !! 2 = Some (Some a')
    ∧ same_but_article 2 crossed_store db'.
Proof.
  destruct (getArticle_writes_comments crossed_store "/articles/2"
              (Request.mk None) 2
              (Article.mk 2 "B" "http://b" "alice" [1] [] [] None)
              eq_refl eq_refl)
    as (db' & a' & Hrun & Hk & Hframe & _).
  exists db', a'. split; [exact Hrun|]. split; [exact Hk | exact Hframe].
Defined.

(** ** Vote handlers (C10) *)

(** C10: called for a live article or comment with the username of an
    existing user, each of the four vote handlers answers 200 with the
    voted entity, which is the stored one with at most its two vote
    arrays changed; every other article and comment, the users and both
    counters are as they were. *)
Theorem vote_handlers_frame db url request k :
  Number (segment1 url) = JInt k →
  is_Some (read_user (users db) (request_username request)) →
  (∀ a, articles db !! k = Some (Some a) →
     (∃ db' a',
        upvoteArticle url request db
        = Ok (db', Response.mk 200 (Some (body_article a')))
        ∧ a' = upvote a (request_username request)
        ∧ articles db' !! k = Some (Some a')
        ∧ article_same_but_votes a a' ∧ same_but_article k db db')
     ∧ (∃ db' a',
          downvoteArticle url request db
          = Ok (db', Response.mk 200 (Some (body_article a')))
          ∧ a' = downvote a (request_username request)
          ∧ articles db' !! k = Some (Some a')
          ∧ article_same_but_votes a a' ∧ same_but_article k db db'))
  ∧ (∀ c, comments db !! k = Some (Some c) →
       (∃ db' c',
          upvoteComment url request db
          = Ok (db', Response.mk 200 (Some (body_comment c')))
          ∧ c' = upvote c (request_username request)
          ∧ comments db' !! k = Some (Some c')
          ∧ comment_same_but_votes c c' ∧ same_but_comment k db db')
       ∧ (∃ db' c',
            downvoteComment url request db
            = Ok (db', Response.mk 200 (Some (body_comment c')))
            ∧ c' = downvote c (request_username request)
            ∧ comments db' !! k = Some (Some c')
            ∧ comment_same_but_votes c c' ∧ same_but_comment k db db')).
Proof.
  intros Hid [user Huser].
  assert (known (users_at (users db) (request_username request)) = true) as Hknown.
  { unfold users_at. by rewrite Huser. }
  clear Huser. rename Hknown into Huser. split.
  - intros a Hk.
    pose proof (proj2 (live_at_Some _ _ _ _) (conj eq_refl Hk)) as Hlive.
    split.
    + unfold upvoteArticle. rewrite Hid, Hlive, Huser.
      eexists _, _. split; [reflexivity|]. split; [reflexivity|].
      split; [apply lookup_insert_eq|].
      split; [apply article_votes_only | apply same_but_article_insert].
    + unfold downvoteArticle. rewrite Hid, Hlive, Huser.
      eexists _, _. split; [reflexivity|]. split; [reflexivity|].
      split; [apply lookup_insert_eq|].
      split; [apply article_votes_only | apply same_but_article_insert].
  - intros c Hk.
    pose proof (proj2 (live_at_Some _ _ _ _) (conj eq_refl Hk)) as Hlive.
    split.
    + unfold upvoteComment. rewrite Hid, Hlive, Huser.
      eexists _, _. split; [reflexivity|]. split; [reflexivity|].
      split; [apply lookup_insert_eq|].
      split; [apply comment_votes_only | apply same_but_comment_insert].
    + unfold downvoteComment. rewrite Hid, Hlive, Huser.
      eexists _, _. split; [reflexivity|]. split; [reflexivity|].
      split; [apply lookup_insert_eq|].
      split; [apply comment_votes_only | apply same_but_comment_insert].
Qed.

Lemma vote_handlers_frame_witness :
  ∃ db' a',
    upvoteArticle "/articles/2/upvote"
      (Request.mk (Some (Body.mk (NStr "alice") None None))) crossed_store
    = Ok (db', Response.mk 200 (Some (body_article a')))
    ∧ Article.upvotedBy a' = [NStr "alice"]
    ∧ article_same_but_votes
        (Article.mk 2 "B" "http://b" "alice" [1] [] [] None) a'
    ∧ same_but_article 2 crossed_store db'.
Proof.
  destruct (vote_handlers_frame crossed_store "/articles/2/upvote"
              (Request.mk (Some (Body.mk (NStr "alice") None None))) 2
              eq_refl (ex_intro _ (User.mk "alice" [1; 2] [1; 2]) eq_refl))
    as [Harticle _].
  destruct (Harticle (Article.mk 2 "B" "http://b" "alice" [1] [] [] None) eq_refl)
    as [(db' & a' & Hrun & Ha' & _ & Hsame & Hframe) _].
  exists db', a'. split; [exact Hrun|].
  split; [rewrite Ha'; reflexivity|]. split; [exact Hsame | exact Hframe].
Defined.

(** ** Deleting an article (C1) *)

(** C1 fails on the code.  After [crossed_comments], user alice wrote
    comment 1 on article 2 and comment 2 on article 1.  [DELETE
    /articles/2] answers 204, deletes article 2 and its comment 1 and
    takes 2 out of alice's [articleIds], but the [forEach] splices her
    [commentIds] at [indexOf(id)], the id of the article, not of the
    comment: it removes the live comment 2 and leaves the id of the
    deleted comment 1, which [GET /users/alice] then shows with [null]
    for the comment. *)
Theorem deleteArticle_splices_article_id :
  run crossed_comments database
  = Ok (crossed_store,
        [(GetOrCreateUser, Response.mk 201 (Some (body_user (User.mk "alice" [] []))));
         (CreateArticle, Response.mk 201
            (Some (body_article (Article.mk 1 "A" "http://a" "alice" [] [] [] None))));
         (CreateArticle, Response.mk 201
            (Some (body_article (Article.mk 2 "B" "http://b" "alice" [] [] [] None))));
         (CreateComment, Response.mk 201
            (Some (body_comment (Comment.mk 1 "first" "alice" 2 [] []))));
         (CreateComment, Response.mk 201
            (Some (body_comment (Comment.mk 2 "second" "alice" 1 [] []))))])
  ∧ ∃ db',
      deleteArticle "/articles/2" (Request.mk None) crossed_store
      = Ok (db', Response.mk 204 None)
      ∧ articles db' !! 2 = Some None
      ∧ comments db' !! 1 = Some None
      ∧ comments db' !! 2 = Some (Some (Comment.mk 2 "second" "alice" 1 [] []))
      ∧ users db' !! "alice" = Some (User.mk "alice" [1] [1])
      ∧ getUser "/users/alice" (Request.mk None) db'
        = Ok (db', Response.mk 200
                (Some (body_user_full (User.mk "alice" [1] [1])
                   [obj (Article.mk 1 "A" "http://a" "alice" [2] [] [] None)]
                   [null]))).
Proof.
  split; [vm_compute; reflexivity|].
  eexists. split; [vm_compute; reflexivity|].
  vm_compute. split_and!; reflexivity.
Qed.

(** * Further properties of the handlers *)

(** ** Error responses *)

(** What [requestHandler] comes down to: the answer to [OPTIONS], the
    answer to an unknown route or method, or the call of a handler. *)
Lemma requestHandler_cases method url body db db' response :
  requestHandler method url body db = Ok (db', response) →
  (db' = db ∧ response = Response.mk 200 None ∧ method = "OPTIONS")
  ∨ (db' = db ∧ response = Response.mk 400 None
     ∧ (property routes (getRequestRoute url)
          ≫= λ methods, property methods method) = None)
  ∨ ∃ h request,
      (property routes (getRequestRoute url)
         ≫= λ methods, property methods method) = Some h
      ∧ step (mkCall h url request) db = Ok (db', response).
Proof.
  unfold requestHandler. intros Hrun.
  destruct (String.eqb_spec method "OPTIONS") as [->|Hm].
  { left. by simplify_eq. }
  destruct (property routes (getRequestRoute url)
              ≫= λ methods, property methods method) as [h|] eqn:Hroute.
  - right. right. destruct (_ || _); by eexists h, _.
  - right. left. by simplify_eq.
Qed.

(** X1. A call that answers 400 or 404 has no body and leaves the store
    as it was, through a handler and through [requestHandler]. *)
Theorem error_leaves_store :
  (∀ c db db' response,
     step c db = Ok (db', response) →
     Response.status response = 400 ∨ Response.status response = 404 →
     db' = db ∧ Response.body response = None)
  ∧ (∀ method url body db db' response,
       requestHandler method url body db = Ok (db', response) →
       Response.status response = 400 ∨ Response.status response = 404 →
       db' = db ∧ Response.body response = None).
Proof.
  assert (∀ c db db' response,
     step c db = Ok (db', response) →
     Response.status response = 400 ∨ Response.status response = 404 →
     db' = db ∧ Response.body response = None) as Hstep.
  { intros [h url request] db db' response Hrun Hstatus.
    destruct h; handler_cases Hrun; simpl in Hstatus;
      try (destruct Hstatus; discriminate); done. }
  split; [exact Hstep|].
  intros method url body db db' response Hrun Hstatus.
  apply requestHandler_cases in Hrun
    as [(-> & -> & _)|[(-> & -> & _)|(h & request & _ & Hrun)]]; [done..|].
  by eapply Hstep.
Qed.

Lemma error_leaves_store_witness :
  requestHandler "GET" "/articles/2" None two_live_one_deleted
  = Ok (two_live_one_deleted, Response.mk 404 None)
  ∧ two_live_one_deleted = two_live_one_deleted
  ∧ Response.body (Response.mk 404 None) = None.
Proof.
  split; [vm_compute; reflexivity|].
  apply (proj2 error_leaves_store "GET" "/articles/2" None two_live_one_deleted
           two_live_one_deleted (Response.mk 404 None)).
  - vm_compute. reflexivity.
  - right. reflexivity.
Defined.

(** ** Identities *)

Lemma user_articles_agree_refl x : user_articles_agree x x.
Proof. by destruct x. Qed.

Lemma cascade_step_users id db commentId db' :
  cascade_step id db commentId = Ok db' →
  ∀ u, user_articles_agree (users db !! u) (users db' !! u).
Proof.
  unfold cascade_step, read. intros Hstep u.
  destruct (comments db !! commentId) as [[c|]|]; simplify_eq/=.
  destruct (users db !! Comment.username c) as [usr|] eqn:Husr; simplify_eq/=.
  rewrite lookup_insert. case_decide; [|apply user_articles_agree_refl].
  subst u. by rewrite Husr.
Qed.

Lemma user_articles_agree_trans x y z :
  user_articles_agree x y → user_articles_agree y z → user_articles_agree x z.
Proof.
  destruct x, y, z; simpl; try done. intros [? ?] [? ?]. split; congruence.
Qed.

Lemma cascade_users id commentIds db db' :
  cascade id commentIds db = Ok db' →
  ∀ u, user_articles_agree (users db !! u) (users db' !! u).
Proof.
  revert db. induction commentIds as [|commentId rest IH]; intros db Hrun u.
  - simpl in Hrun. simplify_eq. apply user_articles_agree_refl.
  - simpl in Hrun.
    destruct (cascade_step id db commentId) as [db1|] eqn:Hstep; simplify_eq/=.
    eapply user_articles_agree_trans; [by eapply cascade_step_users | by eapply IH].
Qed.

Lemma same_article_vote (a : Article.t) u :
  same_article a (upvote a u) ∧ same_article a (downvote a u).
Proof.
  destruct (article_votes_only a u) as [(? & _ & _ & ? & _) (? & _ & _ & ? & _)].
  done.
Qed.

Lemma same_comment_vote (c : Comment.t) u :
  same_comment c (upvote c u) ∧ same_comment c (downvote c u).
Proof.
  destruct (comment_votes_only c u) as [(? & _ & ? & ?) (? & _ & ? & ?)].
  done.
Qed.

Lemma step_identities db c db' response :
  ids_ok db → step c db = Ok (db', response) → identities_kept db db'.
Proof.
  intros (Hna & Hnc & Hak & Hai & Hck & Hci) Hstep. destruct c as [h url request].
  destruct h; handler_cases Hstep;
    try match goal with
        | E : cascade _ _ _ = Ok _ |- _ =>
            pose proof (cascade_users _ _ _ _ E) as Hus;
            apply cascade_frame in E as (Ea & _ & _ & Ec); simpl in Ea, Ec, Hus
        end.
  all: unfold identities_kept, same_user, same_article, same_comment;
       split_and!; simpl.
  all: try (intros u usr Hu; try (specialize (Hus u); rewrite Hu in Hus);
            repeat (rewrite lookup_insert; case_decide; subst);
            simplify_eq/=;
            try (destruct (users _ !! _) as [usr1|] eqn:Hu1; [|done];
                 destruct Hus as [Hname _]; simplify_eq/=);
            by eexists; split; [first [eassumption | reflexivity]|]).
  all: try (intros k e Hk; rewrite ?Ea;
            try (destruct (Ec k) as [Heq|(_ & _ & Heq)]; rewrite Heq);
            repeat (rewrite lookup_insert; case_decide; subst);
            simplify_eq/=;
            try (first [ apply Hak in Hk | apply Hck in Hk ]; lia);
            first
              [ by left
              | right; eexists; split; [first [eassumption | reflexivity]|];
                first [ apply same_article_vote | apply same_comment_vote | done ] ]).
  intros u usr Hu. specialize (Hus u) as Hu'. rewrite Hu in Hu'.
  rewrite lookup_insert. case_decide; subst.
  - specialize (Hus (Article.username t)). rewrite Hu, E1 in Hus.
    destruct Hus as [Hname _]. by eexists.
  - destruct (users a !! u) as [usr1|]; [|done]. destruct Hu' as [Hname _].
    by eexists.
Qed.

Lemma identities_kept_refl db : identities_kept db db.
Proof.
  unfold identities_kept, same_user, same_article, same_comment.
  split_and!; intros; eauto 10.
Qed.

Lemma run_identities calls db db' trace :
  ids_ok db → run calls db = Ok (db', trace) → identities_kept db db'.
Proof.
  revert db trace. induction calls as [|c calls IH]; intros db trace Hok Hrun.
  - simpl in Hrun. simplify_eq. apply identities_kept_refl.
  - rewrite run_cons in Hrun.
    destruct (step c db) as [[db1 response]|] eqn:Hstep; [|done].
    destruct (run calls db1) as [[db2 trace']|] eqn:Hrest; simplify_eq.
    destruct (step_ids _ _ _ _ Hok Hstep) as (Hok1 & _).
    destruct (run_ids _ _ _ _ Hok1 Hrest) as (_ & _ & _ & _ & _ & _ & _ & Hta & Htc).
    destruct (step_identities _ _ _ _ Hok Hstep) as (Hu & Ha & Hc).
    destruct (IH _ _ Hok1 Hrest) as (Hu' & Ha' & Hc').
    unfold identities_kept, same_user, same_article, same_comment in *.
    split_and!.
    + intros u usr (usr1 & H1 & E1)%Hu. destruct (Hu' _ _ H1) as (usr2 & H2 & E2).
      exists usr2. split; [done | congruence].
    + intros k a [H1|(a1 & H1 & E1 & F1)]%Ha; [left; by apply Hta|].
      destruct (Ha' _ _ H1) as [H2|(a2 & H2 & E2 & F2)]; [by left|].
      right. exists a2. split; [done|]. split; congruence.
    + intros k c0 [H1|(c1 & H1 & E1 & F1 & G1)]%Hc; [left; by apply Htc|].
      destruct (Hc' _ _ H1) as [H2|(c2 & H2 & E2 & F2 & G2)]; [by left|].
      right. exists c2. split; [done|]. split_and!; congruence.
Qed.

Lemma crossed_store_reachable : reachable crossed_store.
Proof.
  apply (run_reachable crossed_comments database crossed_store
           (match run crossed_comments database with
            | Ok (_, trace) => trace
            | Throw => []
            end)); [apply reachable_init | vm_compute; reflexivity].
Defined.

(** X2. Along any run from a reachable store no user is removed or
    renamed, a live article either stays live with the same [id] and
    [username] or becomes [null], and a live comment either stays live
    with the same [id], [username] and [articleId] or becomes [null]. *)
Theorem identities_never_change db calls db' trace :
  reachable db → run calls db = Ok (db', trace) → identities_kept db db'.
Proof. intros Hdb%reachable_ids_ok. by apply run_identities. Qed.

Lemma identities_never_change_witness :
  reachable crossed_store
  ∧ ∃ db' trace,
      run [get DeleteArticle "/articles/2";
           put_vote UpvoteComment "/comments/2/upvote" "alice";
           post_user "bob"] crossed_store = Ok (db', trace)
      ∧ articles db' !! 2 = Some None
      ∧ identities_kept crossed_store db'.
Proof.
  split; [exact crossed_store_reachable|].
  eexists _, _. split; [vm_compute; reflexivity|]. split; [reflexivity|].
  eapply (identities_never_change crossed_store
            [get DeleteArticle "/articles/2";
             put_vote UpvoteComment "/comments/2/upvote" "alice";
             post_user "bob"]);
    [exact crossed_store_reachable | vm_compute; reflexivity].
Defined.

(** ** Users and their articles *)

Lemma article_owner_agree_refl x : article_owner_agree x x.
Proof. by destruct x as [[a|]|]. Qed.

Lemma users_ok_agree db db' :
  (∀ u, user_articles_agree (users db !! u) (users db' !! u)) →
  (∀ k, article_owner_agree (articles db !! k) (articles db' !! k)) →
  users_ok db → users_ok db'.
Proof.
  intros Hus Harts (Hu & Hua & Hau).
  assert (∀ u usr', users db' !! u = Some usr' →
            ∃ usr, users db !! u = Some usr
                   ∧ User.username usr' = User.username usr
                   ∧ User.articleIds usr' = User.articleIds usr) as Hback.
  { intros u usr' Hk. specialize (Hus u). rewrite Hk in Hus.
    destruct (users db !! u) as [usr|]; [|done]. by exists usr. }
  split_and!.
  - intros u usr' (usr & Hk & -> & ->)%Hback. by apply Hu.
  - intros u usr' k (usr & Hk & _ & ->)%Hback Hin.
    destruct (Hua _ _ _ Hk Hin) as (a & Ha & Hname).
    specialize (Harts k). rewrite Ha in Harts.
    destruct (articles db' !! k) as [[a'|]|]; try done.
    exists a'. split; [done | congruence].
  - intros k a' Hk. specialize (Harts k). rewrite Hk in Harts.
    destruct (articles db !! k) as [[a|]|] eqn:Ha; try done.
    destruct (Hau _ _ Ha) as (usr & Husr & Hin).
    specialize (Hus (Article.username a)). rewrite Husr in Hus.
    rewrite Harts.
    destruct (users db' !! Article.username a) as [usr'|]; [|done].
    exists usr'. split; [done|]. destruct Hus as [_ ->]. done.
Qed.

Lemma getOrCreateUser_users_ok url request db db' response :
  users_ok db →
  getOrCreateUser url request db = Ok (db', response) → users_ok db'.
Proof.
  intros (Hu & Hua & Hau) Hstep. unfold getOrCreateUser in Hstep.
  destruct (users_at (users db) (request_username request)) as [usr| |] eqn:Hnew;
    [by simplify_eq..|].
  apply users_at_no_user in Hnew as [Hnew _].
  destruct (name_truthy (request_username request)); [|by simplify_eq].
  simplify_eq/=. split_and!; simpl.
  - intros u usr Hk. rewrite lookup_insert in Hk. case_decide; simplify_eq/=.
    + split; [done | constructor].
    + by apply Hu.
  - intros u usr k Hk Hin. rewrite lookup_insert in Hk.
    case_decide; simplify_eq/=; [by apply elem_of_nil in Hin|]. eauto.
  - intros k a Hk. destruct (Hau _ _ Hk) as (usr & Husr & Hin).
    exists usr. split; [|done]. rewrite lookup_insert_ne; [done|]. congruence.
Qed.

Lemma createArticle_users_ok url request db db' response :
  ids_ok db → users_ok db →
  createArticle url request db = Ok (db', response) → users_ok db'.
Proof.
  intros (_ & _ & Hak & _) (Hu & Hua & Hau) Hstep.
  unfold createArticle in Hstep.
  case_match eqn:Hvalid; [|by simplify_eq].
  repeat case_match; simplify_option_eq.
  match goal with E : users_at _ (NStr ?s) = own_user ?x |- _ =>
    apply users_at_own in E; simpl in E;
    rename E into Huser; rename s into author; rename x into user end.
  assert (∀ u usr k, users db !! u = Some usr → k ∈ User.articleIds usr →
            k ≠ nextArticleId db) as Hfresh.
  { intros u usr k Hk Hin ->. destruct (Hua _ _ _ Hk Hin) as (a & Ha & _).
    apply Hak in Ha. lia. }
  split_and!; simpl.
  - intros u usr Hk. rewrite lookup_insert in Hk. case_decide; simplify_eq/=.
    + destruct (Hu _ _ Huser) as [Hname Hnd]. split; [done|].
      apply NoDup_push; [done|]. intros Hin. by eapply Hfresh.
    + by apply Hu.
  - intros u usr k Hk Hin. rewrite lookup_insert in Hk.
    case_decide; simplify_eq/=.
    + apply elem_of_push in Hin as [Hin| ->].
      * rewrite lookup_insert_ne by (intros <-; by eapply Hfresh). eauto.
      * rewrite lookup_insert_eq. by eexists.
    + rewrite lookup_insert_ne by (intros <-; by eapply Hfresh). eauto.
  - intros k a Hk. rewrite lookup_insert in Hk. case_decide; simplify_eq/=.
    + rewrite lookup_insert_eq. eexists. split; [done|]. simpl.
      apply elem_of_push. by right.
    + destruct (Hau _ _ Hk) as (usr & Husr & Hin).
      rewrite lookup_insert. case_decide; simplify_eq/=.
      * eexists. split; [done|]. simpl. apply elem_of_push. by left.
      * by exists usr.
Qed.

Lemma elem_of_remove_first_ne {A : Type} `{EqDecision A} (x y : A) (arr : list A) :
  y ≠ x → y ∈ remove_first x arr ↔ y ∈ arr.
Proof.
  intros Hne. induction arr as [|z arr IH]; simpl; [done|].
  destruct (decide (z = x)) as [->|Hz].
  - rewrite elem_of_cons. split; [by right | by intros [->|?]].
  - by rewrite !elem_of_cons, IH.
Qed.

Lemma deleteArticle_users_ok url request db db' response :
  users_ok db →
  deleteArticle url request db = Ok (db', response) → users_ok db'.
Proof.
  intros (Hu & Hua & Hau) Hstep. unfold deleteArticle in Hstep.
  destruct (live_at (articles db) (Number (segment1 url))) as [[z t]|] eqn:Hlive;
    [|by simplify_eq].
  apply live_at_Some in Hlive as [_ Hz].
  destruct (cascade z (Article.commentIds t) _) as [db1|] eqn:Hrun; [|done].
  unfold mbind, outcome_bind in Hstep.
  pose proof (cascade_users _ _ _ _ Hrun) as Hus.
  apply cascade_frame in Hrun as (Harts & _ & _ & _). simpl in *.
  destruct (users db1 !! Article.username t) as [author1|] eqn:Hauthor1; [|done].
  simplify_eq/=.
  destruct (Hau _ _ Hz) as (author & Hauthor & Hlisted).
  pose proof (Hus (Article.username t)) as Hagree.
  rewrite Hauthor, Hauthor1 in Hagree. destruct Hagree as [Hname Hids].
  rewrite Hids, (splice1_indexOf _ _ Hlisted).
  destruct (Hu _ _ Hauthor) as [Hkey Hnd].
  assert (∀ u usr, users db1 !! u = Some usr →
            ∃ usr0, users db !! u = Some usr0
                    ∧ User.username usr = User.username usr0
                    ∧ User.articleIds usr = User.articleIds usr0) as Hback.
  { intros u usr Hk. specialize (Hus u). rewrite Hk in Hus.
    destruct (users db !! u) as [usr0|]; [|done]. by exists usr0. }
  split_and!; simpl.
  - intros u usr Hk. rewrite lookup_insert in Hk. case_decide; simplify_eq/=.
    + split; [congruence | by apply NoDup_remove_first].
    + destruct (Hback _ _ Hk) as (usr0 & Hk0 & -> & ->). by apply Hu.
  - intros u usr k Hk Hin. rewrite Harts. rewrite lookup_insert in Hk.
    case_decide; simplify_eq/=.
    + apply elem_of_remove_first in Hin as [Hin Hne]; [|done].
      rewrite lookup_insert_ne by done. eauto.
    + destruct (Hback _ _ Hk) as (usr0 & Hk0 & _ & Hids0). rewrite Hids0 in Hin.
      destruct (Hua _ _ _ Hk0 Hin) as (a & Ha & Hname0).
      rewrite lookup_insert_ne; [eauto|]. intros <-. simplify_eq.
  - intros k a Hk. rewrite Harts in Hk. rewrite lookup_insert in Hk.
    case_decide; simplify_eq/=.
    destruct (Hau _ _ Hk) as (usr & Husr & Hin).
    rewrite lookup_insert. case_decide as Hsame.
    + eexists. split; [done|]. simpl. rewrite Hsame in Hauthor.
      simplify_eq. by apply elem_of_remove_first_ne.
    + specialize (Hus (Article.username a)). rewrite Husr in Hus.
      destruct (users db1 !! Article.username a) as [usr1|]; [|done].
      exists usr1. split; [done|]. destruct Hus as [_ ->]. done.
Qed.

Lemma article_owner_agree_vote (a : Article.t) u :
  article_owner_agree (Some (Some a)) (Some (Some (upvote a u)))
  ∧ article_owner_agree (Some (Some a)) (Some (Some (downvote a u))).
Proof.
  destruct (article_votes_only a u) as [(_ & _ & _ & ? & _) (_ & _ & _ & ? & _)].
  done.
Qed.

Lemma step_users_ok db c db' response :
  ids_ok db → users_ok db → step c db = Ok (db', response) → users_ok db'.
Proof.
  intros Hids Hok Hstep. destruct c as [h url request].
  destruct h; unfold step, call in Hstep; simpl in Hstep;
    try (by eapply getOrCreateUser_users_ok);
    try (by eapply createArticle_users_ok);
    try (by eapply deleteArticle_users_ok).
  all: handler_cases Hstep; try done.
  all: eapply users_ok_agree; [| |exact Hok]; intros; simpl;
       repeat (rewrite lookup_insert; case_decide; subst);
       try apply user_articles_agree_refl; try apply article_owner_agree_refl;
       match goal with
       | E : _ !! _ = Some _ |- _ =>
           rewrite E; first [ apply article_owner_agree_vote | done ]
       end.
Qed.

Lemma database_users_ok : users_ok database.
Proof. split_and!; intros k x; simpl; by rewrite lookup_empty. Qed.

Lemma reachable_users_ok db : reachable db → users_ok db.
Proof.
  induction 1 as [|db c db' response Hdb IH Hstep]; [apply database_users_ok|].
  eapply step_users_ok; [|done..]. by apply reachable_ids_ok.
Qed.

(** ** No user is named by an inherited property *)

Lemma step_users_plain db c db' response :
  users_plain db → step c db = Ok (db', response) → users_plain db'.
Proof.
  intros Hplain Hstep. destruct c as [h url request].
  destruct h; handler_cases Hstep;
    try match goal with
        | E : cascade _ _ _ = Ok _ |- _ =>
            pose proof (cascade_users _ _ _ _ E) as Hus; simpl in Hus
        end.
  all: intros u Hu; simpl; try (by apply Hplain).
  all: repeat (rewrite lookup_insert; case_decide; subst).
  all: try (by apply Hplain).
  all: try (rewrite Hplain in * by done; done).
  all: try congruence.
  all: try (specialize (Hus u); rewrite (Hplain u Hu) in Hus;
            by destruct (users _ !! u)).
  match goal with
  | E : users _ !! ?n = Some _, Hn : inherited ?n = true |- _ =>
      specialize (Hus n); rewrite (Hplain _ Hn), E in Hus; done
  end.
Qed.

Lemma reachable_users_plain db : reachable db → users_plain db.
Proof.
  induction 1 as [|db c db' response Hdb IH Hstep].
  - intros u _. apply lookup_empty.
  - by eapply step_users_plain.
Qed.

(** X3. In every reachable store a user is stored under its own
    username, its [articleIds] are distinct ids of live articles written
    by that user, and every live article is listed by its author. *)
Theorem users_list_their_articles db : reachable db → users_ok db.
Proof. apply reachable_users_ok. Qed.

Lemma users_list_their_articles_witness :
  reachable crossed_store ∧ users_ok crossed_store.
Proof.
  split; [exact crossed_store_reachable|].
  exact (users_list_their_articles crossed_store crossed_store_reachable).
Defined.

(** X4. In every reachable store the author of every live article and
    comment exists, the [commentIds] of a live article are distinct ids
    of live comments on that article, and every live comment is on a
    live article that lists it. *)
Theorem articles_list_their_comments db : reachable db → refs_ok db.
Proof. apply reachable_refs_ok. Qed.

Lemma articles_list_their_comments_witness :
  reachable crossed_store ∧ refs_ok crossed_store.
Proof.
  split; [exact crossed_store_reachable|].
  exact (articles_list_their_comments crossed_store crossed_store_reachable).
Defined.

(** ** Reading a user *)

(** The slots read for ids that are all live. *)
Lemma read_all_live {A : Type} (m : gmap Z (option A)) (P : Z → A → Prop) ids :
  (∀ k, k ∈ ids → ∃ a, m !! k = Some (Some a) ∧ P k a) →
  ∃ objs, map (λ k, read m (JInt k)) ids = map obj objs
    ∧ Forall2 P ids objs.
Proof.
  induction ids as [|k ids IH]; intros Hlive.
  - exists []. split; [done | constructor].
  - destruct (Hlive k) as (a & Hk & HP); [by left|].
    destruct IH as (objs & Hmap & Hall); [intros k' Hin; apply Hlive; by right|].
    exists (a :: objs). split; [|by constructor].
    rewrite !map_cons, Hmap. unfold read. by rewrite Hk.
Qed.

(** X5. On a reachable store [getUser] never changes the store; for the
    name of a user it answers 200 with the user stored under that name
    and, for each of its [articleIds] in order, the live article with
    that id, written by that user; for a name that [Object.prototype]
    defines ([constructor], [toString], ...) it ends in a [TypeError];
    for any other name it answers 404, and 400 when the path has no
    second segment (and no user is named "undefined"). *)
Theorem getUser_lists_live_articles db url request :
  reachable db →
  (∀ u usr, segment1 url = Some u → users db !! u = Some usr →
     ∃ userArticles userComments,
       getUser url request db
       = Ok (db, Response.mk 200
               (Some (body_user_full usr (map obj userArticles) userComments)))
       ∧ User.username usr = u
       ∧ Forall2 (λ k a, Article.id a = k ∧ Article.username a = u
                         ∧ articles db !! k = Some (Some a))
           (User.articleIds usr) userArticles
       ∧ length userComments = length (User.commentIds usr))
  ∧ (∀ u, segment1 url = Some u → inherited u = true →
       users db !! u = None ∧ getUser url request db = Throw)
  ∧ (∀ u, segment1 url = Some u → inherited u = false → users db !! u = None →
       getUser url request db = Ok (db, Response.mk 404 None))
  ∧ (segment1 url = None → users db !! "undefined" = None →
     getUser url request db = Ok (db, Response.mk 400 None)).
Proof.
  intros Hreach.
  pose proof (reachable_users_ok _ Hreach) as (Hu & Hua & _).
  pose proof (reachable_ids_ok _ Hreach) as (_ & _ & _ & Hai & _).
  pose proof (reachable_users_plain _ Hreach) as Hplain.
  split_and!.
  - intros u usr Hseg Husr. unfold getUser. rewrite Hseg.
    rewrite (proj2 (users_at_own _ (NStr u) _) Husr).
    destruct (read_all_live (articles db)
                (λ k a, Article.id a = k ∧ Article.username a = u
                        ∧ articles db !! k = Some (Some a))
                (User.articleIds usr)) as (arts & Hmap & Hall).
    { intros k Hin. destruct (Hua _ _ _ Husr Hin) as (a & Ha & Hname).
      exists a. split; [done|]. split_and!; [by apply Hai | done..]. }
    eexists arts, _. rewrite Hmap. split; [reflexivity|].
    split; [by apply Hu|]. split; [done|]. by rewrite length_map.
  - intros u Hseg Hin. split; [by apply Hplain|].
    unfold getUser. rewrite Hseg.
    by rewrite (proj2 (users_at_from_prototype _ (NStr u)) (conj (Hplain u Hin) Hin)).
  - intros u Hseg Hin Hnone. unfold getUser. rewrite Hseg.
    by rewrite (proj2 (users_at_no_user _ (NStr u)) (conj Hnone Hin)).
  - intros Hseg Hnone. unfold getUser. rewrite Hseg.
    by rewrite (proj2 (users_at_no_user _ NUndefined) (conj Hnone eq_refl)).
Qed.

Lemma getUser_lists_live_articles_witness :
  reachable crossed_store
  ∧ (∃ userArticles userComments,
       getUser "/users/alice" (Request.mk None) crossed_store
       = Ok (crossed_store,
             Response.mk 200
               (Some (body_user_full (User.mk "alice" [1; 2] [1; 2])
                        (map obj userArticles) userComments)))
       ∧ Forall2 (λ k a, Article.id a = k ∧ Article.username a = "alice"
                         ∧ articles crossed_store !! k = Some (Some a))
           [1; 2] userArticles)
  ∧ getUser "/users/constructor" (Request.mk None) crossed_store = Throw
  ∧ getUser "/users/bob" (Request.mk None) crossed_store
    = Ok (crossed_store, Response.mk 404 None).
Proof.
  split; [exact crossed_store_reachable|].
  split; [|split].
  - destruct (getUser_lists_live_articles crossed_store "/users/alice"
                (Request.mk None) crossed_store_reachable) as [Hknown _].
    destruct (Hknown "alice" (User.mk "alice" [1; 2] [1; 2]) eq_refl eq_refl)
      as (arts & coms & Hrun & _ & Hall & _).
    exists arts, coms. split; [exact Hrun | exact Hall].
  - destruct (getUser_lists_live_articles crossed_store "/users/constructor"
                (Request.mk None) crossed_store_reachable) as (_ & Hthrows & _).
    apply (Hthrows "constructor"); reflexivity.
  - destruct (getUser_lists_live_articles crossed_store "/users/bob"
                (Request.mk None) crossed_store_reachable) as (_ & _ & Hmissing & _).
    apply (Hmissing "bob"); reflexivity.
Defined.

(** ** Reading an article of a reachable store *)

Lemma getArticle_on_reachable db url request k a :
  reachable db →
  Number (segment1 url) = JInt k →
  articles db !! k = Some (Some a) →
  ∃ db',
    getArticle url request db
    = Ok (db', Response.mk 200
            (Some (body_article
                     (Article.set_comments (map obj (Article.commentIds a)) a))))
    ∧ ∀ commentId, commentId ∈ Article.commentIds a →
        ∃ c, comments db' !! commentId = Some (Some c)
             ∧ Comment.id c = commentId ∧ Comment.articleId c = k.
Proof.
  intros Hreach Hid Hk.
  pose proof (reachable_refs_ok _ Hreach) as (_ & Hac & _).
  pose proof (reachable_ids_ok _ Hreach) as (_ & _ & _ & _ & _ & Hci).
  unfold getArticle. rewrite Hid.
  rewrite (proj2 (live_at_Some _ _ _ _) (conj eq_refl Hk)).
  assert (map (λ commentId, reference (read (comments db) (JInt commentId)))
            (Article.commentIds a) = map obj (Article.commentIds a)) as ->.
  { apply map_ext_in. intros commentId Hin%list_elem_of_In.
    destruct (Hac _ _ _ Hk Hin) as (c & Hc & _). simpl. rewrite Hc. simpl.
    by rewrite (Hci _ _ Hc). }
  eexists. split; [reflexivity|]. simpl.
  intros commentId Hin. destruct (Hac _ _ _ Hk Hin) as (c & Hc & Haid).
  exists c. split_and!; [done | by apply Hci | done].
Qed.

(** X6. On a reachable store the [comments] that [getArticle] attaches
    to a live article are references to live comments, one for each of
    its [commentIds] in order, each a comment on that article. *)
Theorem getArticle_comments_live db url request k a :
  reachable db →
  Number (segment1 url) = JInt k →
  articles db !! k = Some (Some a) →
  ∃ db',
    getArticle url request db
    = Ok (db', Response.mk 200
            (Some (body_article
                     (Article.set_comments (map obj (Article.commentIds a)) a))))
    ∧ ∀ commentId, commentId ∈ Article.commentIds a →
        ∃ c, comments db' !! commentId = Some (Some c)
             ∧ Comment.id c = commentId ∧ Comment.articleId c = k.
Proof. apply getArticle_on_reachable. Qed.

Lemma getArticle_comments_live_witness :
  reachable crossed_store
  ∧ ∃ db',
      getArticle "/articles/1" (Request.mk None) crossed_store
      = Ok (db', Response.mk 200
              (Some (body_article
                       (Article.mk 1 "A" "http://a" "alice" [2] [] []
                          (Some [obj 2]))))).
Proof.
  split; [exact crossed_store_reachable|].
  destruct (getArticle_comments_live crossed_store "/articles/1" (Request.mk None)
              1 (Article.mk 1 "A" "http://a" "alice" [2] [] [] None)
              crossed_store_reachable eq_refl eq_refl) as (db' & Hrun & _).
  exists db'. exact Hrun.
Defined.

(** ** Deleting a comment *)

Lemma elem_of_filter_ne {A : Type} `{EqDecision A} (arr : list A) (x y : A) :
  y ∈ filter_ne arr x ↔ y ∈ arr ∧ y ≠ x.
Proof. unfold filter_ne. rewrite list_elem_of_filter. tauto. Qed.

(** X7. On a reachable store [deleteComment] of a live comment answers
    204, puts [null] under its id, and takes the id out of the
    [commentIds] of the article it is on and of its author, which keep
    their other ids in order; no other comment, article or user and no
    counter changes.  When no live comment is stored under the id it
    answers 404 on any store. *)
Theorem deleteComment_unlinks db url request k c :
  reachable db →
  Number (segment1 url) = JInt k →
  comments db !! k = Some (Some c) →
  ∃ db' author article,
    deleteComment url request db = Ok (db', Response.mk 204 None)
    ∧ users db !! Comment.username c = Some author
    ∧ articles db !! Comment.articleId c = Some (Some article)
    ∧ comments db' = <[k := None]> (comments db)
    ∧ users db'
      = <[Comment.username c :=
            User.set_commentIds (filter (λ i, i ≠ k) (User.commentIds author)) author]>
          (users db)
    ∧ articles db'
      = <[Comment.articleId c :=
            Some (Article.set_commentIds
                    (filter (λ i, i ≠ k) (Article.commentIds article)) article)]>
          (articles db)
    ∧ nextArticleId db' = nextArticleId db
    ∧ nextCommentId db' = nextCommentId db
    ∧ k ∈ Article.commentIds article
    ∧ (∀ usr', users db' !! Comment.username c = Some usr' →
               k ∉ User.commentIds usr')
    ∧ (∀ a', articles db' !! Comment.articleId c = Some (Some a') →
             k ∉ Article.commentIds a').
Proof.
  intros Hreach Hid Hk.
  pose proof (reachable_refs_ok _ Hreach) as (_ & _ & Hc).
  destruct (Hc _ _ Hk) as ([author Hauthor] & article & Harticle & Hin).
  unfold deleteComment. rewrite Hid.
  rewrite (proj2 (live_at_Some _ _ _ _) (conj eq_refl Hk)).
  rewrite Hauthor. rewrite (proj2 (read_obj _ _ _) Harticle).
  eexists _, author, article. split; [reflexivity|]. simpl.
  split_and!; try done.
  - intros usr' Husr'. rewrite lookup_insert_eq in Husr'. simplify_eq/=.
    rewrite elem_of_filter_ne. by intros [_ ?].
  - intros a' Ha'. rewrite lookup_insert_eq in Ha'. simplify_eq/=.
    rewrite elem_of_filter_ne. by intros [_ ?].
Qed.

Lemma deleteComment_unlinks_witness :
  reachable crossed_store
  ∧ ∃ db',
      deleteComment "/comments/1" (Request.mk None) crossed_store
      = Ok (db', Response.mk 204 None)
      ∧ users db' !! "alice" = Some (User.mk "alice" [1; 2] [2])
      ∧ articles db' !! 2
        = Some (Some (Article.mk 2 "B" "http://b" "alice" [] [] [] None)).
Proof.
  split; [exact crossed_store_reachable|].
  destruct (deleteComment_unlinks crossed_store "/comments/1" (Request.mk None)
              1 (Comment.mk 1 "first" "alice" 2 [] [])
              crossed_store_reachable eq_refl eq_refl)
    as (db' & author & article & Hrun & Hauthor & Harticle & _ & Hus & Harts & _).
  exists db'. split; [exact Hrun|].
  vm_compute in Hauthor, Harticle.
  injection Hauthor as <-. injection Harticle as <-.
  rewrite Hus, Harts. split; reflexivity.
Defined.

(** [deleteComment] and [deleteArticle] answer 404 and 400 on any
    store when no live record is stored under the id of the path: an id
    never given, the id of a deleted record, a second deletion, or a
    segment that is no integer. *)
Lemma delete_missing db url request :
  (∀ k, Number (segment1 url) = JInt k →
        comments db !! k = None ∨ comments db !! k = Some None →
        deleteComment url request db = Ok (db, Response.mk 404 None))
  ∧ (∀ k, Number (segment1 url) = JInt k →
          articles db !! k = None ∨ articles db !! k = Some None →
          deleteArticle url request db = Ok (db, Response.mk 400 None))
  ∧ (Number (segment1 url) = JNaN ∨ Number (segment1 url) = JOther →
     deleteComment url request db = Ok (db, Response.mk 404 None)
     ∧ deleteArticle url request db = Ok (db, Response.mk 400 None)).
Proof.
  unfold deleteComment, deleteArticle. split_and!.
  - intros k -> Hdead. by rewrite (proj2 (live_at_None_int _ _) Hdead).
  - intros k -> Hdead. by rewrite (proj2 (live_at_None_int _ _) Hdead).
  - intros [-> | ->]; done.
Qed.

Lemma delete_missing_witness :
  deleteArticle "/articles/2" (Request.mk None) two_live_one_deleted
  = Ok (two_live_one_deleted, Response.mk 400 None).
Proof.
  apply (proj1 (proj2 (delete_missing two_live_one_deleted "/articles/2"
                         (Request.mk None))) 2); [reflexivity|].
  right. reflexivity.
Defined.

(** ** Deleting an article *)

(** X8. On a reachable store [deleteArticle] of a live article answers
    204, puts [null] under its id and under the id of each of its
    comments, and takes its id out of the [articleIds] of its author;
    every other article and comment, the name and the [articleIds] of
    every other user, and both counters stay as they were.  (What it
    does to the [commentIds] of the authors of the comments is not part
    of this statement.) *)
Theorem deleteArticle_cascades db url request k a :
  reachable db →
  Number (segment1 url) = JInt k →
  articles db !! k = Some (Some a) →
  ∃ db' author author',
    deleteArticle url request db = Ok (db', Response.mk 204 None)
    ∧ articles db' = (<[k := None]> (articles db))
    ∧ (∀ i, comments db' !! i
            = (if decide (i ∈ Article.commentIds a) then Some None
               else comments db !! i))
    ∧ nextArticleId db' = nextArticleId db
    ∧ nextCommentId db' = nextCommentId db
    ∧ users db !! Article.username a = Some author
    ∧ users db' !! Article.username a = Some author'
    ∧ User.username author' = User.username author
    ∧ User.articleIds author' = remove_first k (User.articleIds author)
    ∧ k ∈ User.articleIds author
    ∧ (k ∉ User.articleIds author')
    ∧ (∀ u, u ≠ Article.username a →
            user_articles_agree (users db !! u) (users db' !! u)).
Proof.
  intros Hreach Hid Hk.
  pose proof (reachable_refs_ok _ Hreach) as (Ha & Hac & Hc).
  pose proof (reachable_users_ok _ Hreach) as (Hu & _ & Hau).
  destruct (Ha _ _ Hk) as [_ Hnd].
  destruct (Hau _ _ Hk) as (author & Hauthor & Hlisted).
  destruct (Hu _ _ Hauthor) as [_ Hnd_author].
  destruct (cascade_spec k (Article.commentIds a)
              (set_articles (<[k:=None]> (articles db)) db) Hnd)
    as (db1 & Hrun & Harts & Hna & Hnc & Hcoms & _).
  { intros commentId Hin. destruct (Hac _ _ _ Hk Hin) as (c & Hlive & _).
    exists c. split; [done|]. by destruct (Hc _ _ Hlive). }
  pose proof (cascade_users _ _ _ _ Hrun) as Hus. simpl in *.
  pose proof (Hus (Article.username a)) as Hagree. rewrite Hauthor in Hagree.
  destruct (users db1 !! Article.username a) as [author1|] eqn:Hauthor1; [|done].
  destruct Hagree as [Hname Hids].
  unfold deleteArticle. rewrite Hid.
  rewrite (proj2 (live_at_Some _ _ _ _) (conj eq_refl Hk)).
  rewrite Hrun. unfold mbind, outcome_bind. rewrite Hauthor1.
  eexists _, author, _. split; [reflexivity|]. simpl.
  rewrite lookup_insert_eq, Hids, (splice1_indexOf _ _ Hlisted).
  split_and!; try done.
  - simpl. rewrite elem_of_remove_first by done. by intros [_ ?].
  - intros u Hne. rewrite lookup_insert_ne by done. apply Hus.
Qed.

Lemma deleteArticle_cascades_witness :
  reachable crossed_store
  ∧ ∃ db' author',
      deleteArticle "/articles/2" (Request.mk None) crossed_store
      = Ok (db', Response.mk 204 None)
      ∧ articles db' = <[2 := None]> (articles crossed_store)
      ∧ users db' !! "alice" = Some author'
      ∧ User.articleIds author' = [1].
Proof.
  split; [exact crossed_store_reachable|].
  destruct (deleteArticle_cascades crossed_store "/articles/2" (Request.mk None)
              2 (Article.mk 2 "B" "http://b" "alice" [1] [] [] None)
              crossed_store_reachable eq_refl eq_refl)
    as (db' & author & author' & Hrun & Harts & _ & _ & _ & Hauthor & Hauthor'
        & _ & Hids & _).
  exists db', author'. split; [exact Hrun|]. split; [exact Harts|].
  split; [exact Hauthor'|].
  vm_compute in Hauthor. injection Hauthor as <-. exact Hids.
Defined.

(** X9. Deleting twice: on a reachable store, after the [deleteComment]
    of a live comment the same call answers 404, and after the
    [deleteArticle] of a live article the same call answers 400 and
    [getArticle] on it 404, each leaving the store as the deletion left
    it. *)
Theorem delete_twice db url request k :
  reachable db →
  Number (segment1 url) = JInt k →
  (∀ c, comments db !! k = Some (Some c) →
     ∃ db', deleteComment url request db = Ok (db', Response.mk 204 None)
       ∧ deleteComment url request db' = Ok (db', Response.mk 404 None))
  ∧ (∀ a, articles db !! k = Some (Some a) →
       ∃ db', deleteArticle url request db = Ok (db', Response.mk 204 None)
         ∧ deleteArticle url request db' = Ok (db', Response.mk 400 None)
         ∧ getArticle url request db' = Ok (db', Response.mk 404 None)).
Proof.
  intros Hreach Hid.
  pose proof (reachable_ids_ok _ Hreach) as (_ & _ & Hak & _).
  split.
  - intros c Hk.
    pose proof (reachable_refs_ok _ Hreach) as (_ & _ & Hc).
    destruct (Hc _ _ Hk) as ([author Hauthor] & article & Harticle & Hin).
    unfold deleteComment. rewrite Hid.
    rewrite (proj2 (live_at_Some _ _ _ _) (conj eq_refl Hk)).
    rewrite Hauthor. rewrite (proj2 (read_obj _ _ _) Harticle).
    eexists. split; [reflexivity|]. simpl.
    unfold live_at. simpl. by rewrite lookup_insert_eq.
  - intros a Hk.
    destruct (deleteArticle_total url request db (reachable_refs_ok _ Hreach))
      as (db' & response & Hrun).
    pose proof Hrun as Hrun'. unfold deleteArticle in Hrun'. rewrite Hid in Hrun'.
    rewrite (proj2 (live_at_Some _ _ _ _) (conj eq_refl Hk)) in Hrun'.
    destruct (cascade k _ _) as [db1|] eqn:Hcascade; [|done].
    unfold mbind, outcome_bind in Hrun'.
    apply cascade_frame in Hcascade as (Harts & _). simpl in Harts.
    destruct (users db1 !! Article.username a) as [author1|]; [|done].
    simplify_eq/=.
    assert (live_at (articles db1) (JInt k) = None) as Hdead.
    { apply live_at_None_int. right. rewrite Harts. apply lookup_insert_eq. }
    assert (num_truthy (JInt k) = true) as Htruthy.
    { simpl. apply Hak in Hk. destruct (Z.eqb_spec k 0); [lia | done]. }
    eexists. split; [exact Hrun|].
    unfold deleteArticle, getArticle. rewrite Hid. simpl articles.
    rewrite Hdead, Htruthy. done.
Qed.

Lemma delete_twice_witness :
  reachable crossed_store
  ∧ ∃ db',
      deleteArticle "/articles/2" (Request.mk None) crossed_store
      = Ok (db', Response.mk 204 None)
      ∧ deleteArticle "/articles/2" (Request.mk None) db'
        = Ok (db', Response.mk 400 None)
      ∧ getArticle "/articles/2" (Request.mk None) db'
        = Ok (db', Response.mk 404 None).
Proof.
  split; [exact crossed_store_reachable|].
  exact (proj2 (delete_twice crossed_store "/articles/2" (Request.mk None) 2
                  crossed_store_reachable eq_refl)
           (Article.mk 2 "B" "http://b" "alice" [1] [] [] None) eq_refl).
Defined.

(** ** Updating a comment *)

(** X10. [updateComment] answers 400 when the id of the path is falsy or
    the request carries no comment, whether or not the comment exists;
    otherwise 404 when no live comment is stored under the id; otherwise
    200, and the comment keeps every field but [body], which becomes the
    [body] of the request when that is a non-empty string and stays as
    it is otherwise.  Nothing else in the store changes. *)
Theorem updateComment_patch db url request :
  (num_truthy (Number (segment1 url)) = false
   ∨ Request.body request ≫= Body.comment = None →
   updateComment url request db = Ok (db, Response.mk 400 None))
  ∧ (∀ patch, Request.body request ≫= Body.comment = Some patch →
       num_truthy (Number (segment1 url)) = true →
       live_at (comments db) (Number (segment1 url)) = None →
       updateComment url request db = Ok (db, Response.mk 404 None))
  ∧ (∀ patch k c, Request.body request ≫= Body.comment = Some patch →
       Number (segment1 url) = JInt k → k ≠ 0 →
       comments db !! k = Some (Some c) →
       ∃ db' c',
         updateComment url request db
         = Ok (db', Response.mk 200 (Some (body_comment c')))
         ∧ comments db' !! k = Some (Some c')
         ∧ same_but_comment k db db'
         ∧ comment_same_but_body c c'
         ∧ (∀ s, RequestComment.body patch = Some s → s ≠ "" → Comment.body c' = s)
         ∧ (RequestComment.body patch = None ∨ RequestComment.body patch = Some "" →
            Comment.body c' = Comment.body c)
         ∧ (Comment.body c ≠ "" → Comment.body c' ≠ "")).
Proof.
  unfold updateComment. split_and!.
  - intros [Hfalsy|Hnone].
    + by rewrite Hfalsy.
    + rewrite Hnone. by destruct (num_truthy _).
  - intros patch -> -> ->. done.
  - intros patch k c -> Hid Hne Hk. rewrite Hid.
    rewrite (proj2 (live_at_Some _ _ _ _) (conj eq_refl Hk)). simpl.
    destruct (Z.eqb_spec k 0) as [|_]; [done|]. simpl.
    destruct (or_else_spec (RequestComment.body patch) (Comment.body c))
      as (Hb1 & Hb2 & Hb3).
    eexists _, _. split; [reflexivity|]. simpl.
    split_and!; try done.
    + apply lookup_insert_eq.
    + apply same_but_comment_insert.
Qed.

Lemma updateComment_patch_witness :
  (∃ db' c',
     updateComment "/comments/2" (patch_body "edited") crossed_store
     = Ok (db', Response.mk 200 (Some (body_comment c')))
     ∧ Comment.body c' = "edited"
     ∧ comment_same_but_body (Comment.mk 2 "second" "alice" 1 [] []) c')
  ∧ updateComment "/comments/1e-400" (patch_body "edited") crossed_store
    = Ok (crossed_store, Response.mk 400 None)
  ∧ updateComment "/comments/2.5" (patch_body "edited") crossed_store
    = Ok (crossed_store, Response.mk 404 None).
Proof.
  split; [|split].
  - destruct (proj2 (proj2 (updateComment_patch crossed_store "/comments/2"
                              (patch_body "edited")))
                (RequestComment.mk (Some "edited") None None) 2
                (Comment.mk 2 "second" "alice" 1 [] []) eq_refl eq_refl)
      as (db' & c' & Hrun & _ & _ & Hsame & Hbody & _).
    + lia.
    + reflexivity.
    + exists db', c'. split; [exact Hrun|]. split; [|exact Hsame].
      apply Hbody; [reflexivity | discriminate].
  - apply (proj1 (updateComment_patch crossed_store "/comments/1e-400"
                    (patch_body "edited"))).
    left. vm_compute. reflexivity.
  - apply (proj1 (proj2 (updateComment_patch crossed_store "/comments/2.5"
                           (patch_body "edited")))
             (RequestComment.mk (Some "edited") None None));
      vm_compute; reflexivity.
Defined.

(** ** Votes of other users *)

Section vote_others.
Context {A : Type} `{Votable A}.

(** X11. A vote of one username leaves the votes of every other
    username as they were, on any item: another username is in
    [upvotedBy] after the vote exactly when it was before, and the same
    for [downvotedBy]; and the voter is in the array voted for. *)
Theorem vote_leaves_others (e : A) (u v : jsname) :
  v ≠ u →
  (v ∈ upvotedBy (upvote e u) ↔ v ∈ upvotedBy e)
  ∧ (v ∈ downvotedBy (upvote e u) ↔ v ∈ downvotedBy e)
  ∧ (v ∈ upvotedBy (downvote e u) ↔ v ∈ upvotedBy e)
  ∧ (v ∈ downvotedBy (downvote e u) ↔ v ∈ downvotedBy e)
  ∧ u ∈ upvotedBy (upvote e u)
  ∧ u ∈ downvotedBy (downvote e u).
Proof.
  intros Hne.
  rewrite upvotedBy_upvote, downvotedBy_upvote, upvotedBy_downvote,
    downvotedBy_downvote.
  split_and!.
  - destruct (includes (upvotedBy e) u); [done|].
    rewrite elem_of_push. split; [by intros [?|?] | by left].
  - destruct (includes (downvotedBy e) u); [|done].
    by apply elem_of_remove_first_ne.
  - destruct (includes (upvotedBy e) u); [|done].
    by apply elem_of_remove_first_ne.
  - destruct (includes (downvotedBy e) u); [done|].
    rewrite elem_of_push. split; [by intros [?|?] | by left].
  - destruct (includes (upvotedBy e) u) eqn:Hu;
      [by apply includes_true | apply elem_of_push; by right].
  - destruct (includes (downvotedBy e) u) eqn:Hd;
      [by apply includes_true | apply elem_of_push; by right].
Qed.

End vote_others.

Lemma vote_leaves_others_witness :
  NStr "alice" ∈ upvotedBy (downvote voted_article (NStr "bob"))
  ↔ NStr "alice" ∈ upvotedBy voted_article.
Proof.
  apply (vote_leaves_others voted_article (NStr "bob") (NStr "alice")).
  discriminate.
Defined.

(** ** Votes that are refused *)

(** X12. A vote handler answers 200 exactly when a live article (for the
    article handlers) or comment (for the comment handlers) is stored
    under the id of the path and [database.users] holds something under
    the username of the request, a user or a value inherited from
    [Object.prototype]; otherwise it answers 400 and leaves the store as
    it was.  In particular a vote on a deleted record is refused, and a
    vote under the name [toString] is accepted. *)
Theorem vote_refused db url request :
  let found := known (users_at (users db) (request_username request)) = true in
  let live_article := is_Some (live_at (articles db) (Number (segment1 url))) in
  let live_comment := is_Some (live_at (comments db) (Number (segment1 url))) in
  (¬ (live_article ∧ found) →
   upvoteArticle url request db = Ok (db, Response.mk 400 None)
   ∧ downvoteArticle url request db = Ok (db, Response.mk 400 None))
  ∧ (¬ (live_comment ∧ found) →
     upvoteComment url request db = Ok (db, Response.mk 400 None)
     ∧ downvoteComment url request db = Ok (db, Response.mk 400 None))
  ∧ (live_article ∧ found →
     ∃ db1 r1 db2 r2,
       upvoteArticle url request db = Ok (db1, r1) ∧ Response.status r1 = 200
       ∧ downvoteArticle url request db = Ok (db2, r2) ∧ Response.status r2 = 200)
  ∧ (live_comment ∧ found →
     ∃ db1 r1 db2 r2,
       upvoteComment url request db = Ok (db1, r1) ∧ Response.status r1 = 200
       ∧ downvoteComment url request db = Ok (db2, r2) ∧ Response.status r2 = 200)
  ∧ (found ↔
     is_Some (users db !! ToString (request_username request))
     ∨ inherited (ToString (request_username request)) = true).
Proof.
  intros found live_article live_comment.
  unfold upvoteArticle, downvoteArticle, upvoteComment, downvoteComment.
  subst found live_article live_comment.
  assert (known (users_at (users db) (request_username request)) = true
          ↔ is_Some (users db !! ToString (request_username request))
            ∨ inherited (ToString (request_username request)) = true) as Hfound.
  { unfold users_at, read_user.
    destruct (users db !! ToString (request_username request)) as [usr|].
    - split; [left; by eexists | done].
    - destruct (inherited _); split; try done; try (by right).
      by intros [[? ?]|?]. }
  destruct (live_at (articles db) _) as [[ka a]|];
    destruct (live_at (comments db) _) as [[kc c]|];
    destruct (known (users_at (users db) _)).
  all: split_and!; try exact Hfound; intros Hcond; try done.
  all: try (exfalso; apply Hcond; split; by eexists).
  all: try (destruct Hcond as [[? ?] ?]; done).
  all: by eexists _, _, _, _.
Qed.

Lemma vote_refused_witness :
  upvoteArticle "/articles/2/upvote"
    (Request.mk (Some (Body.mk (NStr "alice") None None))) two_live_one_deleted
  = Ok (two_live_one_deleted, Response.mk 400 None)
  ∧ ∃ db1 r1,
      upvoteArticle "/articles/1.00000000000000000000001/upvote"
        (Request.mk (Some (Body.mk (NStr "toString") None None)))
        two_live_one_deleted
      = Ok (db1, r1) ∧ Response.status r1 = 200.
Proof.
  split.
  - apply (proj1 (vote_refused two_live_one_deleted "/articles/2/upvote"
                    (Request.mk (Some (Body.mk (NStr "alice") None None))))).
    vm_compute. intros [[x Hx] _]. discriminate Hx.
  - destruct (proj1 (proj2 (proj2
                (vote_refused two_live_one_deleted
                   "/articles/1.00000000000000000000001/upvote"
                   (Request.mk (Some (Body.mk (NStr "toString") None None)))))))
      as (db1 & r1 & _ & _ & Hrun & Hstatus & _).
    + vm_compute. split; [by eexists | reflexivity].
    + exists db1, r1. split; [exact Hrun | exact Hstatus].
Defined.

(** ** Creating an article and reading it back *)

Lemma listing_spec db :
  ids_ok db →
  (∀ a, a ∈ listing db ↔ ∃ k, articles db !! k = Some (Some a))
  ∧ StronglySorted (λ a1 a2, Article.id a2 < Article.id a1) (listing db).
Proof.
  intros Hok. unfold listing. split.
  - intros a. rewrite sort_perm, elem_of_live. split.
    + intros [k [_ Hk]]. by exists k.
    + intros [k Hk]. exists k. split; [|done]. apply elem_of_keys. by eexists.
  - apply descending_strict.
    + rewrite sort_perm. eapply sublist_NoDup; [apply (NoDup_keys (articles db))|].
      by apply live_ids_sublist.
    + apply sort_sorted; intros; lia.
Qed.

Lemma descending_NoDup (l : list Article.t) :
  StronglySorted (λ a1 a2, Article.id a2 < Article.id a1) l → NoDup l.
Proof.
  induction 1 as [|a l Hs IH Hall]; constructor; [|done].
  intros Hin. rewrite Forall_forall in Hall. specialize (Hall _ Hin).
  simpl in Hall. lia.
Qed.

Lemma listing_insert_new db db1 a :
  ids_ok db → ids_ok db1 →
  Article.id a = nextArticleId db →
  articles db1 = <[nextArticleId db := Some a]> (articles db) →
  listing db1 = a :: listing db.
Proof.
  intros Hok Hok1 Hid Harts.
  destruct (listing_spec db1 Hok1) as [Hmem1 Hsorted1].
  destruct (listing_spec db Hok) as [Hmem Hsorted].
  destruct Hok as (_ & _ & Hak & Hai & _).
  assert (StronglySorted (λ a1 a2, Article.id a2 < Article.id a1)
            (a :: listing db)) as Hsorted2.
  { constructor; [done|]. apply Forall_forall. intros b [k Hb]%Hmem.
    rewrite (Hai _ _ Hb). apply Hak in Hb. simpl. lia. }
  apply (StronglySorted_unique_strong _ _ _
           (λ x1 x2 _ _ (H1 : Article.id x2 < Article.id x1)
              (H2 : Article.id x1 < Article.id x2),
              False_ind _ (Z.lt_asymm _ _ H1 H2)) Hsorted1 Hsorted2).
  apply NoDup_Permutation; [by eapply descending_NoDup..|].
  intros b. rewrite Hmem1, elem_of_cons, Hmem, Harts. split.
  - intros [k Hk]. rewrite lookup_insert in Hk. case_decide; simplify_eq/=.
    + by left.
    + right. by exists k.
  - intros [->|[k Hk]].
    + exists (nextArticleId db). apply lookup_insert_eq.
    + exists k. rewrite lookup_insert_ne; [done|].
      intros <-. apply Hak in Hk. lia.
Qed.

(** X13. On a reachable store a [createArticle] that answers 201 gives
    the article the id of the counter, a key no record was ever stored
    under, with empty [commentIds] and vote arrays, and appends the id to
    the [articleIds] of its author.  Afterwards [getArticles] lists the
    new article first, followed by the list it answered before, and
    [getArticle] on the new id answers 200 with the article and an empty
    [comments]. *)
Theorem createArticle_then_read db url request db1 response :
  reachable db →
  createArticle url request db = Ok (db1, response) →
  Response.status response = 201 →
  ∃ a author,
    response = Response.mk 201 (Some (body_article a))
    ∧ Article.id a = nextArticleId db
    ∧ articles db !! Article.id a = None
    ∧ articles db1 !! Article.id a = Some (Some a)
    ∧ Article.commentIds a = [] ∧ Article.upvotedBy a = []
    ∧ Article.downvotedBy a = []
    ∧ Article.title a ≠ "" ∧ Article.url a ≠ ""
    ∧ users db !! Article.username a = Some author
    ∧ users db1 !! Article.username a
      = Some (User.set_articleIds (User.articleIds author ++ [Article.id a])%list author)
    ∧ (∀ url' request',
         getArticles url' request' db1
         = Ok (db1, Response.mk 200 (Some (body_articles (a :: listing db))))
         ∧ getArticles url' request' db
           = Ok (db, Response.mk 200 (Some (body_articles (listing db)))))
    ∧ (∀ url' request', Number (segment1 url') = JInt (Article.id a) →
         ∃ db2, getArticle url' request' db1
                = Ok (db2, Response.mk 200
                        (Some (body_article (Article.set_comments [] a))))).
Proof.
  intros Hreach Hrun Hstatus.
  pose proof (reachable_ids_ok _ Hreach) as Hok.
  pose proof (reachable_step _ (mkCall CreateArticle url request) _ _ Hreach Hrun)
    as Hreach1.
  pose proof (reachable_ids_ok _ Hreach1) as Hok1.
  destruct Hok as (Hna & Hnc & Hak & Hai & _).
  unfold createArticle in Hrun.
  case_match eqn:Hvalid; [|by simplify_eq/=].
  repeat case_match; simplify_option_eq.
  match goal with E : users_at _ (NStr ?s) = own_user ?x |- _ =>
    apply users_at_own in E; simpl in E;
    rename E into Huser; rename s into name; rename x into author end.
  repeat match goal with
         | E : truthy_field _ = Some ?s |- _ =>
             assert (s ≠ "") by
               (unfold truthy_field in E; repeat case_match; simplify_eq;
                by destruct s);
             clear E
         end.
  assert (articles db !! nextArticleId db = None) as Hfresh.
  { destruct (articles db !! nextArticleId db) as [x|] eqn:Hx; [|done].
    apply Hak in Hx. lia. }
  eexists _, author. split; [reflexivity|]. simpl.
  split_and!; try done.
  - apply lookup_insert_eq.
  - apply lookup_insert_eq.
  - intros url' request'. split; [|reflexivity].
    erewrite <- (listing_insert_new db _ _ (reachable_ids_ok _ Hreach) Hok1);
      [reflexivity | done | done].
  - intros url' request' Hid. unfold getArticle. rewrite Hid. unfold live_at.
    simpl. rewrite lookup_insert_eq. by eexists.
Qed.

Lemma createArticle_then_read_witness :
  reachable two_live_one_deleted
  ∧ ∃ db1 a,
      createArticle "/articles" some_article_request two_live_one_deleted
      = Ok (db1, Response.mk 201 (Some (body_article a)))
      ∧ Article.id a = 4
      ∧ getArticles "/articles" (Request.mk None) db1
        = Ok (db1, Response.mk 200
                (Some (body_articles (a :: listing two_live_one_deleted)))).
Proof.
  split; [exact two_live_one_deleted_reachable|].
  destruct (createArticle_then_read two_live_one_deleted "/articles"
              some_article_request
              (store_of (mkCall CreateArticle "/articles" some_article_request)
                 two_live_one_deleted)
              (response_of (mkCall CreateArticle "/articles" some_article_request)
                 two_live_one_deleted)
              two_live_one_deleted_reachable eq_refl eq_refl)
    as (a & author & Hresponse & Hid & _ & _ & _ & _ & _ & _ & _ & _ & _ & Hlist & _).
  eexists _, a. split; [rewrite <- Hresponse; vm_compute; reflexivity|].
  split; [exact Hid | exact (proj1 (Hlist _ _))].
Defined.

(** ** Creating a comment *)

(** X14. On a reachable store a [createComment] that answers 201 gives
    the comment the id of the counter, a key no record was ever stored
    under, with a non-empty [body] and empty vote arrays, for an existing
    author and a live article, and appends the id to the [commentIds] of
    both.  Afterwards [getArticle] on that article answers 200 with the
    references of its former comments followed by that of the new one. *)
Theorem createComment_links db url request db1 response :
  reachable db →
  createComment url request db = Ok (db1, response) →
  Response.status response = 201 →
  ∃ c author article,
    response = Response.mk 201 (Some (body_comment c))
    ∧ Comment.id c = nextCommentId db
    ∧ nextCommentId db1 = nextCommentId db + 1
    ∧ comments db !! Comment.id c = None
    ∧ comments db1 !! Comment.id c = Some (Some c)
    ∧ Comment.upvotedBy c = [] ∧ Comment.downvotedBy c = []
    ∧ Comment.body c ≠ ""
    ∧ users db !! Comment.username c = Some author
    ∧ articles db !! Comment.articleId c = Some (Some article)
    ∧ users db1 !! Comment.username c
      = Some (User.set_commentIds
                (User.commentIds author ++ [Comment.id c])%list author)
    ∧ articles db1 !! Comment.articleId c
      = Some (Some (Article.set_commentIds
                      (Article.commentIds article ++ [Comment.id c])%list article))
    ∧ (∀ url' request', Number (segment1 url') = JInt (Comment.articleId c) →
         ∃ db2 a2,
           getArticle url' request' db1
           = Ok (db2, Response.mk 200 (Some (body_article a2)))
           ∧ Article.comments a2
             = Some (map obj (Article.commentIds article ++ [Comment.id c])%list)).
Proof.
  intros Hreach Hrun Hstatus.
  pose proof (reachable_ids_ok _ Hreach) as (_ & _ & _ & _ & Hck & _).
  pose proof (reachable_step _ (mkCall CreateComment url request) _ _ Hreach Hrun)
    as Hreach1.
  unfold createComment in Hrun.
  case_match eqn:Hvalid; [|by simplify_eq/=].
  repeat case_match; simplify_option_eq.
  repeat match goal with p : (_ * _)%type |- _ => destruct p end. simplify_eq/=.
  match goal with E : live_at _ _ = Some _ |- _ =>
    apply live_at_Some in E as [_ Hart] end.
  match goal with E : users_at _ _ = own_user ?x |- _ =>
    apply users_at_own in E; simpl in E;
    rename E into Huser; rename x into author end.
  match goal with E : truthy_field (RequestComment.body _) = Some ?s |- _ =>
    assert (s ≠ "") by
      (unfold truthy_field in E; repeat case_match; simplify_eq; by destruct s)
  end.
  assert (comments db !! nextCommentId db = None) as Hfresh.
  { destruct (comments db !! nextCommentId db) as [x|] eqn:Hx; [|done].
    apply Hck in Hx. lia. }
  eexists _, author, _. split; [reflexivity|]. simpl.
  split_and!; try done.
  - apply lookup_insert_eq.
  - apply lookup_insert_eq.
  - apply lookup_insert_eq.
  - intros url' request' Hid.
    match goal with
    | E : articles db !! ?k = Some (Some ?a) |- _ =>
        destruct (getArticle_on_reachable _ url' request' k
                    (Article.set_commentIds
                       (push (Article.commentIds a) (nextCommentId db)) a)
                    Hreach1 Hid) as (db2 & Hget & _);
          [simpl; apply lookup_insert_eq|]
    end.
    eexists _, _. split; [exact Hget|]. reflexivity.
Qed.

Lemma createComment_links_witness :
  reachable crossed_store
  ∧ ∃ db1 c,
      createComment "/comments" some_comment_request crossed_store
      = Ok (db1, Response.mk 201 (Some (body_comment c)))
      ∧ Comment.id c = 3
      ∧ articles db1 !! 2
        = Some (Some (Article.mk 2 "B" "http://b" "alice" [1; 3] [] [] None)).
Proof.
  split; [exact crossed_store_reachable|].
  destruct (createComment_links crossed_store "/comments" some_comment_request
              (store_of (mkCall CreateComment "/comments" some_comment_request)
                 crossed_store)
              (response_of (mkCall CreateComment "/comments" some_comment_request)
                 crossed_store)
              crossed_store_reachable eq_refl eq_refl)
    as (c & author & article & Hresponse & Hid & _).
  eexists _, c. split; [rewrite <- Hresponse; vm_compute; reflexivity|].
  split; [exact Hid | vm_compute; reflexivity].
Defined.

(** ** Paths built from segments *)

Lemma split_cons_first s : ∃ seg rest, split s = seg :: rest.
Proof.
  pose proof (split_nonempty s). destruct (split s) as [|seg rest]; [done|].
  by eexists _, _.
Qed.

Lemma split_app_slash s t :
  has_slash s = false → split (s +:+ "/" +:+ t) = s :: split t.
Proof.
  induction s as [|c s IH]; simpl; [done|].
  destruct (Ascii.eqb c "/") eqn:Hc; [done|]. simpl. intros Hs.
  by rewrite (IH Hs).
Qed.

Lemma split_slash_free s : has_slash s = false → split s = [s].
Proof.
  induction s as [|c s IH]; simpl; [done|].
  destruct (Ascii.eqb c "/") eqn:Hc; [done|]. simpl. intros Hs.
  by rewrite (IH Hs).
Qed.

Lemma split_concat segments :
  segments ≠ [] →
  Forall (λ seg, has_slash seg = false) segments →
  split (String.concat "/" segments) = segments.
Proof.
  induction segments as [|seg rest IH]; [done|]. intros _ Hall.
  apply Forall_cons in Hall as [Hseg Hrest].
  destruct rest as [|seg' rest].
  - simpl. by apply split_slash_free.
  - change (String.concat "/" (seg :: seg' :: rest))
      with (seg +:+ "/" +:+ String.concat "/" (seg' :: rest)).
    rewrite split_app_slash by done. by rewrite IH.
Qed.

Lemma split_leading s : split (String "/" s) = EmptyString :: split s.
Proof. reflexivity. Qed.

Lemma pathSegments_path_of segments :
  Forall (λ seg, has_slash seg = false) segments →
  pathSegments (path_of segments)
  = filter (λ seg, truthy seg = true) segments.
Proof.
  intros Hall. unfold pathSegments, path_of.
  change ("/" +:+ String.concat "/" segments)
    with (String "/" (String.concat "/" segments)).
  destruct segments as [|seg rest]; [reflexivity|].
  rewrite split_leading, split_concat by done. reflexivity.
Qed.

(** X15. The segments of a path are read back from it: for segments
    without a separator, the path that joins them behind a leading
    separator splits into those of them that are not empty, so doubled
    and trailing separators are ignored.  For non-empty segments, the
    handlers read the second one as the id, and the route is the
    collection for one segment, [:id] for two unless the first is
    [users], and the vote route for a third segment [upvote] or
    [downvote]. *)
Theorem path_segments_round_trip segments :
  Forall (λ seg, has_slash seg = false) segments →
  pathSegments (path_of segments) = filter (λ seg, seg ≠ "") segments
  ∧ (Forall (λ seg, seg ≠ "") segments →
     pathSegments (path_of segments) = segments
     ∧ segment1 (path_of segments) = segments !! 1%nat
     ∧ (∀ s0, segments = [s0] → getRequestRoute (path_of segments) = "/" +:+ s0)
     ∧ (∀ s0 s1, segments = [s0; s1] → s0 ≠ "users" →
          getRequestRoute (path_of segments) = "/" +:+ s0 +:+ "/:id")
     ∧ (∀ s1, segments = ["users"; s1] →
          getRequestRoute (path_of segments) = "/users/:username")
     ∧ (∀ s0 s1, segments = [s0; s1; "upvote"] →
          getRequestRoute (path_of segments) = "/" +:+ s0 +:+ "/:id/upvote")
     ∧ (∀ s0 s1, segments = [s0; s1; "downvote"] →
          getRequestRoute (path_of segments) = "/" +:+ s0 +:+ "/:id/downvote")).
Proof.
  intros Hall.
  assert (pathSegments (path_of segments) = filter (λ seg, seg ≠ "") segments)
    as Hsegs.
  { rewrite pathSegments_path_of by done.
    apply list_filter_iff. intros [|c s]; simpl; split; done. }
  split; [done|]. intros Hne.
  assert (pathSegments (path_of segments) = segments) as Hid.
  { rewrite Hsegs. clear -Hne. induction Hne as [|seg rest Hseg Hrest IH]; [done|].
    rewrite filter_cons_True by done. by rewrite IH. }
  unfold segment1, getRequestRoute. rewrite Hid.
  split_and!; try done.
  - by intros s0 ->.
  - intros s0 s1 -> Hu. simpl.
    destruct (String.eqb_spec s0 "users"); done.
  - by intros s1 ->.
  - by intros s0 s1 ->.
  - by intros s0 s1 ->.
Qed.

Lemma path_segments_round_trip_witness :
  pathSegments "/articles//12/" = ["articles"; "12"]
  ∧ getRequestRoute "/articles/12/upvote" = "/articles/:id/upvote".
Proof.
  split.
  - exact (proj1 (path_segments_round_trip ["articles"; ""; "12"; ""]
                    ltac:(repeat constructor))).
  - refine (proj1 (proj2 (proj2 (proj2 (proj2 (proj2
              (proj2 (path_segments_round_trip ["articles"; "12"; "upvote"]
                        ltac:(repeat constructor))
                 ltac:(repeat constructor; discriminate))))))) "articles" "12" eq_refl).
Defined.

(** ** The dispatcher *)




Lemma routes_GET route h :
  (property routes route ≫= λ methods, property methods "GET") = Some h →
  h = GetUser ∨ h = GetArticles ∨ h = GetArticle.
Proof.
  unfold routes. cbn -[String.eqb].
  repeat (destruct (String.eqb _ route); [cbn; intros [= <-]; auto; fail|]);
    try done.
  all: repeat (destruct (String.eqb _ route); cbn; try (intros [= <-]; auto);
               try done).
Qed.

Lemma requestHandler_GET url body db :
  requestHandler "GET" url body db
  = match property routes (getRequestRoute url)
            ≫= λ methods, property methods "GET" with
    | None => Ok (db, Response.mk 400 None)
    | Some h => call h url (Request.mk None) db
    end.
Proof. reflexivity. Qed.

(** X17. A [GET] request never changes a user, a comment or a counter,
    and changes an article at most in its [comments] field; its answer
    does not depend on the body sent with it. *)
Theorem get_reads_only method url body db db' response :
  method = "GET" →
  requestHandler method url body db = Ok (db', response) →
  users db' = users db
  ∧ comments db' = comments db
  ∧ nextArticleId db' = nextArticleId db
  ∧ nextCommentId db' = nextCommentId db
  ∧ (∀ k, articles db' !! k = articles db !! k
          ∨ ∃ a a', articles db !! k = Some (Some a)
                    ∧ articles db' !! k = Some (Some a')
                    ∧ article_same_but_comments a a')
  ∧ requestHandler method url None db = Ok (db', response).
Proof.
  intros -> Hrun. split_and!; [..|exact Hrun].
  all: rewrite requestHandler_GET in Hrun.
  all: destruct (property routes (getRequestRoute url)
                   ≫= λ methods, property methods "GET") as [h|] eqn:Hroute;
         [|simplify_eq; first [done | intros k; by left]].
  all: apply routes_GET in Hroute as [->|[->| ->]]; simpl in Hrun.
  all: unfold getUser, getArticles, getArticle in Hrun;
       repeat case_match; simplify_eq/=; try done.
  all: try (intros k; by left).
  all: match goal with E : live_at _ _ = Some _ |- _ =>
         apply live_at_Some in E as [_ Hk] end.
  all: intros k'; rewrite lookup_insert; case_decide; subst; [|by left].
  all: right; eexists _, _; split; [done|]; split; [reflexivity|]; done.
Qed.

Lemma get_reads_only_witness :
  ∃ db' response,
    requestHandler "GET" "/articles/2" None crossed_store = Ok (db', response)
    ∧ users db' = users crossed_store
    ∧ comments db' = comments crossed_store.
Proof.
  eexists _, _. split; [vm_compute; reflexivity|].
  destruct (get_reads_only "GET" "/articles/2" None crossed_store
              (store_of (get GetArticle "/articles/2") crossed_store)
              (response_of (get GetArticle "/articles/2") crossed_store)
              eq_refl eq_refl) as (Hu & Hc & _).
  split; [exact Hu | exact Hc].
Defined.

(** ** Creating a user *)

(** X18. On a reachable store [getOrCreateUser] with a non-empty
    username that is no property name of [Object.prototype] answers with
    the user of that name: 201 and a new user with empty id lists when
    the name is free, 200 and the stored user, leaving the store as it
    is, when it is taken; a second identical call answers 200 with the
    same user and changes nothing.  With a property name of
    [Object.prototype] ([constructor], [toString], ...) it answers 200
    with the inherited value and stores nothing.  With an empty or
    missing username it answers 400, unless a user is stored under the
    key that the missing value converts to. *)
Theorem getOrCreateUser_idempotent db url request :
  reachable db →
  (∀ s, request_username request = NStr s → s ≠ "" → inherited s = false →
     ∃ db' usr status,
       getOrCreateUser url request db
       = Ok (db', Response.mk status (Some (body_user usr)))
       ∧ User.username usr = s
       ∧ users db' !! s = Some usr
       ∧ (users db !! s = None →
          status = 201 ∧ usr = User.mk s [] []
          ∧ db' = set_users (<[s := usr]> (users db)) db)
       ∧ (∀ usr0, users db !! s = Some usr0 →
            status = 200 ∧ usr = usr0 ∧ db' = db)
       ∧ getOrCreateUser url request db'
         = Ok (db', Response.mk 200 (Some (body_user usr))))
  ∧ (∀ s, request_username request = NStr s → inherited s = true →
       users db !! s = None
       ∧ getOrCreateUser url request db
         = Ok (db, Response.mk 200 (Some (body_inherited s))))
  ∧ (name_truthy (request_username request) = false →
     users db !! ToString (request_username request) = None →
     getOrCreateUser url request db = Ok (db, Response.mk 400 None)).
Proof.
  intros Hreach. pose proof (reachable_users_ok _ Hreach) as (Hu & _).
  pose proof (reachable_users_plain _ Hreach) as Husers.
  unfold getOrCreateUser. split_and!.
  - intros s -> Hs Hin. simpl.
    destruct (users db !! s) as [usr0|] eqn:Hold.
    + rewrite (proj2 (users_at_own _ (NStr s) _) Hold).
      exists db, usr0, 200. split; [done|]. destruct (Hu _ _ Hold) as [Hname _].
      split_and!; try done.
      * by intros usr1 [= ->].
      * by rewrite (proj2 (users_at_own _ (NStr s) _) Hold).
    + rewrite (proj2 (users_at_no_user _ (NStr s)) (conj Hold Hin)). simpl.
      assert (truthy s = true) as -> by by destruct s.
      eexists _, _, 201. split; [reflexivity|]. simpl.
      rewrite lookup_insert_eq. split_and!; try done.
      erewrite (proj2 (users_at_own _ (NStr s) _)); [done|].
      simpl. apply lookup_insert_eq.
  - intros s -> Hin. split; [by apply Husers|].
    by rewrite (proj2 (users_at_from_prototype _ (NStr s))
                  (conj (Husers s Hin) Hin)).
  - intros Hfalsy Hnone.
    assert (inherited (ToString (request_username request)) = false) as Hin.
    { destruct (request_username request) as [| |s]; try done.
      destruct s; [done | discriminate Hfalsy]. }
    rewrite (proj2 (users_at_no_user _ _) (conj Hnone Hin)).
    by rewrite Hfalsy.
Qed.

Lemma getOrCreateUser_idempotent_witness :
  reachable crossed_store
  ∧ (∃ db' usr status,
       getOrCreateUser "/users" (Request.mk (Some (Body.mk (NStr "bob") None None)))
         crossed_store
       = Ok (db', Response.mk status (Some (body_user usr)))
       ∧ User.username usr = "bob"
       ∧ getOrCreateUser "/users"
           (Request.mk (Some (Body.mk (NStr "bob") None None))) db'
         = Ok (db', Response.mk 200 (Some (body_user usr))))
  ∧ getOrCreateUser "/users"
      (Request.mk (Some (Body.mk (NStr "constructor") None None))) crossed_store
    = Ok (crossed_store, Response.mk 200 (Some (body_inherited "constructor"))).
Proof.
  split; [exact crossed_store_reachable|]. split.
  - destruct (proj1 (getOrCreateUser_idempotent crossed_store "/users"
                       (Request.mk (Some (Body.mk (NStr "bob") None None)))
                       crossed_store_reachable) "bob" eq_refl)
      as (db' & usr & status & Hrun & Hname & _ & _ & _ & Hagain).
    + discriminate.
    + reflexivity.
    + exists db', usr, status. split; [exact Hrun|].
      split; [exact Hname | exact Hagain].
  - apply (proj1 (proj2 (getOrCreateUser_idempotent crossed_store "/users"
                           (Request.mk (Some (Body.mk (NStr "constructor") None None)))
                           crossed_store_reachable)) "constructor");
      reflexivity.
Defined.

(** ** Ids without gaps *)

Lemma consecutive_from calls db db' trace :
  ids_ok db → run calls db = Ok (db', trace) →
  created_article_ids trace
  = seqZ (nextArticleId db) (Z.of_nat (length (created_article_ids trace)))
  ∧ nextArticleId db'
    = nextArticleId db + Z.of_nat (length (created_article_ids trace))
  ∧ created_comment_ids trace
    = seqZ (nextCommentId db) (Z.of_nat (length (created_comment_ids trace)))
  ∧ nextCommentId db'
    = nextCommentId db + Z.of_nat (length (created_comment_ids trace)).
Proof.
  revert db trace. induction calls as [|c calls IH]; intros db trace Hok Hrun.
  - simpl in Hrun. simplify_eq. simpl. split_and!; try done; lia.
  - rewrite run_cons in Hrun.
    destruct (step c db) as [[db1 response]|] eqn:Hstep; [|done].
    destruct (run calls db1) as [[db2 trace']|] eqn:Hrest; simplify_eq.
    destruct (step_ids _ _ _ _ Hok Hstep) as (Hok1 & [Hca Hcc] & _).
    destruct (IH _ _ Hok1 Hrest) as (Ha & Hna & Hc & Hnc).
    rewrite (created_article_ids_cons _ trace'), (created_comment_ids_cons _ trace').
    split_and!.
    + destruct Hca as [[-> Hn]|[-> Hn]]; simpl.
      * by rewrite <- Hn.
      * rewrite seqZ_cons by lia. f_equal.
        rewrite Ha at 1. rewrite Hn. f_equal; lia.
    + destruct Hca as [[-> Hn]|[-> Hn]]; simpl length; lia.
    + destruct Hcc as [[-> Hn]|[-> Hn]]; simpl.
      * by rewrite <- Hn.
      * rewrite seqZ_cons by lia. f_equal.
        rewrite Hc at 1. rewrite Hn. f_equal; lia.
    + destruct Hcc as [[-> Hn]|[-> Hn]]; simpl length; lia.
Qed.

(** X19. Ids have no gaps: along a run from the initial store the
    articles created get the ids 1, 2, 3, ... in this order, whatever
    calls fail or delete in between, and the counter ends one above the
    number of articles created; the same for comments. *)
Theorem ids_consecutive calls db' trace :
  run calls database = Ok (db', trace) →
  created_article_ids trace
  = seqZ 1 (Z.of_nat (length (created_article_ids trace)))
  ∧ nextArticleId db' = 1 + Z.of_nat (length (created_article_ids trace))
  ∧ created_comment_ids trace
    = seqZ 1 (Z.of_nat (length (created_comment_ids trace)))
  ∧ nextCommentId db' = 1 + Z.of_nat (length (created_comment_ids trace)).
Proof. apply (consecutive_from calls database), database_ids_ok. Qed.

Lemma ids_consecutive_witness :
  created_article_ids create_delete_create_trace = seqZ 1 3
  ∧ nextArticleId two_live_one_deleted = 4.
Proof.
  destruct (ids_consecutive create_delete_create two_live_one_deleted
              create_delete_create_trace eq_refl) as (Hids & Hnext & _).
  split; [exact Hids | exact Hnext].
Defined.
